(** * Instagram scraper: modal navigation, session handling, orchestration

    A shallow embedding of [scraper.py] (class [InstagramScraperWithLogin])
    and the properties of its traversal engine, selector fallback chains,
    login/session logic and multi-profile orchestrator.

    Definitions:
    - [PyStr]: the Python [str] operations the scraper relies on
      ([in], [find], [split], [endswith]);
    - [Url]: [normalize_url] and [extract_content_id];
    - [Browser]: a driver whose answers are an arbitrary function of the
      calls made so far, the session file, and the state monad in which the
      methods run, every call and every pause being recorded;
    - [Rate]: the success rate, in binary64;
    - [Scraper]: the methods, in the order of the source;
    - [Scenarios]: small concrete browsers on which the methods are run;
    - [Fallback], [Props]: the notions in which the theorems are stated.

    Proofs: one module of facts per part of the program. *)

From Stdlib Require Import String Ascii List ZArith Bool Lia.
From Stdlib Require QArith Qround Qabs Lqa.
From Stdlib Require Floats Uint63.
Import ListNotations.

Open Scope string_scope.
Open Scope list_scope.

(* ------------------------------------------------------------------------- *)
(** ** Python string operations *)
(* ------------------------------------------------------------------------- *)

Module PyStr.

Local Open Scope string_scope.

(** [sub in s] *)
Fixpoint str_in (sub s : string) : bool :=
  if prefix sub s then true
  else match s with
       | EmptyString => false
       | String _ s' => str_in sub s'
       end.

(** [s.find(sub)], with [None] for Python's [-1] *)
Fixpoint str_find (sub s : string) : option nat :=
  if prefix sub s then Some 0
  else match s with
       | EmptyString => None
       | String _ s' => option_map S (str_find sub s')
       end.

(** [s.endswith(suf)] *)
Fixpoint str_endswith (suf s : string) : bool :=
  if String.eqb s suf then true
  else match s with
       | EmptyString => false
       | String _ s' => str_endswith suf s'
       end.

(** [s.split(sep)] for a non-empty separator (every call site of the
    scraper passes a literal).  The scan goes left to right; [skip] counts
    the characters of a separator occurrence still to be passed over, [acc]
    is the piece being built. *)
Fixpoint split_go (sep : string) (skip : nat) (acc s : string) : list string :=
  match s with
  | EmptyString => [acc]
  | String c s' =>
      match skip with
      | S k => split_go sep k acc s'
      | O =>
          if prefix sep s
          then acc :: split_go sep (String.length sep - 1) EmptyString s'
          else split_go sep 0 (acc ++ String c EmptyString) s'
      end
  end.

Definition str_split (sep s : string) : list string := split_go sep 0 EmptyString s.

(** [s.split(sep)[0]]: the list returned by [split] is never empty. *)
Definition split_head (sep s : string) : string := hd EmptyString (str_split sep s).

(** [s.partition(sep)[0]]: the text before the first occurrence of [sep],
    the whole of [s] when there is none.  Used to reason about [split]. *)
Fixpoint str_before (sep s : string) : string :=
  if prefix sep s then EmptyString
  else match s with
       | EmptyString => EmptyString
       | String c s' => String c (str_before sep s')
       end.

End PyStr.

(* ------------------------------------------------------------------------- *)
(** ** URL helpers *)
(* ------------------------------------------------------------------------- *)

Module Url.

Import PyStr.
Local Open Scope string_scope.

(** The cleaning step of [_get_current_modal_post_url]:
<<
    clean_url = current_url.split('/liked_by')[0].split('/comments')[0]
                           .split('/tagged')[0].split('?')[0]
    if not clean_url.endswith('/'): clean_url += '/'
>> *)
Definition normalize_url (current_url : string) : string :=
  let clean_url :=
    split_head "?"
      (split_head "/tagged"
         (split_head "/comments"
            (split_head "/liked_by" current_url))) in
  if negb (str_endswith "/" clean_url) then clean_url ++ "/" else clean_url.

(** [content_url.split(marker)[1].split("/")[0]]; [None] is the
    [IndexError] of an out-of-range index. *)
Definition code_after (marker content_url : string) : option string :=
  match nth_error (str_split marker content_url) 1 with
  | Some piece => nth_error (str_split "/" piece) 0
  | None => None
  end.

(** [extract_content_id]: the [try] body picks the marker, the [except]
    clause turns any exception into ["unknown"]. *)
Definition extract_content_id (content_url : string) : string :=
  let body :=
    if str_in "/p/" content_url then code_after "/p/" content_url
    else if str_in "/reel/" content_url then code_after "/reel/" content_url
    else Some "unknown" in
  match body with
  | Some content_id => content_id
  | None => "unknown"
  end.

End Url.

(* ------------------------------------------------------------------------- *)
(** ** The browser and the effects of the scraper *)
(* ------------------------------------------------------------------------- *)

Module Browser.

(** Python exceptions, as far as the scraper tells them apart: it has
    handlers for [TimeoutException] and handlers for any [Exception].
    [WebDriverException] stands for every exception that is not a timeout. *)
Inductive exn : Type :=
| TimeoutException
| WebDriverException.

Inductive result (A : Type) : Type :=
| Ok (a : A)
| Raise (e : exn).
Arguments Ok {A} a.
Arguments Raise {A} e.

Inductive By : Type := XPATH | NAME | ID | TAG_NAME.
Definition locator : Type := By * string.

(** Handles of page elements and cookies are opaque to the scraper. *)
Definition element : Type := nat.
Definition cookie : Type := string.

Inductive Keys : Type :=
| Text (s : string)
| ARROW_RIGHT
| ESCAPE.

(** Waiting times and pauses, in milliseconds: a fixed value,
    [random.uniform(lo, hi)] or [random.randint(lo, hi)].  The value drawn
    never decides a branch, so only the bounds are kept. *)
Inductive Duration : Type :=
| Fixed (ms : Z)
| Uniform (lo hi : Z)
| RandInt (lo hi : Z).

(** The calls made on the Selenium driver, indexed by the type of their
    answer.  A [Wait*] call is a whole
    [WebDriverWait(driver, timeout).until(condition)]. *)
Inductive Call : Type -> Type :=
| Get (url : string) : Call unit
| Refresh : Call unit
| CurrentUrl : Call string
| DeleteAllCookies : Call unit
| GetCookies : Call (list cookie)
| AddCookie (c : cookie) : Call unit
| WaitPresence (timeout : Duration) (l : locator) : Call element
| WaitAllPresence (timeout : Duration) (l : locator) : Call (list element)
| WaitClickable (timeout : Duration) (l : locator) : Call element
| WaitAny (timeout : Duration) (ls : list locator) : Call unit
| FindElement (l : locator) : Call element
| FindElements (l : locator) : Call (list element)
| Click (e : element) : Call unit
| Clear (e : element) : Call unit
| SendKeys (e : element) (k : Keys) : Call unit
| GetAttribute (e : element) (name : string) : Call (option string)
| ExecuteScript (code : string) : Call string.

(** What has happened so far: every driver call with its outcome, and
    every pause. *)
Inductive Event : Type :=
| EDriver (A : Type) (c : Call A) (r : result A)
| ESleep (d : Duration).
Arguments EDriver {A} c r.

Definition History : Type := list Event.

(** The operations on [SESSION_FILE] that can fail: [open(..., 'wb')],
    [pickle.dump] and [os.remove]. *)
Inductive FileOp : Type := OpenForWriting | Dump | Remove.

(** The page, the network, the clock and the disk are outside the
    program: the outcome of a call is an arbitrary function of the calls
    made before.  [time_time] is [time.time()] in hundredths of a second,
    the resolution kept by [round(elapsed, 2)].  [file_ok] tells whether an
    operation on the session file goes through. *)
Record Env : Type := {
  driver : forall A : Type, History -> Call A -> result A;
  datetime_now : History -> string;
  time_time : History -> Z;
  file_ok : History -> FileOp -> bool
}.

(** The object [pickle.load] gives back for [instagram_session.pkl].
    [cookies] is [session_data['cookies']]: [None] when that lookup raises
    (the object has no such key, or is no dictionary). *)
Record SessionData : Type := {
  cookies : option (list cookie);
  saved_at : string;
  user_agent : string
}.

(** [session_file]: [None] when the file does not exist, [Some None] when
    it exists and cannot be read or unpickled, [Some (Some d)] when
    [pickle.load] gives back [d]. *)
Record World : Type := {
  env : Env;
  history : History;
  session_file : option (option SessionData)
}.

Definition log (ev : Event) (w : World) : World :=
  {| env := env w;
     history := history w ++ [ev];
     session_file := session_file w |}.

Definition set_session_file (f : option (option SessionData)) (w : World) : World :=
  {| env := env w; history := history w; session_file := f |}.

(** *** The monad of the scraper's methods *)

Definition M (A : Type) : Type := World -> A * World.

Definition ret {A : Type} (a : A) : M A := fun w => (a, w).

Definition bind {A B : Type} (c : M A) (k : A -> M B) : M B :=
  fun w => let (a, w') := c w in k a w'.

(** A step that may raise: the rest of the [try] block is skipped. *)
Definition bind_ok {A B : Type} (c : M (result A)) (k : A -> M (result B))
  : M (result B) :=
  bind c (fun r => match r with
                   | Ok a => k a
                   | Raise e => ret (Raise e)
                   end).

(** A method whose exceptions are all caught, seen from a [try] block. *)
Definition lift {A : Type} (c : M A) : M (result A) :=
  bind c (fun a => ret (Ok a)).

Definition perform {A : Type} (c : Call A) : M (result A) :=
  fun w => let r := driver (env w) A (history w) c in (r, log (EDriver c r) w).

(** [time.sleep] *)
Definition sleep (d : Duration) : M unit := fun w => (tt, log (ESleep d) w).

(** [datetime.now().isoformat()] and [time.time()] *)
Definition now : M string := fun w => (datetime_now (env w) (history w), w).
Definition time : M Z := fun w => (time_time (env w) (history w), w).

Definition read_session_file : M (option (option SessionData)) :=
  fun w => (session_file w, w).

(** [with open(SESSION_FILE, 'wb') as f: pickle.dump(session_data, f)].
    When the file cannot be opened it is left as it is; once it is open it
    has been truncated, so a [pickle.dump] that raises leaves a file that
    exists and cannot be unpickled. *)
Definition write_session_file (d : SessionData) : M (result unit) :=
  fun w =>
    if negb (file_ok (env w) (history w) OpenForWriting)
    then (Raise WebDriverException, w)
    else if negb (file_ok (env w) (history w) Dump)
         then (Raise WebDriverException, set_session_file (Some None) w)
         else (Ok tt, set_session_file (Some (Some d)) w).

(** [try: os.remove(SESSION_FILE) except: pass]: a removal that raises
    leaves the file where it is. *)
Definition remove_session_file : M unit :=
  fun w =>
    if file_ok (env w) (history w) Remove
    then (tt, set_session_file None w)
    else (tt, w).

End Browser.

Declare Scope scraper_scope.
Delimit Scope scraper_scope with scraper.
Notation "x <- c ;; k" := (Browser.bind c (fun x => k))
  (at level 61, c at next level, right associativity) : scraper_scope.
Notation "c ;;; k" := (Browser.bind c (fun _ => k))
  (at level 61, right associativity) : scraper_scope.
Notation "x <-? c ;; k" := (Browser.bind_ok c (fun x => k))
  (at level 61, c at next level, right associativity) : scraper_scope.

(* ------------------------------------------------------------------------- *)
(** ** Percentages *)
(* ------------------------------------------------------------------------- *)

(** The success rate is a Python float: binary64, here Rocq's primitive
    floats.  [round(x, 2)] works on the exact rational a float stands for. *)
Module Rate.

Import Floats.

(** The nearest integer, a tie going to the even one. *)
Definition round_half_even (q : QArith_base.Q) : Z :=
  let f := Qround.Qfloor q in
  match QArith_base.Qcompare
          (QArith_base.Qminus q (QArith_base.inject_Z f))
          (QArith_base.Qmake 1 2) with
  | Lt => f
  | Gt => (f + 1)%Z
  | Eq => if Z.even f then f else (f + 1)%Z
  end.

(** [float(n)] for an integer of moderate size. *)
Definition float_of_Z (k : Z) : float :=
  match k with
  | Z0 => 0%float
  | Zpos _ => PrimFloat.of_uint63 (Uint63.of_Z k)
  | Zneg p => PrimFloat.opp (PrimFloat.of_uint63 (Uint63.of_Z (Zpos p)))
  end.

(** The rational a finite float stands for. *)
Definition exact_value (x : float) : option QArith_base.Q :=
  match Prim2SF x with
  | SpecFloat.S754_zero _ => Some (QArith_base.inject_Z 0)
  | SpecFloat.S754_finite negative m e =>
      let v :=
        if (0 <=? e)%Z
        then QArith_base.inject_Z (Z.pos m * 2 ^ e)
        else QArith_base.Qdiv (QArith_base.inject_Z (Z.pos m))
                              (QArith_base.inject_Z (2 ^ (- e))) in
      Some (if negative then QArith_base.Qopp v else v)
  | _ => None
  end.

(** The number of hundredths [round(x, 2)] keeps: the integer nearest to
    100 times the value of [x]. *)
Definition hundredths (x : float) : option Z :=
  option_map
    (fun q => round_half_even (QArith_base.Qmult q (QArith_base.inject_Z 100)))
    (exact_value x).

(** [round(x, 2)]: the float nearest to the hundredth kept; an infinity or
    a NaN is returned as it is. *)
Definition round2 (x : float) : float :=
  match hundredths x with
  | Some k => PrimFloat.div (float_of_Z k) 100%float
  | None => x
  end.

(** [(success_count / total * 100) if total else 0.0] *)
Definition percentage (success_count total : nat) : float :=
  if Nat.eqb total 0 then 0%float
  else PrimFloat.mul
         (PrimFloat.div (float_of_Z (Z.of_nat success_count))
                        (float_of_Z (Z.of_nat total)))
         100%float.

(** [round((success_count / total * 100) if total else 0.0, 2)] *)
Definition success_rate_of (success_count total : nat) : float :=
  round2 (percentage success_count total).

(** [k] hundredths are within half a hundredth of the ratio
    [success_count / total * 100]. *)
Definition nearest_hundredth (k : Z) (success_count total : nat) : bool :=
  (2 * Z.abs (k * Z.of_nat total - 10000 * Z.of_nat success_count)
   <=? Z.of_nat total)%Z.

Definition rounds_ratio (success_count total : nat) : bool :=
  match hundredths (percentage success_count total) with
  | Some k => nearest_hundredth k success_count total
  | None => false
  end.

End Rate.

(* ------------------------------------------------------------------------- *)
(** ** The scraper: [InstagramScraperWithLogin] *)
(* ------------------------------------------------------------------------- *)

Module Scraper.

Import PyStr Url Browser.
Local Open Scope scraper_scope.

(** *** Configuration constants *)

Definition DEFAULT_WAIT : Z := 15.
Definition PROFILE_DELAY_MIN : Z := 10.
Definition PROFILE_DELAY_MAX : Z := 15.
Definition SHORT_WAIT_MIN : Z := 4.
Definition SHORT_WAIT_MAX : Z := 6.
Definition CONTENT_POSTS : string := "posts".
Definition CONTENT_REELS : string := "reels".
Definition CONTENT_BOTH : string := "both".

Definition seconds (n : Z) : Duration := Fixed (n * 1000).

(** [main] builds the scraper with the default [wait_timeout]. *)
Definition wait_timeout : Duration := seconds DEFAULT_WAIT.

(** *** Data *)

Record ContentRecord : Type := {
  content_url : string;
  content_id : string;
  scraped_at : string;
  content_type : string;
  order : nat
}.

Record ProfileData : Type := {
  username : string;
  profile_url : string;
  profile_scraped_at : string;
  posts : list ContentRecord;
  reels : list ContentRecord
}.

Definition set_posts (l : list ContentRecord) (p : ProfileData) : ProfileData :=
  {| username := username p; profile_url := profile_url p;
     profile_scraped_at := profile_scraped_at p;
     posts := l; reels := reels p |}.

Definition set_reels (l : list ContentRecord) (p : ProfileData) : ProfileData :=
  {| username := username p; profile_url := profile_url p;
     profile_scraped_at := profile_scraped_at p;
     posts := posts p; reels := l |}.

(** *** Session management *)

Definition instagram_root : string := "https://www.instagram.com/".

(** [save_session]: any exception makes it return [False]. *)
Definition save_session : M bool :=
  r <- (_ <-? perform (Get instagram_root) ;;
        _ <-? lift (sleep (seconds 2)) ;;
        cookies <-? perform GetCookies ;;
        saved_at <-? lift now ;;
        user_agent <-? perform (ExecuteScript "return navigator.userAgent;") ;;
        write_session_file
          {| cookies := Some cookies; saved_at := saved_at;
             user_agent := user_agent |}) ;;
  match r with
  | Ok _ => ret true
  | Raise _ => ret false
  end.

Definition login_indicators : list string :=
  [ "//input[@aria-label='Search']";
    "//a[contains(@href, '/direct/inbox/')]";
    "//span[contains(text(), 'Home')]";
    "//div[contains(text(), 'Search')]" ].

(** The [for indicator in indicators] loop of [_check_login_status]: a
    timeout moves on to the next indicator, any other exception leaves the
    loop. [Ok true] is the [return True] inside the loop. *)
Fixpoint probe_indicators (indicators : list string) : M (result bool) :=
  match indicators with
  | [] => ret (Ok false)
  | indicator :: rest =>
      r <- perform (WaitPresence (seconds 5) (XPATH, indicator)) ;;
      match r with
      | Ok _ => ret (Ok true)
      | Raise TimeoutException => probe_indicators rest
      | Raise e => ret (Raise e)
      end
  end.

Definition _check_login_status : M bool :=
  r <- probe_indicators login_indicators ;;
  match r with
  | Ok true => ret true
  | Raise _ => ret false
  | Ok false =>
      r <- perform CurrentUrl ;;
      match r with
      | Raise _ => ret false
      | Ok current_url =>
          if str_in "accounts/login" current_url || str_in "login" current_url
          then ret false
          else
            (* the login-button probe: [False] whatever it finds *)
            r <- perform (FindElements (XPATH, "//button[contains(text(), 'Log in')]")) ;;
            match r with
            | Ok (_ :: _) => ret false
            | _ => ret false
            end
      end
  end.

(** [for cookie in session_data['cookies']], each [add_cookie] in its own
    [try]. *)
Fixpoint add_cookies (cs : list cookie) : M unit :=
  match cs with
  | [] => ret tt
  | c :: rest => _ <- perform (AddCookie c) ;; add_cookies rest
  end.

(** [session_data['cookies']] *)
Definition stored_cookies (session_data : SessionData) : M (result (list cookie)) :=
  match cookies session_data with
  | Some cs => ret (Ok cs)
  | None => ret (Raise WebDriverException)
  end.

(** The part of [load_session] between reading the file and checking the
    login status. *)
Definition restore_cookies (session_data : SessionData) : M (result unit) :=
  _ <-? perform (Get instagram_root) ;;
  _ <-? lift (sleep (seconds 2)) ;;
  _ <-? perform DeleteAllCookies ;;
  cs <-? stored_cookies session_data ;;
  _ <-? lift (add_cookies cs) ;;
  _ <-? perform Refresh ;;
  lift (sleep (seconds 3)).

Definition load_session : M bool :=
  f <- read_session_file ;;
  match f with
  | None => ret false
  | Some content =>
      r <- (match content with
            | None => ret (Raise WebDriverException)   (* [pickle.load] fails *)
            | Some session_data =>
                _ <-? restore_cookies session_data ;;
                lift _check_login_status
            end) ;;
      match r with
      | Ok logged_in => ret logged_in
      | Raise _ => remove_session_file ;;; ret false
      end
  end.

(** *** Login *)

Definition home_indicators : list locator :=
  [ (XPATH, "//input[@aria-label='Search']");
    (XPATH, "//a[contains(@href, '/direct/inbox/')]");
    (XPATH, "//span[contains(text(), 'Home')]") ].

(** From clearing the cookies to the pause after the challenge check. *)
Definition submit_credentials (username password : string) : M (result unit) :=
  _ <-? perform DeleteAllCookies ;;
  _ <-? perform (Get "https://www.instagram.com/accounts/login/") ;;
  _ <-? lift (sleep (seconds 2)) ;;
  _ <-? perform (WaitPresence wait_timeout (NAME, "username")) ;;
  username_field <-? perform (FindElement (NAME, "username")) ;;
  _ <-? perform (Clear username_field) ;;
  _ <-? perform (SendKeys username_field (Text username)) ;;
  password_field <-? perform (FindElement (NAME, "password")) ;;
  _ <-? perform (Clear password_field) ;;
  _ <-? perform (SendKeys password_field (Text password)) ;;
  login_button <-? perform (FindElement (XPATH, "//button[@type='submit']")) ;;
  _ <-? perform (Click login_button) ;;
  _ <-? lift (sleep (Uniform 2000 3000)) ;;
  current_url <-? perform CurrentUrl ;;
  if str_in "challenge" current_url || str_in "two_factor" current_url
  then lift (sleep (seconds 5))
  else ret (Ok tt).

Definition save_if (use_session : bool) : M unit :=
  if use_session then _ <- save_session ;; ret tt else ret tt.

(** The [except TimeoutException] handler of [login]. *)
Definition login_after_timeout (use_session : bool) : M (result bool) :=
  r <- perform (FindElement (ID, "slfErrorAlert")) ;;
  match r with
  | Ok _ => ret (Ok false)
  | Raise _ =>
      current_url <-? perform CurrentUrl ;;
      if str_in "accounts/login" current_url
      then ret (Ok false)
      else save_if use_session ;;; ret (Ok true)
  end.

(** The [try] block of [login]. *)
Definition login_fresh (username password : string) (use_session : bool)
  : M (result bool) :=
  _ <-? submit_credentials username password ;;
  r <- perform (WaitAny (seconds 15) home_indicators) ;;
  match r with
  | Ok _ => save_if use_session ;;; ret (Ok true)
  | Raise TimeoutException => login_after_timeout use_session
  | Raise e => ret (Raise e)
  end.

Definition login (username password : string) (use_session : bool) : M bool :=
  restored <- (if use_session then load_session else ret false) ;;
  if restored then ret true
  else
    r <- login_fresh username password use_session ;;
    match r with
    | Ok b => ret b
    | Raise _ => ret false
    end.

(** *** Selector fallback *)

(** The loop shared by the three viewer actions:
<<
    for selector in selectors:
        try:
            el = WebDriverWait(self.driver, timeout).until(
                     EC.element_to_be_clickable((By.XPATH, selector)))
            el.click()
            return True
        except (TimeoutException, Exception):
            continue
>>
    [true] is the [return True]; [false] means the loop ran out. *)
Definition click_strategy (timeout : Duration) (selector : string)
  : M (result unit) :=
  el <-? perform (WaitClickable timeout (XPATH, selector)) ;;
  perform (Click el).

Fixpoint click_first_match (timeout : Duration) (selectors : list string)
  : M bool :=
  match selectors with
  | [] => ret false
  | selector :: rest =>
      r <- click_strategy timeout selector ;;
      match r with
      | Ok _ => ret true
      | Raise _ => click_first_match timeout rest
      end
  end.

(** [body = find_element(By.TAG_NAME, 'body'); body.send_keys(key)] *)
Definition keyboard_strategy (key : Keys) : M (result unit) :=
  body <-? perform (FindElement (TAG_NAME, "body")) ;;
  perform (SendKeys body key).

Definition dq : string := String (ascii_of_nat 34) EmptyString.

Definition nl : string := String (ascii_of_nat 10) EmptyString.

(** The script of the third strategy, line by line. *)
Definition next_button_script : string :=
  (nl
   ++ "                    var nextBtn = document.querySelector('button[class*="
   ++ dq ++ "_acah" ++ dq ++ "], button[class*=" ++ dq ++ "_aade" ++ dq ++ "]');" ++ nl
   ++ "                    if (nextBtn) nextBtn.click();" ++ nl
   ++ "                ")%string.

Definition script_strategy : M (result unit) :=
  _ <-? perform (ExecuteScript next_button_script) ;; ret (Ok tt).

Definition first_post_selectors : list string :=
  [ "//article//a[contains(@href, '/p/')]";
    "//div[contains(@class, '_aagw')]//a";
    "//a[contains(@href, '/p/')][1]" ].

Definition next_button_selectors : list string :=
  [ "//button[contains(@class, '_acah')]";
    "//button[contains(@class, '_aade')]";
    "//button[.//*[local-name()='svg']]" ].

Definition close_selectors : list string :=
  [ "//button[contains(@class, '_acab')]";
    "//button[.//*[local-name()='svg']][@aria-label='Close']";
    "//div[contains(@role, 'button')][@aria-label='Close']" ].

(** The three actions.  Each ends in an [except Exception: return False]
    that nothing reaches: every call on the driver sits in a [try] of its
    own. *)
Definition _click_first_post : M bool :=
  click_first_match (seconds 8) first_post_selectors.

Definition _go_to_next_post : M bool :=
  clicked <- click_first_match (seconds 3) next_button_selectors ;;
  if clicked then ret true
  else
    r <- keyboard_strategy ARROW_RIGHT ;;
    match r with
    | Ok _ => ret true
    | Raise _ =>
        r <- script_strategy ;;
        match r with
        | Ok _ => ret true
        | Raise _ => ret false
        end
    end.

Definition _close_modal : M bool :=
  clicked <- click_first_match (seconds 3) close_selectors ;;
  if clicked then ret true
  else
    r <- keyboard_strategy ESCAPE ;;
    match r with
    | Ok _ => ret true
    | Raise _ => ret false
    end.

(** *** Modal navigation *)

Definition _get_current_modal_post_url : M (option string) :=
  r <- perform CurrentUrl ;;
  match r with
  | Raise _ => ret None
  | Ok current_url =>
      if negb (str_in "/p/" current_url) then ret None
      else ret (Some (normalize_url current_url))
  end.

(** [current_post_url and current_post_url not in
    [p.get('content_url') for p in posts_data]] *)
Definition is_new_url (current_post_url : option string)
           (posts_data : list ContentRecord) : bool :=
  match current_post_url with
  | None => false
  | Some u =>
      negb (String.eqb u EmptyString)
      && negb (existsb (String.eqb u) (map content_url posts_data))
  end.

(** Lines 569-581: read the reference shown by the viewer and append a
    record when it is new. *)
Definition collect_current_post (posts_data : list ContentRecord)
  : M (list ContentRecord) :=
  current_post_url <- _get_current_modal_post_url ;;
  match current_post_url with
  | Some u =>
      if is_new_url current_post_url posts_data
      then
        scraped_at <- now ;;
        ret (posts_data ++
               [ {| content_url := u;
                    content_id := extract_content_id u;
                    scraped_at := scraped_at;
                    content_type := "post";
                    order := length posts_data + 1 |} ])
      else ret posts_data
  | None => ret posts_data
  end.

(** One pass through the body of the [while] loop; the boolean tells
    whether the loop goes on ([false] is a [break]).  The methods called
    catch their own exceptions, so the [except Exception: break] around the
    body is never entered. *)
Definition arrows_iteration (num_posts : Z) (posts_data : list ContentRecord)
  : M (list ContentRecord * bool) :=
  posts_data <- collect_current_post posts_data ;;
  if (Z.of_nat (length posts_data) >=? num_posts)%Z then ret (posts_data, false)
  else
    moved <- _go_to_next_post ;;
    if negb moved then ret (posts_data, false)
    else sleep (Uniform 1500 2500) ;;; ret (posts_data, true).

(** The [while] loop.  [fuel] bounds the number of passes; the loop itself
    stops on [attempts < max_attempts]. *)
Fixpoint navigate_loop (fuel : nat) (num_posts max_attempts attempts : Z)
         (posts_data : list ContentRecord) : M (list ContentRecord) :=
  match fuel with
  | O => ret posts_data
  | S fuel' =>
      if (Z.of_nat (length posts_data) <? num_posts)%Z && (attempts <? max_attempts)%Z
      then
        let attempts := (attempts + 1)%Z in
        step <- arrows_iteration num_posts posts_data ;;
        let (posts_data, continue) := step in
        if continue
        then navigate_loop fuel' num_posts max_attempts attempts posts_data
        else ret posts_data
      else ret posts_data
  end.

Definition _navigate_posts_via_arrows (num_posts : Z) : M (list ContentRecord) :=
  let max_attempts := (num_posts + 2)%Z in
  navigate_loop (Z.to_nat max_attempts) num_posts max_attempts 0 [].

(** [scrape_posts_via_modal_navigation], over the three methods it calls.
    [posts_data] is assigned once [navigate] has returned, so the handler
    returns the collected posts when the exception comes from the closing
    step, and the empty list otherwise. *)
Section ModalTraversal.

Variable click_first_post : M (result bool).
Variable navigate_posts : Z -> M (result (list ContentRecord)).
Variable close_modal : M (result bool).

Definition modal_try_block (num_posts : Z)
  : M (list ContentRecord * result (list ContentRecord)) :=
  r <- click_first_post ;;
  match r with
  | Raise e => ret ([], Raise e)
  | Ok first_post_clicked =>
      if negb first_post_clicked then ret ([], Ok [])
      else
        sleep (Uniform 2000 3000) ;;;
        r <- navigate_posts num_posts ;;
        match r with
        | Raise e => ret ([], Raise e)
        | Ok posts_data =>
            r <- close_modal ;;
            match r with
            | Raise e => ret (posts_data, Raise e)
            | Ok _ => ret (posts_data, Ok posts_data)
            end
        end
  end.

Definition scrape_posts_with (num_posts : Z) : M (list ContentRecord) :=
  out <- modal_try_block num_posts ;;
  let (posts_data, r) := out in
  match r with
  | Ok returned => ret returned
  | Raise _ => _ <- close_modal ;; ret posts_data
  end.

End ModalTraversal.

Definition scrape_posts_via_modal_navigation (username : string) (num_posts : Z)
  : M (list ContentRecord) :=
  scrape_posts_with (lift _click_first_post)
                    (fun n => lift (_navigate_posts_via_arrows n))
                    (lift _close_modal)
                    num_posts.

(** *** Reels *)

Definition is_new_reel (href : option string) (ordered_reel_urls : list string)
  : bool :=
  match href with
  | None => false
  | Some h =>
      negb (String.eqb h EmptyString) && str_in "/reel/" h
      && negb (existsb (String.eqb h) ordered_reel_urls)
  end.

(** [for a in anchors], each anchor in its own [try]. *)
Fixpoint scan_anchors (max_reels : Z) (anchors : list element)
         (ordered_reel_urls : list string) : M (list string) :=
  match anchors with
  | [] => ret ordered_reel_urls
  | a :: rest =>
      r <- perform (GetAttribute a "href") ;;
      match r with
      | Ok (Some h) =>
          if is_new_reel (Some h) ordered_reel_urls
          then
            let ordered_reel_urls := ordered_reel_urls ++ [h] in
            if (Z.of_nat (length ordered_reel_urls) >=? max_reels)%Z
            then ret ordered_reel_urls
            else scan_anchors max_reels rest ordered_reel_urls
          else scan_anchors max_reels rest ordered_reel_urls
      | _ => scan_anchors max_reels rest ordered_reel_urls
      end
  end.

Definition _find_reel_urls (max_reels : Z) : M (list string) :=
  r <- perform (WaitAllPresence (Uniform (SHORT_WAIT_MIN * 1000) (SHORT_WAIT_MAX * 1000))
                                (TAG_NAME, "a")) ;;
  match r with
  | Raise WebDriverException => ret []
  | _ =>
      r <- perform (FindElements (TAG_NAME, "a")) ;;
      match r with
      | Raise _ => ret []
      | Ok anchors => scan_anchors max_reels anchors []
      end
  end.

(** [for i, reel_url in enumerate(reel_urls)] *)
Fixpoint build_reels (i : nat) (reel_urls : list string)
         (reels_data : list ContentRecord) : M (list ContentRecord) :=
  match reel_urls with
  | [] => ret reels_data
  | reel_url :: rest =>
      sleep (Uniform 200 700) ;;;
      scraped_at <- now ;;
      build_reels (i + 1) rest
        (reels_data ++
           [ {| content_url := reel_url;
                content_id := extract_content_id reel_url;
                scraped_at := scraped_at;
                content_type := "reel";
                order := i + 1 |} ])
  end.

Definition scrape_reels_traditional (num_reels : Z) : M (list ContentRecord) :=
  reel_urls <- _find_reel_urls num_reels ;;
  build_reels 0 reel_urls [].

(** *** One profile *)

Definition profile_loaded_signals : list locator :=
  [ (XPATH, "//a[contains(@href, '/p/')]");
    (XPATH, "//a[contains(@href, '/reel/')]");
    (XPATH, "//header");
    (TAG_NAME, "article") ].

(** [True] also after a timeout; any other exception goes to the caller. *)
Definition _wait_for_profile_load : M (result bool) :=
  r <- perform (WaitAny (seconds 15) profile_loaded_signals) ;;
  match r with
  | Ok _ => ret (Ok true)
  | Raise TimeoutException => ret (Ok true)
  | Raise e => ret (Raise e)
  end.

Definition profile_url_of (username : string) : string :=
  ("https://www.instagram.com/" ++ username ++ "/")%string.

(** Navigation to the profile and the wait for it to load. *)
Definition open_profile (username : string) : M (result bool) :=
  _ <-? perform (Get (profile_url_of username)) ;;
  _wait_for_profile_load.

Definition wants (kind content_type : string) : bool :=
  existsb (String.eqb content_type) [kind; CONTENT_BOTH].

(** The two collection steps, on a profile that loaded and did not
    redirect. *)
Definition collect_content (username : string) (num_posts num_reels : Z)
           (content_type : string) (profile_data : ProfileData) : M ProfileData :=
  profile_data <-
    (if wants CONTENT_POSTS content_type && (num_posts >? 0)%Z
     then posts_data <- scrape_posts_via_modal_navigation username num_posts ;;
          ret (set_posts posts_data profile_data)
     else ret profile_data) ;;
  if wants CONTENT_REELS content_type && (num_reels >? 0)%Z
  then reels_data <- scrape_reels_traditional num_reels ;;
       ret (set_reels reels_data profile_data)
  else ret profile_data.

Definition scrape_profile_content (username : string) (num_posts num_reels : Z)
           (content_type : string) : M ProfileData :=
  scraped_at <- now ;;
  let profile_data :=
    {| username := username;
       profile_url := profile_url_of username;
       profile_scraped_at := scraped_at;
       posts := []; reels := [] |} in
  r <- open_profile username ;;
  match r with
  | Raise _ => ret profile_data
  | Ok loaded =>
      if negb loaded then ret profile_data
      else
        r <- perform CurrentUrl ;;
        match r with
        | Raise _ => ret profile_data
        | Ok current_url =>
            if str_in "accounts/login" current_url || str_in "challenge" current_url
            then ret profile_data
            else collect_content username num_posts num_reels content_type profile_data
        end
  end.

(** *** Several profiles *)

Record ProfileSummary : Type := {
  summary_username : string;
  posts_count : nat;
  reels_count : nat;
  scraping_time_seconds : Z;
  success : bool
}.

Record ProfileResult : Type := {
  profile : ProfileData;
  summary : ProfileSummary
}.

(** [all_results] while the loop runs. *)
Record Running : Type := {
  profiles : list ProfileResult;
  successful_profiles : nat;
  total_posts : nat;
  total_reels : nat
}.

Record BatchSummary : Type := {
  total_profiles : nat;
  batch_successful_profiles : nat;
  batch_total_posts : nat;
  batch_total_reels : nat;
  batch_scraped_at : string;
  success_rate : PrimFloat.float
}.

Record BatchResult : Type := {
  batch_profiles : list ProfileResult;
  batch_summary : BatchSummary
}.

Definition profile_result_of (username : string) (profile_data : ProfileData)
           (elapsed : Z) : ProfileResult :=
  {| profile := profile_data;
     summary :=
       {| summary_username := username;
          posts_count := length (posts profile_data);
          reels_count := length (reels profile_data);
          scraping_time_seconds := elapsed;
          success := Nat.ltb 0 (length (posts profile_data))
                     || Nat.ltb 0 (length (reels profile_data)) |} |}.

Definition record_profile (profile_result : ProfileResult) (all_results : Running)
  : Running :=
  let s := summary profile_result in
  {| profiles := profiles all_results ++ [profile_result];
     successful_profiles :=
       if success s then successful_profiles all_results + 1
       else successful_profiles all_results;
     total_posts :=
       if success s then total_posts all_results + posts_count s
       else total_posts all_results;
     total_reels :=
       if success s then total_reels all_results + reels_count s
       else total_reels all_results |}.

Definition profile_delay : Duration :=
  RandInt (PROFILE_DELAY_MIN * 1000) (PROFILE_DELAY_MAX * 1000).

(** [for i, username in enumerate(usernames, 1)]; [total] is
    [len(usernames)]. *)
Fixpoint profiles_loop (total i : nat) (usernames : list string)
         (posts_per_profile reels_per_profile : Z) (content_type : string)
         (all_results : Running) : M Running :=
  match usernames with
  | [] => ret all_results
  | username :: rest =>
      start_time <- time ;;
      profile_data <- scrape_profile_content username posts_per_profile
                        reels_per_profile content_type ;;
      end_time <- time ;;
      let elapsed := (end_time - start_time)%Z in
      let all_results :=
        record_profile (profile_result_of username profile_data elapsed)
                       all_results in
      (if Nat.ltb i total then sleep profile_delay else ret tt) ;;;
      profiles_loop total (i + 1) rest posts_per_profile reels_per_profile
                    content_type all_results
  end.

Definition scrape_multiple_profiles (usernames : list string)
           (posts_per_profile reels_per_profile : Z) (content_type : string)
  : M BatchResult :=
  scraped_at <- now ;;
  let total := length usernames in
  all_results <- profiles_loop total 1 usernames posts_per_profile
                   reels_per_profile content_type
                   {| profiles := []; successful_profiles := 0;
                      total_posts := 0; total_reels := 0 |} ;;
  ret {| batch_profiles := profiles all_results;
         batch_summary :=
           {| total_profiles := total;
              batch_successful_profiles := successful_profiles all_results;
              batch_total_posts := total_posts all_results;
              batch_total_reels := total_reels all_results;
              batch_scraped_at := scraped_at;
              success_rate :=
                Rate.success_rate_of (successful_profiles all_results) total |} |}.

End Scraper.

(* ------------------------------------------------------------------------- *)
(** ** Concrete browsers *)
(* ------------------------------------------------------------------------- *)

(** Small deterministic sites on which the methods can be run. *)
Module Scenarios.

Import PyStr Browser Scraper.

Definition is_ok {A : Type} (r : result A) : bool :=
  match r with Ok _ => true | Raise _ => false end.

(** The address of the last successful [driver.get]. *)
Definition got (ev : Event) : option string :=
  match ev with
  | EDriver c r =>
      match c with
      | Get url => if is_ok r then Some url else None
      | _ => None
      end
  | ESleep _ => None
  end.

Fixpoint last_get (h : History) : option string :=
  match h with
  | [] => None
  | ev :: rest =>
      match last_get rest with
      | Some url => Some url
      | None => got ev
      end
  end.

(** The number of successful clicks. *)
Definition clicked (ev : Event) : bool :=
  match ev with
  | EDriver c r =>
      match c with
      | Click _ => is_ok r
      | _ => false
      end
  | ESleep _ => false
  end.

Definition clicks (h : History) : nat := length (filter clicked h).

Definition start (e : Env) (f : option (option SessionData)) : World :=
  {| env := e; history := []; session_file := f |}.

Definition clock (h : History) : string := "2024-01-01T00:00:00".
Definition ticks (h : History) : Z := Z.of_nat (length h).

(** A disk on which every operation on the session file goes through. *)
Definition disk (h : History) (op : FileOp) : bool := true.

(** Nothing answers: every call on the driver times out. *)
Definition unresponsive : Env :=
  {| driver := fun A _ _ => Raise TimeoutException;
     datetime_now := clock; time_time := ticks;
     file_ok := disk |}.

(** A viewer showing the addresses [feed] one after the other: the grid
    and the next button can be clicked while addresses remain, the close
    button always. *)
Definition viewer_driver (feed : list string) (A : Type) (h : History)
           (c : Call A) : result A :=
  match c in Call T return result T with
  | CurrentUrl => Ok (nth (clicks h - 1) feed "https://www.instagram.com/")
  | WaitClickable _ (_, selector) =>
      if existsb (String.eqb selector) close_selectors then Ok 0
      else if Nat.ltb (clicks h) (length feed) then Ok 1
           else Raise TimeoutException
  | Click _ => Ok tt
  | _ => Raise WebDriverException
  end.

Definition viewer (feed : list string) : Env :=
  {| driver := viewer_driver feed; datetime_now := clock; time_time := ticks;
     file_ok := disk |}.

Definition three_posts : list string :=
  [ "https://www.instagram.com/p/Caaa111/";
    "https://www.instagram.com/p/Cbbb222/?img_index=1";
    "https://www.instagram.com/p/Cccc333/liked_by/" ].

(** A viewer address whose only ["/p/"] sits in the query. *)
Definition reel_with_post_in_query : list string :=
  [ "https://www.instagram.com/reel/Cxyz789/?next=/p/Cabc123/" ].

(** Only the third next-button selector finds something to click. *)
Definition third_selector_driver (A : Type) (h : History) (c : Call A) : result A :=
  match c in Call T return result T with
  | WaitClickable _ (_, selector) =>
      if String.eqb selector "//button[.//*[local-name()='svg']]" then Ok 7
      else Raise TimeoutException
  | Click _ => Ok tt
  | _ => Raise WebDriverException
  end.

Definition third_selector : Env :=
  {| driver := third_selector_driver; datetime_now := clock; time_time := ticks;
     file_ok := disk |}.

(** The stored cookies are accepted by the driver and rejected by the
    site: no indicator shows up and the browser sits on the login page. *)
Definition expired_driver (A : Type) (h : History) (c : Call A) : result A :=
  match c in Call T return result T with
  | Get _ => Ok tt
  | Refresh => Ok tt
  | DeleteAllCookies => Ok tt
  | AddCookie _ => Ok tt
  | CurrentUrl => Ok "https://www.instagram.com/accounts/login/"
  | WaitPresence _ _ => Raise TimeoutException
  | WaitAny _ _ => Raise TimeoutException
  | _ => Raise WebDriverException
  end.

Definition expired : Env :=
  {| driver := expired_driver; datetime_now := clock; time_time := ticks;
     file_ok := disk |}.

Definition stored_session : SessionData :=
  {| cookies := Some ["sessionid=abc"; "csrftoken=def"];
     saved_at := "2023-12-01T10:00:00";
     user_agent := "Mozilla/5.0" |}.

(** After the credentials are sent the site leaves the login page and
    shows none of the home indicators and no error alert. *)
Definition unclear_driver (A : Type) (h : History) (c : Call A) : result A :=
  match c in Call T return result T with
  | Get _ => Ok tt
  | DeleteAllCookies => Ok tt
  | WaitPresence _ (NAME, _) => Ok 1
  | WaitPresence _ _ => Raise TimeoutException
  | FindElement (NAME, "username") => Ok 1
  | FindElement (NAME, "password") => Ok 2
  | FindElement (XPATH, _) => Ok 3
  | FindElement _ => Raise WebDriverException
  | Clear _ => Ok tt
  | SendKeys _ _ => Ok tt
  | Click _ => Ok tt
  | CurrentUrl => Ok "https://www.instagram.com/accounts/onetap/"
  | WaitAny _ _ => Raise TimeoutException
  | GetCookies => Ok ["sessionid=new"]
  | ExecuteScript _ => Ok "Mozilla/5.0"
  | _ => Raise WebDriverException
  end.

Definition unclear : Env :=
  {| driver := unclear_driver; datetime_now := clock; time_time := ticks;
     file_ok := disk |}.

(** Three profiles: [alice] and [carol] show one reel each and no post,
    [bob] sends the browser to the login page. *)
Definition profiles_driver (A : Type) (h : History) (c : Call A) : result A :=
  match c in Call T return result T with
  | Get _ => Ok tt
  | CurrentUrl =>
      match last_get h with
      | Some url =>
          if String.eqb url (profile_url_of "bob")
          then Ok "https://www.instagram.com/accounts/login/?next=/bob/"
          else Ok url
      | None => Ok "about:blank"
      end
  | WaitAny _ _ => Ok tt
  | WaitAllPresence _ _ => Ok [5]
  | FindElements (TAG_NAME, _) => Ok [5]
  | GetAttribute _ _ =>
      match last_get h with
      | Some url => Ok (Some (url ++ "reel/Cr1/")%string)
      | None => Ok None
      end
  | WaitClickable _ _ => Raise TimeoutException
  | _ => Raise WebDriverException
  end.

Definition three_profiles : Env :=
  {| driver := profiles_driver; datetime_now := clock; time_time := ticks;
     file_ok := disk |}.

(** As [unclear], except that the browser does not hand out its
    cookies. *)
Definition refused_driver (A : Type) (h : History) (c : Call A) : result A :=
  match c in Call T return result T with
  | GetCookies => Raise WebDriverException
  | other => unclear_driver _ h other
  end.

Definition refused : Env :=
  {| driver := refused_driver; datetime_now := clock; time_time := ticks;
     file_ok := disk |}.

(** The worlds the unclear login goes through. *)
Definition unclear_start : World := start unclear None.

Definition unclear_submitted : World :=
  snd (submit_credentials "me" "secret" unclear_start).

Definition unclear_waited : World :=
  snd (perform (WaitAny (seconds 15) home_indicators) unclear_submitted).

Definition unclear_checked : World :=
  snd (perform (FindElement (ID, "slfErrorAlert")) unclear_waited).

Definition unclear_located : World := snd (perform CurrentUrl unclear_checked).

(** The same steps when the cookies are refused. *)
Definition refused_start : World := start refused None.

Definition refused_submitted : World :=
  snd (submit_credentials "me" "secret" refused_start).

Definition refused_waited : World :=
  snd (perform (WaitAny (seconds 15) home_indicators) refused_submitted).

Definition refused_checked : World :=
  snd (perform (FindElement (ID, "slfErrorAlert")) refused_waited).

Definition refused_located : World := snd (perform CurrentUrl refused_checked).

(** The worlds of the three-profile run. *)
Definition three_start : World := start three_profiles None.




Definition three_profiles_summary : BatchSummary :=
  batch_summary
    (fst (scrape_multiple_profiles ["alice"; "bob"; "carol"] 4 2 "both"
            three_start)).

End Scenarios.

(* ------------------------------------------------------------------------- *)
(** ** The ordered-fallback contract *)
(* ------------------------------------------------------------------------- *)

Module Fallback.

Import Browser Scraper.
Local Open Scope scraper_scope.

(** Try each strategy in turn; the first one that does not raise wins. *)
Fixpoint first_success (l : list (M (result unit))) : M bool :=
  match l with
  | [] => ret false
  | s :: rest =>
      r <- s ;;
      match r with
      | Ok _ => ret true
      | Raise _ => first_success rest
      end
  end.

Inductive Action : Type := OpenFirstItem | AdvanceToNext | CloseViewer.

Definition run (a : Action) : M bool :=
  match a with
  | OpenFirstItem => _click_first_post
  | AdvanceToNext => _go_to_next_post
  | CloseViewer => _close_modal
  end.

(** The strategies of each action, in the order in which its method
    tries them. *)
Definition strategies (a : Action) : list (M (result unit)) :=
  match a with
  | OpenFirstItem => map (click_strategy (seconds 8)) first_post_selectors
  | AdvanceToNext =>
      map (click_strategy (seconds 3)) next_button_selectors
      ++ [keyboard_strategy ARROW_RIGHT; script_strategy]
  | CloseViewer =>
      map (click_strategy (seconds 3)) close_selectors
      ++ [keyboard_strategy ESCAPE]
  end.

(** [all_fail l w w']: run one after the other from [w], the strategies
    of [l] all raise, and leave the browser in [w']. *)
Inductive all_fail : list (M (result unit)) -> World -> World -> Prop :=
| all_fail_nil : forall w, all_fail [] w w
| all_fail_cons : forall s rest w e w1 w2,
    s w = (Raise e, w1) ->
    all_fail rest w1 w2 ->
    all_fail (s :: rest) w w2.

End Fallback.

(* ------------------------------------------------------------------------- *)
(** ** Properties of histories, records and summaries *)
(* ------------------------------------------------------------------------- *)

(** The predicates in which the theorems are stated. *)
Module Props.

Import PyStr Url Browser Scraper.

(** The suffix markers removed by [normalize_url], in the order of the
    source. *)
Definition stripped_markers : list string :=
  ["/liked_by"; "/comments"; "/tagged"; "?"].

Definition marker_free (u : string) : Prop :=
  forall m, In m stripped_markers -> str_in m u = false.

(** [late m x u]: the marker [m] does not begin inside the first
    [length x] characters of [u]. *)
Definition late (m x u : string) : Prop :=
  match str_find m u with
  | None => True
  | Some j => String.length x <= j
  end.

(** [appends P c]: running [c] only extends the history, and by events
    that satisfy [P]. *)
Definition appends {A : Type} (P : Event -> Prop) (c : M A) : Prop :=
  forall w, exists h, history (snd (c w)) = history w ++ h /\ Forall P h.

(** Every event except the pause between two profiles. *)
Definition quiet (ev : Event) : Prop := ev <> ESleep profile_delay.

Definition post_record (u scraped_at : string) (position : nat) : ContentRecord :=
  {| content_url := u;
     content_id := extract_content_id u;
     scraped_at := scraped_at;
     content_type := "post";
     order := position |}.

Definition numbered (l : list ContentRecord) : Prop :=
  map order l = seq 1 (length l).

Definition distinct_urls (l : list ContentRecord) : Prop :=
  NoDup (map content_url l).

(** What the traversal promises for a requested count [n]. *)
Definition ordered_unique_upto (n : Z) (l : list ContentRecord) : Prop :=
  (Z.of_nat (length l) <= n)%Z /\ numbered l /\ distinct_urls l.

(** The invariant of the [while] loop. *)
Definition loop_inv (n : Z) (l : list ContentRecord) : Prop :=
  (Z.of_nat (length l) <= Z.max 0 n)%Z /\ numbered l /\ distinct_urls l.

(** [u] was read from the address bar. *)
Definition read_address (h : History) (u : string) : Prop :=
  In (EDriver CurrentUrl (Ok u)) h.

(** The record holds the normalization of an address that was read from the
    address bar and carried ["/p/"]. *)
Definition from_viewer (h : History) (r : ContentRecord) : Prop :=
  str_endswith "/" (content_url r) = true
  /\ exists u, read_address h u
               /\ str_in "/p/" u = true
               /\ content_url r = normalize_url u.

(** The first thing [_close_modal] does: wait for the X button. *)
Definition closing (ev : Event) : bool :=
  match ev with
  | EDriver c _ =>
      match c with
      | WaitClickable _ (_, selector) =>
          String.eqb selector "//button[contains(@class, '_acab')]"
      | _ => false
      end
  | ESleep _ => false
  end.

Definition not_closing (ev : Event) : Prop := closing ev = false.

(** [keeps_session c]: [c] does not touch the session file. *)
Definition keeps_session {A : Type} (c : M A) : Prop :=
  forall w, session_file (snd (c w)) = session_file w.


Definition pacing (ev : Event) : bool :=
  match ev with
  | ESleep (RandInt lo hi) => (lo =? 10000)%Z && (hi =? 15000)%Z
  | _ => false
  end.

End Props.

(* ------------------------------------------------------------------------- *)
(** ** Shapes of strings *)
(* ------------------------------------------------------------------------- *)

(** Notions used to tell where a marker can begin. *)
Module Shapes.

Import PyStr.

(** The character [c] occurs in [s]. *)
Fixpoint has_char (c : ascii) (s : string) : bool :=
  match s with
  | EmptyString => false
  | String x s' => Ascii.eqb c x || has_char c s'
  end.

(** The characters of [m] after the first one. *)
Definition tail_of (m : string) : string :=
  match m with
  | EmptyString => EmptyString
  | String _ m' => m'
  end.

(** [r] is empty or begins with a character that no marker has after its
    first character: a slash or a question mark. *)
Definition starts_a_marker (r : string) : Prop :=
  match r with
  | EmptyString => True
  | String c _ => c = "/"%char \/ c = "?"%char
  end.

(** [m] and [s] differ at a position that both have: however [s] goes on,
    [m] is not a prefix of it. *)
Fixpoint clash (m s : string) : bool :=
  match m, s with
  | String a m', String b s' => if Ascii.eqb a b then clash m' s' else true
  | _, _ => false
  end.

(** [m] clashes with [u] and with every non-empty suffix of [u]. *)
Fixpoint clash_everywhere (m u : string) : bool :=
  match u with
  | EmptyString => true
  | String _ u' => clash m u && clash_everywhere m u'
  end.

End Shapes.

(* ------------------------------------------------------------------------- *)
(** ** Reading the history of a walk *)
(* ------------------------------------------------------------------------- *)

Module Reads.

Import Url Browser Scraper.

(** A read of the address bar. *)
Definition reading (ev : Event) : bool :=
  match ev with
  | EDriver c _ =>
      match c with
      | CurrentUrl => true
      | _ => false
      end
  | ESleep _ => false
  end.

Definition not_reading (ev : Event) : Prop := reading ev = false.

(** The number of reads of the address bar in a history. *)
Definition reads (h : History) : nat := length (filter reading h).

(** A post record whose short-code comes from its own reference. *)
Definition derived_post (r : ContentRecord) : Prop :=
  content_id r = extract_content_id (content_url r)
  /\ content_type r = "post".

End Reads.

(* ------------------------------------------------------------------------- *)
(** ** Reels and profiles: what the results must look like *)
(* ------------------------------------------------------------------------- *)

Module Outputs.

Import PyStr Url Browser Scraper Props.

(** A call that only looks at the page: waiting for anchors, listing them,
    reading an attribute.  Pauses count as passive too. *)
Definition passive (ev : Event) : bool :=
  match ev with
  | EDriver c _ =>
      match c with
      | WaitAllPresence _ _ => true
      | FindElements _ => true
      | GetAttribute _ _ => true
      | _ => false
      end
  | ESleep _ => true
  end.

Definition looks (ev : Event) : Prop := passive ev = true.

(** A reel reference as the scanner keeps it. *)
Definition reel_reference (h : string) : Prop :=
  str_in "/reel/" h = true /\ h <> EmptyString.

(** A reel record whose short-code comes from its own reference. *)
Definition derived_reel (r : ContentRecord) : Prop :=
  content_id r = extract_content_id (content_url r)
  /\ content_type r = "reel"
  /\ str_in "/reel/" (content_url r) = true.

(** [content_type in [kind, CONTENT_BOTH]], spelled out. *)
Definition asks_for (kind content_type : string) : Prop :=
  content_type = kind \/ content_type = CONTENT_BOTH.

End Outputs.

(* ------------------------------------------------------------------------- *)
(** ** Batches *)
(* ------------------------------------------------------------------------- *)

Module Batch.

Import Browser Scraper Props Outputs.

(** What the caller of [scrape_profile_content] can rely on, whatever the
    browser did. *)
Definition profile_shape (name : string) (num_posts num_reels : Z)
           (content_type : string) (pd : ProfileData) : Prop :=
  username pd = name
  /\ profile_url pd = profile_url_of name
  /\ (posts pd <> [] -> asks_for CONTENT_POSTS content_type /\ (0 < num_posts)%Z)
  /\ (reels pd <> [] -> asks_for CONTENT_REELS content_type /\ (0 < num_reels)%Z)
  /\ ordered_unique_upto (Z.max 0 num_posts) (posts pd)
  /\ ordered_unique_upto (Z.max 0 num_reels) (reels pd).

(** The entry of the batch for [name]: the profile and a summary that
    counts what the profile holds. *)
Definition entry_of (name : string) (e : ProfileResult) : Prop :=
  username (profile e) = name
  /\ summary_username (summary e) = name
  /\ posts_count (summary e) = length (posts (profile e))
  /\ reels_count (summary e) = length (reels (profile e))
  /\ (success (summary e) = true
      <-> posts (profile e) <> [] \/ reels (profile e) <> []).

Definition posts_in (l : list ProfileResult) : nat :=
  list_sum (map (fun e => length (posts (profile e))) l).

Definition reels_in (l : list ProfileResult) : nat :=
  list_sum (map (fun e => length (reels (profile e))) l).

Definition successes (l : list ProfileResult) : nat :=
  length (filter (fun e => success (summary e)) l).

(** [scraped_in_turn np nr ct names w hs]: [hs] lists, name by name, what
    [scrape_profile_content] adds to the history, the first scrape started
    in [w] and every next one in the world its predecessor left, after the
    pause. *)
Inductive scraped_in_turn (np nr : Z) (ct : string)
  : list string -> World -> list History -> Prop :=
| turn_none : forall w, scraped_in_turn np nr ct [] w []
| turn_last : forall name w h,
    history (snd (scrape_profile_content name np nr ct w)) = history w ++ h ->
    scraped_in_turn np nr ct [name] w [h]
| turn_next : forall name next rest w h hs,
    history (snd (scrape_profile_content name np nr ct w)) = history w ++ h ->
    scraped_in_turn np nr ct (next :: rest)
      (log (ESleep profile_delay) (snd (scrape_profile_content name np nr ct w)))
      hs ->
    scraped_in_turn np nr ct (name :: next :: rest) w (h :: hs).

(** The scrape of [name] begins by opening the profile page of [name]. *)
Definition opens_profile (name : string) (h : History) : Prop :=
  exists r t, h = EDriver (Get (profile_url_of name)) r :: t.

(** The histories of the profiles one after the other, the pause of
    [PROFILE_DELAY_MIN] to [PROFILE_DELAY_MAX] seconds between two of them. *)
Fixpoint paced (hs : list History) : History :=
  match hs with
  | [] => []
  | h :: rest =>
      match rest with
      | [] => h
      | _ :: _ => h ++ ESleep profile_delay :: paced rest
      end
  end.

End Batch.

(* ------------------------------------------------------------------------- *)
(** ** Sessions: a site that accepts the stored cookies *)
(* ------------------------------------------------------------------------- *)

Module Sites.

Import PyStr Browser Scraper.

(** The stored cookies are accepted and, of the indicators, the inbox link
    shows up. *)
Definition returning_driver (A : Type) (h : History) (c : Call A) : result A :=
  match c in Call T return result T with
  | Get _ => Ok tt
  | Refresh => Ok tt
  | DeleteAllCookies => Ok tt
  | AddCookie _ => Ok tt
  | WaitPresence _ (_, selector) =>
      if String.eqb selector "//a[contains(@href, '/direct/inbox/')]" then Ok 4
      else Raise TimeoutException
  | _ => Raise WebDriverException
  end.

Definition returning : Env :=
  {| driver := returning_driver;
     datetime_now := Scenarios.clock; time_time := Scenarios.ticks;
     file_ok := Scenarios.disk |}.

(** [add_cookie] was called with [c], whatever came of it. *)
Definition attempted (c : cookie) (ev : Event) : Prop :=
  exists r, ev = EDriver (AddCookie c) r.

End Sites.

(* ------------------------------------------------------------------------- *)
(** ** What scraping does to the browser *)
(* ------------------------------------------------------------------------- *)

Module Footprint.

Import PyStr Browser Scraper.

(** A call that stays on the page shown: no navigation, no refresh, nothing
    done to the cookies, no field cleared and no text typed.  The keys
    [ARROW_RIGHT] and [ESCAPE] are not text. *)
Definition stays_on_page (ev : Event) : bool :=
  match ev with
  | EDriver c _ =>
      match c with
      | Get _ => false
      | Refresh => false
      | DeleteAllCookies => false
      | GetCookies => false
      | AddCookie _ => false
      | Clear _ => false
      | SendKeys _ (Text _) => false
      | _ => true
      end
  | ESleep _ => true
  end.

Definition page_only (ev : Event) : Prop := stays_on_page ev = true.

(** The address a [driver.get] was called with. *)
Definition opens (ev : Event) : option string :=
  match ev with
  | EDriver c _ =>
      match c with
      | Get url => Some url
      | _ => None
      end
  | ESleep _ => None
  end.

(** What a batch over [usernames] may do: open the profile page of one of
    them, or stay on the page. *)
Definition scrape_event (usernames : list string) (ev : Event) : Prop :=
  match opens ev with
  | Some url => In url (map profile_url_of usernames)
  | None => page_only ev
  end.

End Footprint.

(* ------------------------------------------------------------------------- *)
(** ** The process: [main] *)
(* ------------------------------------------------------------------------- *)

Module Process.

Import PyStr Browser Scraper.

(** What [parse_arguments] returns. *)
Record Args : Type := {
  args_users : list string;
  args_posts : Z;
  args_reels : Z;
  args_type : string;
  args_no_session : bool;
  args_quiet : bool
}.

(** What [main] finds around it: the two environment variables, the
    outcome of building the scraper (an exception or a browser), and
    whether [json.dump] to the standard output goes through. *)
Record Host : Type := {
  IG_USERNAME : option string;
  IG_PASSWORD : option string;
  started : result World;
  stdout_ok : bool
}.

(** Python's truth value of [os.getenv(...)]: [None] and the empty string
    are false. *)
Definition truthy (v : option string) : bool :=
  match v with
  | Some s => negb (String.eqb s EmptyString)
  | None => false
  end.

Definition text (v : option string) : string :=
  match v with
  | Some s => s
  | None => EmptyString
  end.

(** How the process ends: its exit status, the results handed to
    [json.dump] if it got that far, whether [scraper.close()] ran, and the
    browser as it was left. *)
Record Outcome : Type := {
  exit_code : Z;
  written : option BatchResult;
  closed : bool;
  final : option World
}.

(** How [args = parse_arguments()] ends.  [parser.parse_args()] leaves the
    process with status 2 on a usage error (a missing [-u], an unknown
    option, a value that is no integer or no valid type) and with status 0
    after printing the help for [-h]; otherwise it returns the arguments. *)
Inductive CommandLine : Type :=
| UsageError
| HelpRequested
| Parsed (args : Args).

Definition main (cmdline : CommandLine) (host : Host) : Outcome :=
  match cmdline with
  | UsageError =>
      {| exit_code := 2; written := None; closed := false; final := None |}
  | HelpRequested =>
      {| exit_code := 0; written := None; closed := false; final := None |}
  | Parsed args =>
      let USE_SESSION := negb (args_no_session args) in
      if negb (truthy (IG_USERNAME host)) || negb (truthy (IG_PASSWORD host))
      then {| exit_code := 1; written := None; closed := false; final := None |}
      else
        match started host with
        | Raise _ =>
            (* [scraper] is still [None] in the [finally] *)
            {| exit_code := 1; written := None; closed := false; final := None |}
        | Ok w0 =>
            let (ok, w1) :=
              login (text (IG_USERNAME host)) (text (IG_PASSWORD host))
                    USE_SESSION w0 in
            if negb ok
            then {| exit_code := 1; written := None; closed := true;
                    final := Some w1 |}
            else
              let (_, w2) := sleep (Uniform 2400 4000) w1 in
              let (results, w3) :=
                scrape_multiple_profiles (args_users args) (args_posts args)
                  (args_reels args) (args_type args) w2 in
              {| exit_code := if stdout_ok host then 0 else 1;
                 written := Some results;
                 closed := true;
                 final := Some w3 |}
        end
  end.

End Process.

(* ========================================================================= *)
(** * Proofs *)
(* ========================================================================= *)

(* ------------------------------------------------------------------------- *)
(** ** Facts about the string operations *)
(* ------------------------------------------------------------------------- *)

Module PyStrFacts.

Import PyStr.
Local Open Scope string_scope.
Local Arguments prefix : simpl never.

(** *** Lemmas on append and prefix *)

Lemma append_nil_r (s : string) : s ++ EmptyString = s.
Proof. induction s as [|c s IH]; simpl; [reflexivity | now rewrite IH]. Qed.

Lemma append_assoc (a b c : string) : (a ++ b) ++ c = a ++ (b ++ c).
Proof. induction a as [|x a IH]; simpl; [reflexivity | now rewrite IH]. Qed.

Lemma append_snoc (a : string) (c : ascii) (b : string) :
  (a ++ String c EmptyString) ++ b = a ++ String c b.
Proof. now rewrite append_assoc. Qed.

Lemma length_append (a b : string) :
  String.length (a ++ b) = String.length a + String.length b.
Proof. induction a as [|x a IH]; simpl; [reflexivity | now rewrite IH]. Qed.

Lemma prefix_nil (s : string) : prefix EmptyString s = true.
Proof. now destruct s. Qed.

Lemma prefix_cons (x y : ascii) (a s : string) :
  prefix (String x a) (String y s) = if ascii_dec x y then prefix a s else false.
Proof. reflexivity. Qed.

Lemma prefix_app (a b : string) : prefix a (a ++ b) = true.
Proof.
  induction a as [|x a IH]; simpl; [apply prefix_nil|].
  rewrite prefix_cons. destruct (ascii_dec x x); [exact IH | congruence].
Qed.

Lemma prefix_exists (a s : string) :
  prefix a s = true -> exists t, s = a ++ t.
Proof.
  revert s; induction a as [|x a IH]; intros s H.
  - now exists s.
  - destruct s as [|y s]; [discriminate|].
    rewrite prefix_cons in H. destruct (ascii_dec x y) as [->|]; [|discriminate].
    destruct (IH _ H) as [t ->]. now exists t.
Qed.

(** A prefix of [s ++ b] that is no longer than [s] is a prefix of [s]. *)
Lemma prefix_app_short (m s b : string) :
  String.length m <= String.length s ->
  prefix m (s ++ b) = prefix m s.
Proof.
  revert s; induction m as [|x m IH]; intros s Hlen.
  - now rewrite !prefix_nil.
  - destruct s as [|y s]; simpl in Hlen; [lia|].
    simpl append. rewrite !prefix_cons.
    destruct (ascii_dec x y); [apply IH; lia | reflexivity].
Qed.

(** *** Lemmas on [str_in] *)

Lemma str_in_cons (sub : string) (c : ascii) (s : string) :
  str_in sub (String c s) = prefix sub (String c s) || str_in sub s.
Proof.
  change (str_in sub (String c s))
    with (if prefix sub (String c s) then true else str_in sub s).
  now destruct (prefix sub (String c s)).
Qed.

Lemma str_in_app_r (sub a b : string) :
  str_in sub b = true -> str_in sub (a ++ b) = true.
Proof.
  intros H; induction a as [|x a IH]; [exact H|].
  simpl append. rewrite str_in_cons, IH. apply orb_true_r.
Qed.

Lemma str_in_intro (sub a b : string) : str_in sub (a ++ sub ++ b) = true.
Proof.
  apply str_in_app_r. destruct (sub ++ b) eqn:E.
  - simpl. destruct sub; [reflexivity | discriminate].
  - rewrite str_in_cons, <- E, prefix_app. reflexivity.
Qed.

Lemma str_in_exists (sub s : string) :
  str_in sub s = true -> exists a b, s = a ++ sub ++ b.
Proof.
  induction s as [|c s IH]; intros H.
  - destruct sub as [|x sub]; [|discriminate H].
    exists EmptyString, EmptyString. reflexivity.
  - rewrite str_in_cons in H. apply orb_true_iff in H as [H|H].
    + destruct (prefix_exists _ _ H) as [t Ht]. exists EmptyString, t. exact Ht.
    + destruct (IH H) as (a & b & ->). now exists (String c a), b.
Qed.

(** Dropping a tail cannot create an occurrence. *)
Lemma str_in_app_l_false (sub a b : string) :
  str_in sub (a ++ b) = false -> str_in sub a = false.
Proof.
  intros H. destruct (str_in sub a) eqn:E; [|reflexivity].
  destruct (str_in_exists _ _ E) as (x & y & ->).
  rewrite !append_assoc, str_in_intro in H. discriminate.
Qed.

(** *** Lemmas on [str_before] and [split] *)

Lemma prefix_trans_app (m s t : string) :
  prefix m s = true -> prefix m (s ++ t) = true.
Proof.
  intros H. destruct (prefix_exists _ _ H) as [u ->].
  rewrite append_assoc. apply prefix_app.
Qed.

Lemma str_before_prefix (sep s : string) :
  exists t, s = str_before sep s ++ t.
Proof.
  induction s as [|c s [t IH]].
  - exists EmptyString. destruct sep; reflexivity.
  - simpl str_before. destruct (prefix sep (String c s)).
    + now exists (String c s).
    + exists t. simpl. now rewrite <- IH.
Qed.

Lemma str_before_clean (sep s : string) :
  sep <> EmptyString -> str_in sep (str_before sep s) = false.
Proof.
  intros Hsep. induction s as [|c s IH].
  - simpl. destruct sep; [congruence|]. reflexivity.
  - simpl str_before. destruct (prefix sep (String c s)) eqn:E.
    + destruct sep; [congruence | reflexivity].
    + rewrite str_in_cons, IH, orb_false_r.
      destruct (prefix sep (String c (str_before sep s))) eqn:E'; [|reflexivity].
      destruct (str_before_prefix sep s) as [t Ht].
      apply (prefix_trans_app _ _ t) in E'. simpl in E'.
      rewrite <- Ht in E'. simpl in E. congruence.
Qed.

Lemma str_before_id (sep s : string) :
  str_in sep s = false -> str_before sep s = s.
Proof.
  induction s as [|c s IH]; intros H.
  - destruct sep; reflexivity.
  - rewrite str_in_cons in H. apply orb_false_iff in H as [H1 H2].
    simpl str_before. simpl in H1. rewrite H1. now rewrite IH.
Qed.

Lemma split_go_hd (sep acc s : string) :
  exists tl, split_go sep 0 acc s = (acc ++ str_before sep s) :: tl.
Proof.
  revert acc; induction s as [|c s IH]; intros acc.
  - exists []. destruct sep; simpl; now rewrite append_nil_r.
  - simpl split_go. simpl str_before. destruct (prefix sep (String c s)).
    + eexists. now rewrite append_nil_r.
    + destruct (IH (acc ++ String c EmptyString)) as [tl ->].
      exists tl. now rewrite append_snoc.
Qed.

Lemma split_head_before (sep s : string) : split_head sep s = str_before sep s.
Proof.
  unfold split_head, str_split.
  destruct (split_go_hd sep EmptyString s) as [tl ->]. reflexivity.
Qed.

Lemma nth_error_split_0 (sep s : string) :
  nth_error (str_split sep s) 0 = Some (str_before sep s).
Proof.
  unfold str_split. destruct (split_go_hd sep EmptyString s) as [tl ->]. reflexivity.
Qed.

Lemma split_go_skip (sep acc x rest : string) :
  split_go sep (String.length x) acc (x ++ rest) = split_go sep 0 acc rest.
Proof.
  induction x as [|c x IH]; simpl.
  - destruct rest; reflexivity.
  - exact IH.
Qed.

(** Splitting at the first occurrence of the separator. *)
Lemma split_go_first (sep acc pre rest : string) :
  sep <> EmptyString ->
  str_find sep (pre ++ sep ++ rest) = Some (String.length pre) ->
  split_go sep 0 acc (pre ++ sep ++ rest)
  = (acc ++ pre) :: split_go sep 0 EmptyString rest.
Proof.
  intros Hsep. revert acc. induction pre as [|c pre IH]; intros acc Hfind.
  - rewrite append_nil_r. simpl append.
    destruct sep as [|x sep]; [congruence|]. simpl append.
    cbn [split_go]. change (String x (sep ++ rest)) with (String x sep ++ rest).
    rewrite prefix_app. f_equal.
    replace (String.length (String x sep) - 1) with (String.length sep)
      by (simpl; lia).
    apply split_go_skip.
  - simpl append in *. cbn [split_go]. cbn [str_find] in Hfind.
    destruct (prefix sep (String c (pre ++ sep ++ rest))); [discriminate|].
    destruct (str_find sep (pre ++ sep ++ rest)) eqn:E; [|discriminate].
    simpl in Hfind. injection Hfind as ->.
    rewrite IH by reflexivity. now rewrite append_snoc.
Qed.

Lemma nth_error_split_1 (sep pre rest : string) :
  sep <> EmptyString ->
  str_find sep (pre ++ sep ++ rest) = Some (String.length pre) ->
  nth_error (str_split sep (pre ++ sep ++ rest)) 1 = Some (str_before sep rest).
Proof.
  intros Hsep Hfind. unfold str_split.
  rewrite split_go_first by assumption. simpl.
  apply nth_error_split_0.
Qed.

(** *** Lemmas on [str_endswith] and a trailing slash *)

Lemma str_endswith_app (a suf : string) : str_endswith suf (a ++ suf) = true.
Proof.
  induction a as [|c a IH].
  - simpl append. destruct suf; simpl; [reflexivity|].
    now rewrite Ascii.eqb_refl, String.eqb_refl.
  - simpl append. cbn [str_endswith].
    destruct (String.eqb (String c (a ++ suf)) suf); [reflexivity | exact IH].
Qed.

Lemma str_endswith_tail (suf : string) (c : ascii) (m : string) :
  str_endswith suf (String c m) = false -> str_endswith suf m = false.
Proof.
  cbn [str_endswith]. destruct (String.eqb (String c m) suf); [discriminate | trivial].
Qed.

Lemma prefix_of_nil (m : string) : prefix m EmptyString = true -> m = EmptyString.
Proof. destruct m; [reflexivity | discriminate]. Qed.

(** A marker that does not end in a slash cannot end at an appended one. *)
Lemma prefix_drop_slash (m s : string) :
  str_endswith "/" m = false ->
  prefix m (s ++ "/") = true -> prefix m s = true.
Proof.
  revert m; induction s as [|y s IH]; intros m Hend H.
  - destruct m as [|c m]; [reflexivity|].
    simpl append in H. rewrite prefix_cons in H.
    destruct (ascii_dec c "/") as [->|]; [|discriminate].
    apply prefix_of_nil in H. subst m. discriminate Hend.
  - destruct m as [|c m]; [reflexivity|].
    simpl append in H. rewrite prefix_cons in *.
    destruct (ascii_dec c y); [|discriminate].
    apply IH; [eapply str_endswith_tail; eassumption | exact H].
Qed.

Lemma str_in_add_slash (m a : string) :
  m <> EmptyString -> str_endswith "/" m = false ->
  str_in m a = false -> str_in m (a ++ "/") = false.
Proof.
  intros Hne Hend. induction a as [|x a IH]; intros H.
  - simpl append. rewrite str_in_cons.
    destruct (prefix m "/") eqn:E.
    + apply (prefix_drop_slash m EmptyString Hend) in E.
      apply prefix_of_nil in E. congruence.
    + simpl. destruct m; [congruence | reflexivity].
  - rewrite str_in_cons in H. apply orb_false_iff in H as [H1 H2].
    simpl append. rewrite str_in_cons, (IH H2), orb_false_r.
    destruct (prefix m (String x (a ++ "/"))) eqn:E; [|reflexivity].
    apply (prefix_drop_slash m (String x a) Hend) in E. congruence.
Qed.

End PyStrFacts.

(* ------------------------------------------------------------------------- *)
(** ** URL helpers: normalization and short-code extraction *)
(* ------------------------------------------------------------------------- *)

Module UrlFacts.

Import PyStr PyStrFacts Url Props.
Local Open Scope string_scope.
Local Arguments prefix : simpl never.

Lemma marker_shape (m : string) :
  In m stripped_markers -> m <> EmptyString /\ str_endswith "/" m = false.
Proof.
  intros [<-|[<-|[<-|[<-|[]]]]]; split; (discriminate || reflexivity).
Qed.

Lemma split_head_keeps_clean (m sep s : string) :
  str_in m s = false -> str_in m (split_head sep s) = false.
Proof.
  intros H. rewrite split_head_before.
  destruct (str_before_prefix sep s) as [t Ht].
  rewrite Ht in H. eapply str_in_app_l_false; eassumption.
Qed.

Lemma split_head_clean (sep s : string) :
  sep <> EmptyString -> str_in sep (split_head sep s) = false.
Proof. intros. rewrite split_head_before. now apply str_before_clean. Qed.

Lemma split_head_id (sep s : string) :
  str_in sep s = false -> split_head sep s = s.
Proof. intros. rewrite split_head_before. now apply str_before_id. Qed.

(** The result of normalization carries none of the stripped markers. *)
Lemma normalize_url_marker_free (u : string) : marker_free (normalize_url u).
Proof.
  intros m Hm. destruct (marker_shape m Hm) as [Hne Hend].
  unfold normalize_url.
  set (c4 := split_head "?" _).
  assert (Hc4 : str_in m c4 = false).
  { subst c4. destruct Hm as [<-|[<-|[<-|[<-|[]]]]].
    - do 3 apply split_head_keeps_clean. now apply split_head_clean.
    - do 2 apply split_head_keeps_clean. now apply split_head_clean.
    - apply split_head_keeps_clean. now apply split_head_clean.
    - now apply split_head_clean. }
  destruct (str_endswith "/" c4); simpl; [exact Hc4|].
  now apply str_in_add_slash.
Qed.

Lemma normalize_url_endswith_slash (u : string) :
  str_endswith "/" (normalize_url u) = true.
Proof.
  unfold normalize_url. set (c4 := split_head "?" _).
  destruct (str_endswith "/" c4) eqn:E; simpl; [exact E|].
  apply str_endswith_app.
Qed.

(** A reference without markers and with its trailing slash is left as
    it is. *)
Lemma normalize_url_fixed (u : string) :
  marker_free u -> str_endswith "/" u = true -> normalize_url u = u.
Proof.
  intros Hfree Hend. unfold normalize_url.
  rewrite (split_head_id "/liked_by"), (split_head_id "/comments"),
    (split_head_id "/tagged"), (split_head_id "?")
    by (apply Hfree; simpl; tauto).
  now rewrite Hend.
Qed.

(** **** C8
    Normalization is idempotent: normalizing an already normalized
    reference returns it unchanged. *)
Theorem normalize_url_idempotent (u : string) :
  normalize_url (normalize_url u) = normalize_url u.
Proof.
  apply normalize_url_fixed.
  - apply normalize_url_marker_free.
  - apply normalize_url_endswith_slash.
Qed.

(** *** Short-code extraction *)

Lemma prefix_slash (c : ascii) (s t : string) :
  prefix "/" (String c s) = prefix "/" (String c t).
Proof. rewrite !prefix_cons. destruct (ascii_dec "/" c); now rewrite ?prefix_nil. Qed.

(** Cutting at a marker that starts with a slash does not move the first
    slash. *)
Lemma before_slash_of_before (m' s : string) :
  str_before "/" (str_before (String "/" m') s) = str_before "/" s.
Proof.
  induction s as [|c s IH]; [now destruct m'|].
  cbn [str_before].
  destruct (prefix (String "/" m') (String c s)) eqn:E.
  - rewrite prefix_cons in E. destruct (ascii_dec "/" c) as [<-|]; [|discriminate].
    rewrite prefix_cons. destruct (ascii_dec "/" "/"); [|congruence].
    now rewrite prefix_nil.
  - cbn [str_before]. rewrite (prefix_slash c _ s).
    destruct (prefix "/" (String c s)); [reflexivity | now rewrite IH].
Qed.

Lemma before_slash_id (id rest : string) :
  str_in "/" id = false -> str_before "/" (id ++ "/" ++ rest) = id.
Proof.
  induction id as [|c id IH]; intros H.
  { simpl append. cbn [str_before]. rewrite prefix_cons.
    destruct (ascii_dec "/" "/"); [now rewrite prefix_nil | congruence]. }
  rewrite str_in_cons in H. apply orb_false_iff in H as [H1 H2].
  simpl append. cbn [str_before].
  rewrite (prefix_slash c _ id), H1. f_equal. exact (IH H2).
Qed.

Lemma code_after_first (m' pre id rest : string) :
  str_in "/" id = false ->
  str_find (String "/" m') (pre ++ String "/" m' ++ id ++ "/" ++ rest)
  = Some (String.length pre) ->
  code_after (String "/" m') (pre ++ String "/" m' ++ id ++ "/" ++ rest) = Some id.
Proof.
  intros Hid Hfind. unfold code_after.
  rewrite nth_error_split_1 by (assumption || discriminate).
  rewrite nth_error_split_0, before_slash_of_before.
  now rewrite before_slash_id.
Qed.

Lemma extract_content_id_post (pre id rest : string) :
  str_in "/" id = false ->
  str_find "/p/" (pre ++ "/p/" ++ id ++ "/" ++ rest) = Some (String.length pre) ->
  extract_content_id (pre ++ "/p/" ++ id ++ "/" ++ rest) = id.
Proof.
  intros Hid Hfind. unfold extract_content_id.
  rewrite str_in_intro. now rewrite code_after_first.
Qed.

Lemma extract_content_id_reel (pre id rest : string) :
  str_in "/" id = false ->
  str_in "/p/" (pre ++ "/reel/" ++ id ++ "/" ++ rest) = false ->
  str_find "/reel/" (pre ++ "/reel/" ++ id ++ "/" ++ rest) = Some (String.length pre) ->
  extract_content_id (pre ++ "/reel/" ++ id ++ "/" ++ rest) = id.
Proof.
  intros Hid Hp Hfind. unfold extract_content_id.
  rewrite Hp, str_in_intro. now rewrite code_after_first.
Qed.

(** **** C7 (as amended)
    A reference whose first ["/p/"] is the one of ["/p/abc123/"] has the id
    ["abc123"]; a reference without ["/p/"] whose first ["/reel/"] is the one
    of ["/reel/xyz789/?igsh=..."] has the id ["xyz789"]; a reference with
    neither marker has the id ["unknown"]. *)
Theorem extract_content_id_first_marker :
  (forall pre suf,
      str_find "/p/" (pre ++ "/p/abc123/" ++ suf) = Some (String.length pre) ->
      extract_content_id (pre ++ "/p/abc123/" ++ suf) = "abc123")
  /\ (forall pre q,
      str_in "/p/" (pre ++ "/reel/xyz789/?igsh=" ++ q) = false ->
      str_find "/reel/" (pre ++ "/reel/xyz789/?igsh=" ++ q) = Some (String.length pre) ->
      extract_content_id (pre ++ "/reel/xyz789/?igsh=" ++ q) = "xyz789")
  /\ (forall u,
      str_in "/p/" u = false -> str_in "/reel/" u = false ->
      extract_content_id u = "unknown").
Proof.
  split; [|split].
  - intros pre suf H.
    change (pre ++ "/p/abc123/" ++ suf) with (pre ++ "/p/" ++ "abc123" ++ "/" ++ suf) in *.
    now apply extract_content_id_post.
  - intros pre q Hp H.
    change (pre ++ "/reel/xyz789/?igsh=" ++ q)
      with (pre ++ "/reel/" ++ "xyz789" ++ "/" ++ ("?igsh=" ++ q)) in *.
    now apply extract_content_id_reel.
  - intros u Hp Hr. unfold extract_content_id. now rewrite Hp, Hr.
Qed.

Lemma extract_content_id_first_marker_witness :
  extract_content_id "https://www.instagram.com/p/abc123/" = "abc123"
  /\ extract_content_id "https://www.instagram.com/reel/xyz789/?igsh=MzRlODBiNWFlZA==" = "xyz789"
  /\ extract_content_id "https://www.instagram.com/natgeo/" = "unknown".
Proof.
  destruct extract_content_id_first_marker as (Hpost & Hreel & Hnone).
  split; [|split].
  - apply (Hpost "https://www.instagram.com" EmptyString). reflexivity.
  - apply (Hreel "https://www.instagram.com" "MzRlODBiNWFlZA=="); reflexivity.
  - apply (Hnone "https://www.instagram.com/natgeo/"); reflexivity.
Defined.

(** The id is read after the FIRST marker, and ["/p/"] is tried before
    ["/reel/"]: a later ["/p/abc123/"], or a ["/p/"] in the query of a reel
    reference, changes the result. *)
Lemma extract_content_id_later_marker :
  (str_in "/p/abc123/" "https://www.instagram.com/p/first/p/abc123/" = true
   /\ extract_content_id "https://www.instagram.com/p/first/p/abc123/" <> "abc123")
  /\ (str_in "/reel/xyz789/?igsh=" "https://www.instagram.com/reel/xyz789/?igsh=a/p/b/" = true
      /\ extract_content_id "https://www.instagram.com/reel/xyz789/?igsh=a/p/b/" <> "xyz789").
Proof. repeat split; (reflexivity || discriminate). Qed.

(** *** What normalization keeps *)

Lemma str_find_prefix_le (m p t : string) (j : nat) :
  str_find m p = Some j ->
  exists j', str_find m (p ++ t) = Some j' /\ j' <= j.
Proof.
  revert j; induction p as [|c p IH]; intros j H.
  - cbn [str_find] in H. destruct (prefix m EmptyString) eqn:E; [|discriminate].
    apply prefix_of_nil in E. subst m. exists 0. split; [|lia].
    simpl append. destruct t; reflexivity.
  - cbn [str_find] in H. simpl append. cbn [str_find].
    destruct (prefix m (String c p)) eqn:E.
    + apply (prefix_trans_app _ _ t) in E. simpl append in E. rewrite E.
      exists 0. split; [reflexivity | lia].
    + destruct (str_find m p) as [j0|] eqn:F; [|discriminate].
      injection H as <-. destruct (IH j0 eq_refl) as (j' & -> & Hle).
      destruct (prefix m (String c (p ++ t))).
      * exists 0. split; [reflexivity | lia].
      * exists (S j'). split; [reflexivity | lia].
Qed.

Lemma late_prefix (m x p t : string) : late m x (p ++ t) -> late m x p.
Proof.
  unfold late. intros H. destruct (str_find m p) as [j|] eqn:F; [|exact I].
  destruct (str_find_prefix_le m p t j F) as (j' & E & Hle).
  rewrite E in H. lia.
Qed.

Lemma str_before_keeps (m x y : string) :
  late m x (x ++ y) -> exists z, str_before m (x ++ y) = x ++ z.
Proof.
  unfold late. induction x as [|c x IH]; intros H.
  - now exists (str_before m y).
  - simpl append in *. cbn [str_find str_before] in *.
    destruct (prefix m (String c (x ++ y))); [simpl in H; lia|].
    destruct (str_find m (x ++ y)) as [j|] eqn:F.
    + simpl in H. destruct IH as [z ->]; [lia|]. now exists z.
    + destruct IH as [z ->]; [exact I|]. now exists z.
Qed.

Lemma split_head_keeps (m x u : string) :
  late m x u -> (exists y, u = x ++ y) ->
  exists z, split_head m u = x ++ z.
Proof.
  intros H [y ->]. rewrite split_head_before. now apply str_before_keeps.
Qed.

Lemma split_head_late (m sep x u : string) :
  late m x u -> late m x (split_head sep u).
Proof.
  intros H. rewrite split_head_before.
  destruct (str_before_prefix sep u) as [t Ht]. rewrite Ht in H.
  eapply late_prefix; eassumption.
Qed.

(** When no stripped marker begins inside [x], normalization keeps [x]. *)
Lemma normalize_url_keeps_prefix (x y : string) :
  (forall m, In m stripped_markers -> late m x (x ++ y)) ->
  exists z, normalize_url (x ++ y) = x ++ z.
Proof.
  intros Hlate. unfold normalize_url.
  assert (H1 : late "/liked_by" x (x ++ y)) by (apply Hlate; simpl; tauto).
  assert (H2 : late "/comments" x (x ++ y)) by (apply Hlate; simpl; tauto).
  assert (H3 : late "/tagged" x (x ++ y)) by (apply Hlate; simpl; tauto).
  assert (H4 : late "?" x (x ++ y)) by (apply Hlate; simpl; tauto).
  destruct (split_head_keeps "/liked_by" x (x ++ y) H1) as [z1 E1]; [now exists y|].
  apply (split_head_late _ "/liked_by") in H2, H3, H4.
  destruct (split_head_keeps "/comments" x _ H2) as [z2 E2]; [now exists z1|].
  apply (split_head_late _ "/comments") in H3, H4.
  destruct (split_head_keeps "/tagged" x _ H3) as [z3 E3]; [now exists z2|].
  apply (split_head_late _ "/tagged") in H4.
  destruct (split_head_keeps "?" x _ H4) as [z4 E4]; [now exists z3|].
  rewrite E4. destruct (negb (str_endswith "/" (x ++ z4))).
  - exists (z4 ++ "/"). now rewrite append_assoc.
  - now exists z4.
Qed.

(** A ["/p/"] that ends before every stripped marker survives. *)
Lemma normalize_url_keeps_post_marker (pre rest : string) :
  (forall m, In m stripped_markers ->
             late m (pre ++ "/p/") (pre ++ "/p/" ++ rest)) ->
  str_in "/p/" (normalize_url (pre ++ "/p/" ++ rest)) = true.
Proof.
  intros Hlate.
  destruct (normalize_url_keeps_prefix (pre ++ "/p/") rest) as [z Hz].
  - intros m Hm. rewrite append_assoc. now apply Hlate.
  - rewrite <- append_assoc, Hz, append_assoc. apply str_in_intro.
Qed.

End UrlFacts.

(* ------------------------------------------------------------------------- *)
(** ** Effects: what a method adds to the history *)
(* ------------------------------------------------------------------------- *)

Module Effects.

Import Browser Props.
Local Open Scope scraper_scope.

Section Appends.

Variable P : Event -> Prop.

Lemma appends_ret {A : Type} (a : A) : appends P (ret a).
Proof. intros w. exists []. simpl. now rewrite app_nil_r. Qed.

Lemma appends_bind {A B : Type} (c : M A) (k : A -> M B) :
  appends P c -> (forall a, appends P (k a)) -> appends P (bind c k).
Proof.
  intros Hc Hk w. unfold bind.
  destruct (Hc w) as (h1 & E1 & F1). destruct (c w) as [a w1]. simpl in E1.
  destruct (Hk a w1) as (h2 & E2 & F2).
  exists (h1 ++ h2). split.
  - now rewrite E2, E1, app_assoc.
  - now apply Forall_app.
Qed.

Lemma appends_bind_ok {A B : Type} (c : M (result A)) (k : A -> M (result B)) :
  appends P c -> (forall a, appends P (k a)) -> appends P (bind_ok c k).
Proof.
  intros Hc Hk. apply appends_bind; [exact Hc|].
  intros [a|e]; [apply Hk | apply appends_ret].
Qed.

Lemma appends_lift {A : Type} (c : M A) : appends P c -> appends P (lift c).
Proof. intros Hc. apply appends_bind; [exact Hc | intros; apply appends_ret]. Qed.

Lemma appends_perform {A : Type} (c : Call A) :
  (forall r, P (EDriver c r)) -> appends P (perform c).
Proof.
  intros H w. eexists. split; [reflexivity|]. constructor; [apply H | constructor].
Qed.

Lemma appends_sleep (d : Duration) : P (ESleep d) -> appends P (sleep d).
Proof.
  intros H w. eexists. split; [reflexivity|]. constructor; [exact H | constructor].
Qed.

Lemma appends_now : appends P now.
Proof. intros w. exists []. simpl. now rewrite app_nil_r. Qed.

Lemma appends_time : appends P time.
Proof. intros w. exists []. simpl. now rewrite app_nil_r. Qed.

End Appends.

Lemma appends_weaken {A : Type} (P Q : Event -> Prop) (c : M A) :
  (forall ev, P ev -> Q ev) -> appends P c -> appends Q c.
Proof.
  intros HPQ Hc w. destruct (Hc w) as (h & E & F).
  exists h. split; [exact E|]. eapply Forall_impl; eassumption.
Qed.

Lemma bind_assoc {A B C : Type} (c : M A) (f : A -> M B) (g : B -> M C) (w : World) :
  bind (bind c f) g w = bind c (fun a => bind (f a) g) w.
Proof. unfold bind. destruct (c w) as [a w1]. reflexivity. Qed.

Lemma perform_eq {A : Type} (c : Call A) (w : World) :
  perform c w = (fst (perform c w), log (EDriver c (fst (perform c w))) w).
Proof. reflexivity. Qed.

(** A method that starts with a call on the driver leaves that call in the
    history. *)
Lemma appends_after_perform {A B : Type} (P : Event -> Prop) (c : Call A)
      (k : result A -> M B) :
  (forall r, appends P (k r)) ->
  forall w, exists r h,
    history (snd (bind (perform c) k w)) = history w ++ EDriver c r :: h
    /\ Forall P h.
Proof.
  intros Hk w. unfold bind. rewrite perform_eq.
  destruct (Hk (fst (perform c w)) (log (EDriver c (fst (perform c w))) w))
    as (h & E & F).
  exists (fst (perform c w)), h. split; [|exact F].
  rewrite E. cbn [log history]. now rewrite <- app_assoc.
Qed.

Lemma appends_grows {A : Type} (P : Event -> Prop) (c : M A) :
  appends P c -> forall w, exists h, history (snd (c w)) = history w ++ h.
Proof. intros H w. destruct (H w) as (h & E & _). now exists h. Qed.

End Effects.

(* ------------------------------------------------------------------------- *)
(** ** Selector fallback *)
(* ------------------------------------------------------------------------- *)

Module FallbackFacts.

Import Browser Scraper Fallback.
Local Open Scope scraper_scope.

Lemma first_success_app (l1 l2 : list (M (result unit))) (w : World) :
  first_success (l1 ++ l2) w
  = (clicked <- first_success l1 ;;
     if clicked then ret true else first_success l2) w.
Proof.
  revert w; induction l1 as [|s l1 IH]; intros w; [reflexivity|].
  cbn [app first_success]. unfold bind in *.
  destruct (s w) as [[x|e] w1]; [reflexivity|].
  apply IH.
Qed.

Lemma click_first_match_first_success (t : Duration) (l : list string) (w : World) :
  click_first_match t l w = first_success (map (click_strategy t) l) w.
Proof.
  revert w; induction l as [|sel l IH]; intros w; [reflexivity|].
  simpl. unfold bind. destruct (click_strategy t sel w) as [[x|e] w1]; [reflexivity|].
  apply IH.
Qed.

(** Each action is the fallback chain over its strategies. *)
Lemma run_first_success (a : Action) (w : World) :
  run a w = first_success (strategies a) w.
Proof.
  destruct a; cbn [run strategies].
  - apply click_first_match_first_success.
  - rewrite first_success_app. unfold _go_to_next_post, bind.
    rewrite click_first_match_first_success.
    destruct (first_success _ w) as [[|] w1]; [reflexivity|].
    simpl. unfold bind.
    destruct (keyboard_strategy ARROW_RIGHT w1) as [[x|e] w2]; [reflexivity|].
    destruct (script_strategy w2) as [[x|e'] w3]; reflexivity.
  - rewrite first_success_app. unfold _close_modal, bind.
    rewrite click_first_match_first_success.
    destruct (first_success _ w) as [[|] w1]; [reflexivity|].
    simpl. unfold bind.
    destruct (keyboard_strategy ESCAPE w1) as [[x|e] w2]; reflexivity.
Qed.

Lemma first_success_all_fail (l : list (M (result unit))) (w w1 : World) :
  all_fail l w w1 -> first_success l w = (false, w1).
Proof.
  induction 1 as [w|s rest w e w1 w2 Hs _ IH]; [reflexivity|].
  simpl. unfold bind. now rewrite Hs.
Qed.

Lemma first_success_after_failures (pre post : list (M (result unit)))
      (s : M (result unit)) (w w1 w2 : World) (x : unit) :
  all_fail pre w w1 -> s w1 = (Ok x, w2) ->
  first_success (pre ++ s :: post) w = (true, w2).
Proof.
  intros Hpre Hs. rewrite first_success_app. unfold bind.
  rewrite (first_success_all_fail _ _ _ Hpre). simpl. unfold bind.
  now rewrite Hs.
Qed.

(** **** C4
    For each of the three fallback actions: when the strategies before
    some strategy all fail and that one succeeds, the action reports
    success; when all of them fail, it reports failure.  The outcome is a
    boolean in both cases: the exceptions of the strategies stay inside. *)
Theorem selector_fallback (a : Action) (w : World) :
  (forall pre s post w1 w2 x,
      strategies a = pre ++ s :: post ->
      all_fail pre w w1 ->
      s w1 = (Ok x, w2) ->
      run a w = (true, w2))
  /\ (forall w1, all_fail (strategies a) w w1 -> run a w = (false, w1)).
Proof.
  split.
  - intros pre s post w1 w2 x Hsplit Hpre Hs.
    rewrite run_first_success, Hsplit.
    eapply first_success_after_failures; eassumption.
  - intros w1 Hall. rewrite run_first_success.
    now apply first_success_all_fail.
Qed.

Lemma selector_fallback_witness :
  fst (run AdvanceToNext (Scenarios.start Scenarios.third_selector None)) = true
  /\ fst (run OpenFirstItem (Scenarios.start Scenarios.unresponsive None)) = false.
Proof.
  split.
  - destruct (selector_fallback AdvanceToNext
                (Scenarios.start Scenarios.third_selector None)) as [Hwin _].
    erewrite (Hwin (map (click_strategy (seconds 3))
                        ["//button[contains(@class, '_acah')]";
                         "//button[contains(@class, '_aade')]"])
                   (click_strategy (seconds 3) "//button[.//*[local-name()='svg']]")
                   [keyboard_strategy ARROW_RIGHT; script_strategy]).
    + reflexivity.
    + reflexivity.
    + eapply all_fail_cons; [reflexivity|].
      eapply all_fail_cons; [reflexivity|].
      apply all_fail_nil.
    + reflexivity.
  - destruct (selector_fallback OpenFirstItem
                (Scenarios.start Scenarios.unresponsive None)) as [_ Hlose].
    erewrite Hlose; [reflexivity|].
    eapply all_fail_cons; [reflexivity|].
    eapply all_fail_cons; [reflexivity|].
    eapply all_fail_cons; [reflexivity|].
    apply all_fail_nil.
Defined.

End FallbackFacts.

(* ------------------------------------------------------------------------- *)
(** ** What scraping a profile adds to the history *)
(* ------------------------------------------------------------------------- *)

Module ScraperEffects.

Import Browser Scraper Props Effects.
Local Open Scope scraper_scope.

Lemma quiet_driver {A : Type} (c : Call A) (r : result A) : quiet (EDriver c r).
Proof. discriminate. Qed.

Create HintDb quiet_db.

Ltac quiet_sleep := unfold quiet, profile_delay, seconds; discriminate.

Ltac quiet_step :=
  first
    [ apply appends_ret
    | apply appends_now
    | apply appends_time
    | solve [auto with quiet_db]
    | apply appends_perform; intro; apply quiet_driver
    | apply appends_sleep; quiet_sleep
    | apply appends_lift
    | apply appends_bind_ok; [|intro]
    | apply appends_bind; [|intro]
    | match goal with
      | |- appends _ (match ?x with _ => _ end) => destruct x
      end ].

Ltac quiet_auto := repeat quiet_step.

Lemma quiet_click_strategy (t : Duration) (sel : string) :
  appends quiet (click_strategy t sel).
Proof. unfold click_strategy. quiet_auto. Qed.
#[export] Hint Resolve quiet_click_strategy : quiet_db.

Lemma quiet_click_first_match (t : Duration) (l : list string) :
  appends quiet (click_first_match t l).
Proof. induction l as [|sel l IH]; cbn [click_first_match]; quiet_auto. Qed.
#[export] Hint Resolve quiet_click_first_match : quiet_db.

Lemma quiet_keyboard_strategy (k : Keys) : appends quiet (keyboard_strategy k).
Proof. unfold keyboard_strategy. quiet_auto. Qed.
#[export] Hint Resolve quiet_keyboard_strategy : quiet_db.

Lemma quiet_go_to_next_post : appends quiet _go_to_next_post.
Proof. unfold _go_to_next_post, script_strategy. quiet_auto. Qed.
#[export] Hint Resolve quiet_go_to_next_post : quiet_db.

Lemma quiet_close_modal : appends quiet _close_modal.
Proof. unfold _close_modal. quiet_auto. Qed.
#[export] Hint Resolve quiet_close_modal : quiet_db.

Lemma quiet_click_first_post : appends quiet _click_first_post.
Proof. unfold _click_first_post. quiet_auto. Qed.
#[export] Hint Resolve quiet_click_first_post : quiet_db.

Lemma quiet_get_current_modal_post_url : appends quiet _get_current_modal_post_url.
Proof. unfold _get_current_modal_post_url. quiet_auto. Qed.
#[export] Hint Resolve quiet_get_current_modal_post_url : quiet_db.

Lemma quiet_collect_current_post (posts_data : list ContentRecord) :
  appends quiet (collect_current_post posts_data).
Proof. unfold collect_current_post. quiet_auto. Qed.
#[export] Hint Resolve quiet_collect_current_post : quiet_db.

Lemma quiet_arrows_iteration (n : Z) (posts_data : list ContentRecord) :
  appends quiet (arrows_iteration n posts_data).
Proof. unfold arrows_iteration. quiet_auto. Qed.
#[export] Hint Resolve quiet_arrows_iteration : quiet_db.

Lemma quiet_navigate_loop (fuel : nat) (n m a : Z) (posts_data : list ContentRecord) :
  appends quiet (navigate_loop fuel n m a posts_data).
Proof.
  revert a posts_data; induction fuel as [|fuel IH]; intros a posts_data;
    cbn [navigate_loop]; quiet_auto.
Qed.
#[export] Hint Resolve quiet_navigate_loop : quiet_db.

Lemma quiet_navigate_posts_via_arrows (n : Z) :
  appends quiet (_navigate_posts_via_arrows n).
Proof. unfold _navigate_posts_via_arrows. quiet_auto. Qed.
#[export] Hint Resolve quiet_navigate_posts_via_arrows : quiet_db.

Lemma quiet_scrape_posts (username : string) (n : Z) :
  appends quiet (scrape_posts_via_modal_navigation username n).
Proof.
  unfold scrape_posts_via_modal_navigation, scrape_posts_with, modal_try_block.
  quiet_auto.
Qed.
#[export] Hint Resolve quiet_scrape_posts : quiet_db.

Lemma quiet_scan_anchors (n : Z) (anchors : list element) (ordered : list string) :
  appends quiet (scan_anchors n anchors ordered).
Proof.
  revert ordered; induction anchors as [|a anchors IH]; intros ordered;
    cbn [scan_anchors]; quiet_auto.
Qed.
#[export] Hint Resolve quiet_scan_anchors : quiet_db.

Lemma quiet_find_reel_urls (n : Z) : appends quiet (_find_reel_urls n).
Proof. unfold _find_reel_urls. quiet_auto. Qed.
#[export] Hint Resolve quiet_find_reel_urls : quiet_db.

Lemma quiet_build_reels (i : nat) (urls : list string) (acc : list ContentRecord) :
  appends quiet (build_reels i urls acc).
Proof.
  revert i acc; induction urls as [|u urls IH]; intros i acc;
    cbn [build_reels]; quiet_auto.
Qed.
#[export] Hint Resolve quiet_build_reels : quiet_db.

Lemma quiet_scrape_reels (n : Z) : appends quiet (scrape_reels_traditional n).
Proof. unfold scrape_reels_traditional. quiet_auto. Qed.
#[export] Hint Resolve quiet_scrape_reels : quiet_db.

Lemma quiet_open_profile (username : string) : appends quiet (open_profile username).
Proof. unfold open_profile, _wait_for_profile_load. quiet_auto. Qed.
#[export] Hint Resolve quiet_open_profile : quiet_db.

Lemma quiet_collect_content (username : string) (np nr : Z) (ct : string)
      (pd : ProfileData) :
  appends quiet (collect_content username np nr ct pd).
Proof. unfold collect_content. quiet_auto. Qed.
#[export] Hint Resolve quiet_collect_content : quiet_db.


End ScraperEffects.

(* ------------------------------------------------------------------------- *)
(** ** The modal navigation engine *)
(* ------------------------------------------------------------------------- *)

Module ModalFacts.

Import PyStr PyStrFacts Url UrlFacts Browser Scraper Props Effects ScraperEffects.
Local Open Scope scraper_scope.

(** *** Running the methods step by step *)

(** The handlers of [scrape_posts_via_modal_navigation] are never entered:
    the method opens the first post, pauses, walks, closes. *)
Lemma scrape_posts_unfold (username : string) (n : Z) (w : World) :
  scrape_posts_via_modal_navigation username n w
  = let (opened, w1) := _click_first_post w in
    if opened
    then let (_, w2) := sleep (Uniform 2000 3000) w1 in
         let (posts_data, w3) := _navigate_posts_via_arrows n w2 in
         let (_, w4) := _close_modal w3 in
         (posts_data, w4)
    else ([], w1).
Proof.
  unfold scrape_posts_via_modal_navigation, scrape_posts_with, modal_try_block,
    lift, bind, ret.
  destruct (_click_first_post w) as [[|] w1]; [|reflexivity].
  cbn [negb]. destruct (sleep (Uniform 2000 3000) w1) as [u w2].
  destruct (_navigate_posts_via_arrows n w2) as [posts_data w3].
  destruct (_close_modal w3) as [closed w4]. reflexivity.
Qed.

(** The posts after one pass of the loop are those after the collection
    step. *)
Lemma arrows_iteration_posts (n : Z) (posts_data : list ContentRecord) (w : World) :
  fst (fst (arrows_iteration n posts_data w)) = fst (collect_current_post posts_data w).
Proof.
  unfold arrows_iteration, bind.
  destruct (collect_current_post posts_data w) as [posts' w1]. cbn [fst].
  destruct (Z.of_nat (length posts') >=? n)%Z; [reflexivity|].
  destruct (_go_to_next_post w1) as [[|] w2]; reflexivity.
Qed.

Lemma existsb_eqb_false (u : string) (l : list string) :
  existsb (String.eqb u) l = false -> ~ In u l.
Proof.
  intros H Hin. assert (existsb (String.eqb u) l = true) as E; [|congruence].
  apply existsb_exists. exists u. split; [exact Hin | apply String.eqb_refl].
Qed.

(** The collection step reads the address once; it leaves the list alone or
    appends the record of a new normalized address that carried ["/p/"]. *)
Lemma collect_current_post_cases (posts_data : list ContentRecord) (w : World) :
  snd (collect_current_post posts_data w) = snd (perform CurrentUrl w)
  /\ (fst (collect_current_post posts_data w) = posts_data
      \/ exists u scraped_at,
           fst (perform CurrentUrl w) = Ok u
           /\ str_in "/p/" u = true
           /\ ~ In (normalize_url u) (map content_url posts_data)
           /\ fst (collect_current_post posts_data w)
              = posts_data
                  ++ [post_record (normalize_url u) scraped_at (length posts_data + 1)]).
Proof.
  unfold collect_current_post, _get_current_modal_post_url.
  cbv beta iota delta [bind].
  destruct (perform CurrentUrl w) as [[u|e] w1];
    cbv beta iota delta [ret fst snd]; [|now split; [|left]].
  destruct (str_in "/p/" u) eqn:Hp;
    cbv beta iota delta [ret fst snd negb]; [|now split; [|left]].
  destruct (is_new_url (Some (normalize_url u)) posts_data) eqn:Hnew;
    cbv beta iota delta [ret now fst snd]; [|now split; [|left]].
  split; [reflexivity|]. right.
  exists u, (datetime_now (env w1) (history w1)).
  unfold is_new_url in Hnew. apply andb_true_iff in Hnew as [_ Hnew].
  apply negb_true_iff, existsb_eqb_false in Hnew.
  repeat split; assumption.
Qed.

(** *** Order and uniqueness *)

Lemma numbered_snoc (l : list ContentRecord) (r : ContentRecord) :
  numbered l -> order r = length l + 1 -> numbered (l ++ [r]).
Proof.
  unfold numbered. intros Hl Hr.
  rewrite map_app, last_length, seq_S, Hl. cbn [map]. rewrite Hr.
  f_equal. f_equal. lia.
Qed.

Lemma distinct_urls_snoc (l : list ContentRecord) (r : ContentRecord) :
  distinct_urls l -> ~ In (content_url r) (map content_url l) ->
  distinct_urls (l ++ [r]).
Proof.
  unfold distinct_urls. intros Hl Hr. rewrite map_app. apply NoDup_app.
  - exact Hl.
  - cbn [map]. constructor; [intros [] | constructor].
  - intros a Ha [<-|[]]. contradiction.
Qed.

Lemma collect_current_post_inv (n : Z) (posts_data : list ContentRecord) (w : World) :
  loop_inv n posts_data ->
  (Z.of_nat (length posts_data) < n)%Z ->
  loop_inv n (fst (collect_current_post posts_data w)).
Proof.
  intros (Hlen & Hnum & Hdis) Hguard.
  destruct (collect_current_post_cases posts_data w)
    as [_ [->|(u & ts & _ & _ & Hnew & ->)]]; [split; [|split]; assumption|].
  split; [|split].
  - rewrite last_length. lia.
  - now apply numbered_snoc.
  - now apply distinct_urls_snoc.
Qed.

Lemma navigate_loop_inv (fuel : nat) (n m a : Z) (posts_data : list ContentRecord)
      (w : World) :
  loop_inv n posts_data ->
  loop_inv n (fst (navigate_loop fuel n m a posts_data w)).
Proof.
  revert a posts_data w; induction fuel as [|fuel IH]; intros a posts_data w Hinv;
    cbn [navigate_loop]; [exact Hinv|].
  destruct (Z.of_nat (length posts_data) <? n)%Z eqn:Hguard; cbn [andb];
    [|exact Hinv].
  destruct (a <? m)%Z; [|exact Hinv].
  apply Z.ltb_lt in Hguard.
  pose proof (collect_current_post_inv n posts_data w Hinv Hguard) as Hstep.
  rewrite <- (arrows_iteration_posts n) in Hstep.
  unfold bind. destruct (arrows_iteration n posts_data w) as [[posts' continue] w1].
  cbn [fst] in Hstep. destruct continue; [now apply IH | exact Hstep].
Qed.

Lemma navigate_posts_via_arrows_ok (n : Z) (w : World) :
  (0 <= n)%Z -> ordered_unique_upto n (fst (_navigate_posts_via_arrows n w)).
Proof.
  intros Hn. unfold _navigate_posts_via_arrows.
  destruct (navigate_loop_inv (Z.to_nat (n + 2)) n (n + 2) 0 [] w)
    as (Hlen & Hnum & Hdis).
  - split; [cbn; lia | split; [reflexivity | constructor]].
  - split; [lia | split; assumption].
Qed.

(** **** C1
    For a requested count [n >= 0] the traversal returns at most [n]
    records, numbered 1, 2, ... in sequence, no two with the same
    normalized [content_url]; this holds for the walk itself and for the
    method that opens and closes the viewer around it. *)
Theorem modal_traversal_ordered_unique (username : string) (n : Z) (w : World) :
  (0 <= n)%Z ->
  ordered_unique_upto n (fst (_navigate_posts_via_arrows n w))
  /\ ordered_unique_upto n (fst (scrape_posts_via_modal_navigation username n w)).
Proof.
  intros Hn. split; [now apply navigate_posts_via_arrows_ok|].
  rewrite scrape_posts_unfold.
  destruct (_click_first_post w) as [[|] w1].
  - destruct (sleep (Uniform 2000 3000) w1) as [u w2].
    pose proof (navigate_posts_via_arrows_ok n w2 Hn) as H.
    destruct (_navigate_posts_via_arrows n w2) as [posts_data w3].
    destruct (_close_modal w3) as [closed w4]. exact H.
  - split; [cbn; lia | split; [reflexivity | constructor]].
Qed.

Lemma modal_traversal_ordered_unique_witness :
  (0 <= 3)%Z
  /\ ordered_unique_upto 3
       (fst (scrape_posts_via_modal_navigation "natgeo" 3
               (Scenarios.start (Scenarios.viewer Scenarios.three_posts) None)))
  /\ map order
       (fst (scrape_posts_via_modal_navigation "natgeo" 3
               (Scenarios.start (Scenarios.viewer Scenarios.three_posts) None)))
     = [1; 2; 3].
Proof.
  assert (H : (0 <= 3)%Z) by lia.
  split; [exact H|]. split; [|reflexivity].
  exact (proj2 (modal_traversal_ordered_unique "natgeo" 3
                  (Scenarios.start (Scenarios.viewer Scenarios.three_posts) None) H)).
Defined.

(** The bound on the passes is never what stops the loop: any [fuel] that
    covers the attempts left gives the same run. *)
Lemma navigate_loop_fuel (fuel fuel' : nat) (n m a : Z)
      (posts_data : list ContentRecord) (w : World) :
  Z.to_nat (m - a) <= fuel -> Z.to_nat (m - a) <= fuel' ->
  navigate_loop fuel n m a posts_data w = navigate_loop fuel' n m a posts_data w.
Proof.
  revert fuel' a posts_data w; induction fuel as [|fuel IH];
    intros fuel' a posts_data w H H'.
  - destruct fuel' as [|fuel']; [reflexivity|]. cbn [navigate_loop].
    destruct (a <? m)%Z eqn:E; [apply Z.ltb_lt in E; lia|].
    now rewrite andb_false_r.
  - destruct fuel' as [|fuel'].
    + cbn [navigate_loop]. destruct (a <? m)%Z eqn:E; [apply Z.ltb_lt in E; lia|].
      now rewrite andb_false_r.
    + cbn [navigate_loop].
      destruct ((Z.of_nat (length posts_data) <? n)%Z && (a <? m)%Z) eqn:E;
        [|reflexivity].
      apply andb_true_iff in E as [_ E]. apply Z.ltb_lt in E.
      unfold bind. destruct (arrows_iteration n posts_data w) as [[posts' [|]] w1];
        [|reflexivity].
      apply IH; lia.
Qed.

(** *** Where the records come from *)

Lemma from_viewer_mono (h h' : History) (r : ContentRecord) :
  from_viewer h r -> from_viewer (h ++ h') r.
Proof.
  intros (Hend & u & Hread & Hp & Hurl). split; [exact Hend|].
  exists u. split; [|now split]. apply in_or_app. now left.
Qed.

Lemma Forall_from_viewer_mono (h h' : History) (l : list ContentRecord) :
  Forall (from_viewer h) l -> Forall (from_viewer (h ++ h')) l.
Proof. apply Forall_impl. intros r. apply from_viewer_mono. Qed.

Lemma collect_current_post_from_viewer (posts_data : list ContentRecord) (w : World) :
  Forall (from_viewer (history w)) posts_data ->
  Forall (from_viewer (history (snd (collect_current_post posts_data w))))
         (fst (collect_current_post posts_data w)).
Proof.
  intros Hall.
  destruct (collect_current_post_cases posts_data w) as [-> Hcases].
  rewrite perform_eq. cbn [snd log history].
  destruct Hcases as [->|(u & ts & Hu & Hp & _ & ->)].
  - now apply Forall_from_viewer_mono.
  - apply Forall_app. split; [now apply Forall_from_viewer_mono|].
    constructor; [|constructor]. split; [apply normalize_url_endswith_slash|].
    exists u. split; [|now split].
    apply in_or_app. right. rewrite Hu. now left.
Qed.

Lemma arrows_iteration_from_viewer (n : Z) (posts_data : list ContentRecord)
      (w : World) :
  Forall (from_viewer (history w)) posts_data ->
  Forall (from_viewer (history (snd (arrows_iteration n posts_data w))))
         (fst (fst (arrows_iteration n posts_data w))).
Proof.
  intros Hall. apply collect_current_post_from_viewer in Hall.
  unfold arrows_iteration, bind.
  destruct (collect_current_post posts_data w) as [posts' w1]. cbn [fst snd] in *.
  destruct (Z.of_nat (length posts') >=? n)%Z; [exact Hall|].
  destruct (appends_grows _ _ quiet_go_to_next_post w1) as [h Hh].
  destruct (_go_to_next_post w1) as [[|] w2];
    cbn [fst snd negb sleep ret log history] in *.
  - rewrite Hh, <- app_assoc. now apply Forall_from_viewer_mono.
  - rewrite Hh. now apply Forall_from_viewer_mono.
Qed.

Lemma navigate_loop_from_viewer (fuel : nat) (n m a : Z)
      (posts_data : list ContentRecord) (w : World) :
  Forall (from_viewer (history w)) posts_data ->
  Forall (from_viewer (history (snd (navigate_loop fuel n m a posts_data w))))
         (fst (navigate_loop fuel n m a posts_data w)).
Proof.
  revert a posts_data w; induction fuel as [|fuel IH]; intros a posts_data w Hall;
    cbn [navigate_loop]; [exact Hall|].
  destruct ((Z.of_nat (length posts_data) <? n)%Z && (a <? m)%Z); [|exact Hall].
  apply (arrows_iteration_from_viewer n) in Hall.
  unfold bind. destruct (arrows_iteration n posts_data w) as [[posts' continue] w1].
  cbn [fst snd] in Hall. destruct continue; [now apply IH | exact Hall].
Qed.

Lemma scrape_posts_from_viewer (username : string) (n : Z) (w : World) :
  Forall (from_viewer (history (snd (scrape_posts_via_modal_navigation username n w))))
         (fst (scrape_posts_via_modal_navigation username n w)).
Proof.
  rewrite scrape_posts_unfold.
  destruct (_click_first_post w) as [[|] w1]; [|constructor].
  destruct (sleep (Uniform 2000 3000) w1) as [u w2].
  unfold _navigate_posts_via_arrows.
  pose proof (navigate_loop_from_viewer (Z.to_nat (n + 2)) n (n + 2) 0 [] w2
               (Forall_nil _)) as H.
  destruct (navigate_loop (Z.to_nat (n + 2)) n (n + 2) 0 [] w2) as [posts_data w3].
  destruct (appends_grows _ _ quiet_close_modal w3) as [h Hh].
  destruct (_close_modal w3) as [closed w4]. cbn [fst snd] in *.
  rewrite Hh. now apply Forall_from_viewer_mono.
Qed.

(** An address without ["/p/"] gives no reference and no record. *)
Lemma no_post_marker_no_record (n : Z) (posts_data : list ContentRecord)
      (w w1 : World) (u : string) :
  perform CurrentUrl w = (Ok u, w1) ->
  str_in "/p/" u = false ->
  _get_current_modal_post_url w = (None, w1)
  /\ fst (fst (arrows_iteration n posts_data w)) = posts_data.
Proof.
  intros Hread Hp.
  assert (Hget : _get_current_modal_post_url w = (None, w1)).
  { unfold _get_current_modal_post_url, bind. rewrite Hread, Hp. reflexivity. }
  split; [exact Hget|].
  rewrite arrows_iteration_posts. unfold collect_current_post, bind.
  rewrite Hget. reflexivity.
Qed.

(** **** C10 (as amended)
    Every record returned by the modal traversal has a [content_url] that
    ends with ["/"] and is the normalization of an address read from the
    viewer that contained ["/p/"]; the [content_url] itself contains ["/p/"]
    whenever a ["/p/"] of that address ends before every stripped marker.
    When the address lacks ["/p/"] the reference reader returns nothing and
    the pass appends no record. *)
Theorem modal_records_from_post_addresses (username : string) (n : Z) (w : World) :
  Forall
    (fun r =>
       str_endswith "/" (content_url r) = true
       /\ exists u,
           read_address
             (history (snd (scrape_posts_via_modal_navigation username n w))) u
           /\ str_in "/p/" u = true
           /\ content_url r = normalize_url u
           /\ (forall pre rest,
                  u = (pre ++ "/p/" ++ rest)%string ->
                  (forall m, In m stripped_markers -> late m (pre ++ "/p/") u) ->
                  str_in "/p/" (content_url r) = true))
    (fst (scrape_posts_via_modal_navigation username n w))
  /\ (forall posts_data w0 w1 u,
         perform CurrentUrl w0 = (Ok u, w1) ->
         str_in "/p/" u = false ->
         _get_current_modal_post_url w0 = (None, w1)
         /\ fst (fst (arrows_iteration n posts_data w0)) = posts_data).
Proof.
  split.
  - eapply Forall_impl; [|apply scrape_posts_from_viewer].
    intros r (Hend & u & Hread & Hp & Hurl). split; [exact Hend|].
    exists u. repeat split; try assumption.
    intros pre rest -> Hlate. rewrite Hurl.
    now apply normalize_url_keeps_post_marker.
  - intros posts_data w0 w1 u. apply no_post_marker_no_record.
Qed.

Lemma modal_records_from_post_addresses_witness :
  _get_current_modal_post_url (Scenarios.start Scenarios.expired None)
  = (None, snd (perform CurrentUrl (Scenarios.start Scenarios.expired None)))
  /\ Forall (fun r => str_endswith "/" (content_url r) = true)
       (fst (scrape_posts_via_modal_navigation "natgeo" 3
               (Scenarios.start (Scenarios.viewer Scenarios.three_posts) None))).
Proof.
  pose proof (modal_records_from_post_addresses "natgeo" 3
                (Scenarios.start (Scenarios.viewer Scenarios.three_posts) None))
    as [Hrecords Hnone].
  split.
  - apply (Hnone [] (Scenarios.start Scenarios.expired None) _
                 "https://www.instagram.com/accounts/login/"); reflexivity.
  - eapply Forall_impl; [|exact Hrecords]. intros r [Hend _]. exact Hend.
Defined.

(** The address is tested for ["/p/"] before it is cleaned: when the only
    ["/p/"] sits in the query, the record that is appended has none. *)
Lemma modal_record_without_post_marker :
  exists r,
    In r (fst (scrape_posts_via_modal_navigation "natgeo" 2
                 (Scenarios.start
                    (Scenarios.viewer Scenarios.reel_with_post_in_query) None)))
    /\ content_url r = "https://www.instagram.com/reel/Cxyz789/"
    /\ str_in "/p/" (content_url r) = false.
Proof.
  eexists. split; [left; reflexivity|]. split; reflexivity.
Qed.

(** *** Closing the viewer *)

Lemma not_closing_existsb (h : History) :
  Forall not_closing h -> existsb closing h = false.
Proof.
  induction 1 as [|ev h Hev _ IH]; [reflexivity|].
  cbn [existsb]. now rewrite Hev, IH.
Qed.

(** Opening the first post never touches the close button. *)
Lemma click_first_post_not_closing : appends not_closing _click_first_post.
Proof.
  unfold _click_first_post, first_post_selectors. cbn [click_first_match].
  unfold click_strategy.
  repeat first
    [ apply appends_ret
    | apply appends_perform; intro; reflexivity
    | apply appends_bind_ok; [|intro]
    | apply appends_bind; [|intro]
    | match goal with
      | |- appends _ (match ?x with _ => _ end) => destruct x
      end ].
Qed.

(** Every run of [_close_modal] starts with the wait for the X button. *)
Lemma close_modal_closing (w : World) :
  exists h, history (snd (_close_modal w)) = history w ++ h
            /\ existsb closing h = true.
Proof.
  assert (exists K : result element -> M bool,
             (forall r, appends quiet (K r))
             /\ _close_modal w
                = bind (perform (WaitClickable (seconds 3)
                                   (XPATH, "//button[contains(@class, '_acab')]")))
                       K w) as (K & HK & ->).
  { eexists. split.
    2: { unfold _close_modal, close_selectors. cbn [click_first_match].
         unfold click_strategy, bind_ok. rewrite !bind_assoc. reflexivity. }
    intro r. cbv beta. unfold script_strategy. quiet_auto. }
  destruct (appends_after_perform quiet
              (WaitClickable (seconds 3)
                             (XPATH, "//button[contains(@class, '_acab')]"))
              K HK w) as (r & h & -> & _).
  eexists. split; [reflexivity|]. reflexivity.
Qed.

(** Whatever the three methods do, an exception in the [try] block leads to
    the closing step before the method returns. *)
Lemma scrape_posts_with_closes_on_exception
      (click_first_post : M (result bool))
      (navigate_posts : Z -> M (result (list ContentRecord)))
      (close_modal : M (result bool))
      (n : Z) (w w1 : World) (posts_data : list ContentRecord) (e : exn) :
  modal_try_block click_first_post navigate_posts close_modal n w
  = ((posts_data, Raise e), w1) ->
  scrape_posts_with click_first_post navigate_posts close_modal n w
  = (posts_data, snd (close_modal w1)).
Proof.
  intros H. unfold scrape_posts_with, bind. rewrite H.
  destruct (close_modal w1) as [r w2]. reflexivity.
Qed.

(** **** C2 (as amended)
    Once the first post has been opened, [_close_modal] is the last thing
    [scrape_posts_via_modal_navigation] does before it returns what the walk
    collected.  When the first post cannot be opened, the method returns the
    empty list at once and never calls [_close_modal]: there is no viewer to
    close.  An exception in the [try] block, whichever of the three methods
    it comes from, leads to the closing step before the method returns. *)
Theorem close_modal_after_open (username : string) (n : Z) (w : World) :
  (fst (_click_first_post w) = true ->
   exists w3 h,
     scrape_posts_via_modal_navigation username n w
     = (fst (_navigate_posts_via_arrows n
               (snd (sleep (Uniform 2000 3000) (snd (_click_first_post w))))),
        snd (_close_modal w3))
     /\ history (snd (_close_modal w3)) = history w3 ++ h
     /\ existsb closing h = true)
  /\ (fst (_click_first_post w) = false ->
      exists h,
        scrape_posts_via_modal_navigation username n w
        = ([], snd (_click_first_post w))
        /\ history (snd (_click_first_post w)) = history w ++ h
        /\ existsb closing h = false)
  /\ (forall click_first_post navigate_posts close_modal posts_data e w1,
         modal_try_block click_first_post navigate_posts close_modal n w
         = ((posts_data, Raise e), w1) ->
         scrape_posts_with click_first_post navigate_posts close_modal n w
         = (posts_data, snd (close_modal w1))).
Proof.
  split; [|split];
    [| | intros; eapply scrape_posts_with_closes_on_exception; eassumption];
    rewrite scrape_posts_unfold; intros Hopen.
  - destruct (_click_first_post w) as [opened w1]. cbn [fst snd] in *. subst opened.
    destruct (sleep (Uniform 2000 3000) w1) as [u w2]. cbn [snd].
    destruct (_navigate_posts_via_arrows n w2) as [posts_data w3]. cbn [fst].
    destruct (close_modal_closing w3) as (h & Hh & Hclose).
    exists w3, h. destruct (_close_modal w3) as [closed w4]. now repeat split.
  - destruct (click_first_post_not_closing w) as (h & Hh & Hquiet).
    destruct (_click_first_post w) as [opened w1]. cbn [fst snd] in *. subst opened.
    exists h. repeat split; [exact Hh|]. now apply not_closing_existsb.
Qed.

Lemma close_modal_after_open_witness :
  existsb closing
    (history (snd (scrape_posts_via_modal_navigation "natgeo" 3
                     (Scenarios.start (Scenarios.viewer Scenarios.three_posts) None))))
  = true
  /\ fst (scrape_posts_via_modal_navigation "natgeo" 3
            (Scenarios.start Scenarios.unresponsive None)) = [].
Proof.
  split.
  - destruct (close_modal_after_open "natgeo" 3
                (Scenarios.start (Scenarios.viewer Scenarios.three_posts) None))
      as (Hopen & _ & _).
    destruct (Hopen eq_refl) as (w3 & h & -> & Hh & Hclose).
    cbn [snd]. rewrite Hh, existsb_app, Hclose. apply orb_true_r.
  - destruct (close_modal_after_open "natgeo" 3
                (Scenarios.start Scenarios.unresponsive None)) as (_ & Hshut & _).
    destruct (Hshut eq_refl) as (h & -> & _). reflexivity.
Defined.

(** When nothing in the grid can be clicked the method returns without a
    single call of [_close_modal]. *)
Lemma no_close_when_nothing_opens :
  fst (scrape_posts_via_modal_navigation "natgeo" 3
         (Scenarios.start Scenarios.unresponsive None)) = []
  /\ existsb closing
       (history (snd (scrape_posts_via_modal_navigation "natgeo" 3
                        (Scenarios.start Scenarios.unresponsive None))))
     = false.
Proof. split; reflexivity. Qed.

End ModalFacts.

(* ------------------------------------------------------------------------- *)
(** ** Login and session *)
(* ------------------------------------------------------------------------- *)

Module SessionFacts.

Import PyStr Browser Scraper Props Effects.
Local Open Scope scraper_scope.

Lemma keeps_ret {A : Type} (a : A) : keeps_session (ret a).
Proof. intros w. reflexivity. Qed.

Lemma keeps_bind {A B : Type} (c : M A) (k : A -> M B) :
  keeps_session c -> (forall a, keeps_session (k a)) -> keeps_session (bind c k).
Proof.
  intros Hc Hk w. unfold bind. specialize (Hc w).
  destruct (c w) as [a w1]. cbn [snd] in Hc. now rewrite Hk.
Qed.

Lemma keeps_bind_ok {A B : Type} (c : M (result A)) (k : A -> M (result B)) :
  keeps_session c -> (forall a, keeps_session (k a)) -> keeps_session (bind_ok c k).
Proof.
  intros Hc Hk. apply keeps_bind; [exact Hc|].
  intros [a|e]; [apply Hk | apply keeps_ret].
Qed.

Lemma keeps_lift {A : Type} (c : M A) : keeps_session c -> keeps_session (lift c).
Proof. intros Hc. apply keeps_bind; [exact Hc | intros; apply keeps_ret]. Qed.

Lemma keeps_perform {A : Type} (c : Call A) : keeps_session (perform c).
Proof. intros w. reflexivity. Qed.

Lemma keeps_sleep (d : Duration) : keeps_session (sleep d).
Proof. intros w. reflexivity. Qed.

Ltac keeps_auto :=
  repeat first
    [ apply keeps_ret
    | apply keeps_perform
    | apply keeps_sleep
    | assumption
    | apply keeps_lift
    | apply keeps_bind_ok; [|intro]
    | apply keeps_bind; [|intro]
    | match goal with
      | |- keeps_session (match ?x with _ => _ end) => destruct x
      end ].

Lemma keeps_add_cookies (cs : list cookie) : keeps_session (add_cookies cs).
Proof. induction cs as [|c cs IH]; cbn [add_cookies]; keeps_auto. Qed.

Lemma keeps_restore_cookies (d : SessionData) : keeps_session (restore_cookies d).
Proof.
  unfold restore_cookies, stored_cookies.
  keeps_auto; try apply keeps_add_cookies; keeps_auto.
Qed.

Lemma keeps_probe_indicators (l : list string) : keeps_session (probe_indicators l).
Proof. induction l as [|i l IH]; cbn [probe_indicators]; keeps_auto. Qed.

Lemma keeps_snd {A : Type} (c : M A) (w w' : World) (a : A) :
  keeps_session c -> c w = (a, w') -> session_file w' = session_file w.
Proof. intros Hc E. specialize (Hc w). now rewrite E in Hc. Qed.

(** The probes all failed exactly when each of them timed out in turn. *)
Lemma probe_indicators_all_timed_out (l : list string) (w w' : World) :
  probe_indicators l w = (Ok false, w') ->
  history w'
  = history w
      ++ map (fun indicator =>
                EDriver (WaitPresence (seconds 5) (XPATH, indicator))
                        (Raise TimeoutException)) l.
Proof.
  revert w; induction l as [|i l IH]; intros w H.
  - injection H as <-. cbn [map]. now rewrite app_nil_r.
  - cbn [probe_indicators] in H. unfold bind in H. rewrite perform_eq in H.
    destruct (fst (perform (WaitPresence (seconds 5) (XPATH, i)) w))
      as [el|[|]] eqn:E; try discriminate H.
    apply IH in H. rewrite H. cbn [log history map]. now rewrite <- app_assoc.
Qed.

(** *** Restoring a session *)

(** **** C3 (as amended)
    When a stored session is restored, every indicator probe fails and the
    address carries a login marker, [load_session] returns [False] and
    leaves the stored record where it is; the [login] that called it goes
    on, in that state, with a fresh credential login. *)
Theorem expired_session_falls_back_to_login
        (username password : string) (d : SessionData) (u : string)
        (w w1 w2 w3 : World) :
  session_file w = Some (Some d) ->
  restore_cookies d w = (Ok tt, w1) ->
  probe_indicators login_indicators w1 = (Ok false, w2) ->
  perform CurrentUrl w2 = (Ok u, w3) ->
  str_in "accounts/login" u || str_in "login" u = true ->
  load_session w = (false, w3)
  /\ session_file w3 = Some (Some d)
  /\ login username password true w
     = (let (r, w') := login_fresh username password true w3 in
        (match r with Ok b => b | Raise _ => false end, w')).
Proof.
  intros Hfile Hrestore Hprobe Hurl Hmarker.
  assert (Hload : load_session w = (false, w3)).
  { unfold load_session, read_session_file, bind. rewrite Hfile.
    unfold bind_ok, bind. rewrite Hrestore.
    unfold lift, _check_login_status, bind. rewrite Hprobe, Hurl, Hmarker.
    reflexivity. }
  split; [exact Hload|]. split.
  - rewrite <- Hfile.
    rewrite (keeps_snd _ _ _ _ (keeps_perform CurrentUrl) Hurl).
    rewrite (keeps_snd _ _ _ _ (keeps_probe_indicators _) Hprobe).
    exact (keeps_snd _ _ _ _ (keeps_restore_cookies d) Hrestore).
  - unfold login, bind. rewrite Hload.
    destruct (login_fresh username password true w3) as [[b|e] w']; reflexivity.
Qed.

Lemma expired_session_falls_back_to_login_witness :
  load_session (Scenarios.start Scenarios.expired (Some (Some Scenarios.stored_session)))
  = (false,
     snd (_check_login_status
            (snd (restore_cookies Scenarios.stored_session
                    (Scenarios.start Scenarios.expired
                       (Some (Some Scenarios.stored_session)))))))
  /\ fst (login "me" "secret" true
            (Scenarios.start Scenarios.expired (Some (Some Scenarios.stored_session))))
     = false.
Proof.
  destruct (expired_session_falls_back_to_login "me" "secret"
              Scenarios.stored_session "https://www.instagram.com/accounts/login/"
              (Scenarios.start Scenarios.expired (Some (Some Scenarios.stored_session)))
              _ _ _ eq_refl eq_refl eq_refl eq_refl eq_refl) as (Hload & _ & Hlogin).
  split; [exact Hload|]. rewrite Hlogin. reflexivity.
Defined.

(** A session that fails validation stays on disk: the file is removed only
    when restoring it raises. *)
Lemma expired_session_not_removed :
  fst (probe_indicators login_indicators
         (snd (restore_cookies Scenarios.stored_session
                 (Scenarios.start Scenarios.expired
                    (Some (Some Scenarios.stored_session))))))
  = Ok false
  /\ fst (load_session
            (Scenarios.start Scenarios.expired (Some (Some Scenarios.stored_session))))
     = false
  /\ session_file
       (snd (load_session
               (Scenarios.start Scenarios.expired
                  (Some (Some Scenarios.stored_session)))))
     = Some (Some Scenarios.stored_session)
  /\ session_file
       (snd (load_session
               (Scenarios.start Scenarios.expired
                  (Some (Some Scenarios.stored_session)))))
     <> None.
Proof. repeat split; (reflexivity || discriminate). Qed.

(** *** Fresh login *)

(** [save_session] up to the write of the file: either a call on the
    browser raised, or the record is built from what the browser returned
    and handed to the write. *)
Lemma save_session_steps (w : World) :
  (exists cs ts ua w3,
      save_session w
      = (let (r, w') :=
           write_session_file
             {| cookies := Some cs; saved_at := ts; user_agent := ua |} w3 in
         (match r with Ok _ => true | Raise _ => false end, w'))
      /\ session_file w3 = session_file w
      /\ env w3 = env w
      /\ In (EDriver GetCookies (Ok cs)) (history w3)
      /\ In (EDriver (ExecuteScript "return navigator.userAgent;") (Ok ua))
            (history w3))
  \/ (fst (save_session w) = false
      /\ session_file (snd (save_session w)) = session_file w
      /\ exists (A : Type) (c : Call A) (e : exn) (h : History),
          history (snd (save_session w)) = h ++ [EDriver c (Raise e)]).
Proof.
  unfold save_session, bind_ok, lift, bind.
  rewrite (perform_eq (Get instagram_root)).
  destruct (fst (perform (Get instagram_root) w)) as [[]|e] eqn:E1.
  2: { right. cbn [ret fst snd log session_file history].
       split; [reflexivity|]. split; [reflexivity|]. now eexists _, _, e, _. }
  cbv beta iota delta [sleep ret].
  match goal with |- context [perform GetCookies ?w1] =>
    rewrite (perform_eq GetCookies w1);
    destruct (fst (perform GetCookies w1)) as [cs|e] eqn:E2
  end.
  2: { right. cbn [ret fst snd log session_file history].
       split; [reflexivity|]. split; [reflexivity|]. now eexists _, _, e, _. }
  cbv beta iota delta [now ret].
  match goal with |- context [perform (ExecuteScript ?s) ?w2] =>
    rewrite (perform_eq (ExecuteScript s) w2);
    destruct (fst (perform (ExecuteScript s) w2)) as [ua|e] eqn:E3
  end.
  2: { right. cbn [ret fst snd log session_file history].
       split; [reflexivity|]. split; [reflexivity|]. now eexists _, _, e, _. }
  left.
  match goal with
  | |- context [write_session_file
                  {| cookies := _; saved_at := ?ts; user_agent := _ |} ?w3] =>
      exists cs, ts, ua, w3
  end.
  split.
  - destruct (write_session_file _ _) as [[[]|e] w4]; reflexivity.
  - split; [reflexivity|]. split; [reflexivity|]. cbn [log history]. split.
    + apply in_or_app. left. apply in_or_app. right. now left.
    + apply in_or_app. right. now left.
Qed.

(** A successful [save_session] leaves a record holding the cookies and the
    user agent it has just read from the driver. *)
Lemma save_session_persists (w : World) :
  fst (save_session w) = true ->
  exists d cs,
    session_file (snd (save_session w)) = Some (Some d)
    /\ cookies d = Some cs
    /\ In (EDriver GetCookies (Ok cs)) (history (snd (save_session w)))
    /\ In (EDriver (ExecuteScript "return navigator.userAgent;") (Ok (user_agent d)))
          (history (snd (save_session w))).
Proof.
  destruct (save_session_steps w)
    as [(cs & ts & ua & w3 & -> & _ & _ & Hcs & Hua)|(-> & _)]; [|discriminate].
  unfold write_session_file.
  destruct (file_ok _ _ OpenForWriting); cbn [negb fst snd]; [|discriminate].
  destruct (file_ok _ _ Dump); cbn [negb fst snd]; [|discriminate].
  intros _. eexists _, cs.
  cbn [set_session_file session_file history cookies user_agent].
  split; [reflexivity|]. split; [reflexivity|]. split; assumption.
Qed.

(** A [save_session] that fails writes no record: the file is what it was,
    or it was opened for writing and the dump failed, which leaves a file
    that cannot be unpickled. *)
Lemma save_session_failure (w : World) :
  fst (save_session w) = false ->
  session_file (snd (save_session w)) = session_file w
  \/ (session_file (snd (save_session w)) = Some None
      /\ file_ok (env w) (history (snd (save_session w))) OpenForWriting = true
      /\ file_ok (env w) (history (snd (save_session w))) Dump = false).
Proof.
  destruct (save_session_steps w)
    as [(cs & ts & ua & w3 & -> & Hfile & Henv & _)|(_ & Hkeep & _)]; [|now left].
  unfold write_session_file. rewrite Henv.
  destruct (file_ok _ _ OpenForWriting) eqn:Eo; cbn [negb fst snd].
  - destruct (file_ok _ _ Dump) eqn:Ed; cbn [negb fst snd]; [discriminate|].
    intros _. right. cbn [set_session_file session_file history].
    split; [reflexivity|]. split; assumption.
  - intros _. left. exact Hfile.
Qed.

(** **** C6 (as amended)
    In a fresh credential login, when the wait for the home indicators times
    out, no failure alert is found and the address is not the login address,
    [login] returns [True]; with [use_session] it then runs [save_session]
    and ignores its result.  When [save_session] succeeds the file holds a
    new record with the cookies just read; when it fails [login] still
    returns [True] and no record has been written: the file is what it was,
    or a failed dump has left it unreadable. *)
Theorem login_unclear_state_accepted
        (username password : string) (use_session : bool) (u : string) (e : exn)
        (w w0 w1 w2 w3 w4 : World) :
  (if use_session then load_session else ret false) w = (false, w0) ->
  submit_credentials username password w0 = (Ok tt, w1) ->
  perform (WaitAny (seconds 15) home_indicators) w1 = (Raise TimeoutException, w2) ->
  perform (FindElement (ID, "slfErrorAlert")) w2 = (Raise e, w3) ->
  perform CurrentUrl w3 = (Ok u, w4) ->
  str_in "accounts/login" u = false ->
  login username password use_session w
  = (true, if use_session then snd (save_session w4) else w4)
  /\ (use_session = true ->
      fst (save_session w4) = true ->
      exists d cs,
        session_file (snd (login username password use_session w)) = Some (Some d)
        /\ cookies d = Some cs
        /\ In (EDriver GetCookies (Ok cs))
              (history (snd (login username password use_session w))))
  /\ (use_session = true ->
      fst (save_session w4) = false ->
      session_file (snd (login username password use_session w)) = session_file w4
      \/ session_file (snd (login username password use_session w)) = Some None).
Proof.
  intros Hrestore Hsubmit Hwait Halert Hurl Hmarker.
  assert (Hlogin : login username password use_session w
                   = (true, if use_session then snd (save_session w4) else w4)).
  { unfold login, bind. rewrite Hrestore.
    unfold login_fresh, bind_ok, bind. rewrite Hsubmit, Hwait.
    unfold login_after_timeout, bind_ok, bind. rewrite Halert, Hurl, Hmarker.
    unfold save_if, bind. destruct use_session; [|reflexivity].
    destruct (save_session w4) as [saved w5]. reflexivity. }
  split; [exact Hlogin|]. split.
  - intros -> Hsaved. rewrite Hlogin. cbn [snd].
    destruct (save_session_persists w4 Hsaved) as (d & cs & Hfile & Hcs & Hin & _).
    now exists d, cs.
  - intros -> Hfailed. rewrite Hlogin. cbn [snd].
    destruct (save_session_failure w4 Hfailed) as [H|[H _]]; [now left | now right].
Qed.

Lemma login_unclear_state_accepted_witness :
  fst (login "me" "secret" true Scenarios.unclear_start) = true
  /\ session_file (snd (login "me" "secret" true Scenarios.unclear_start))
     = Some (Some {| cookies := Some ["sessionid=new"];
                     saved_at := "2024-01-01T00:00:00";
                     user_agent := "Mozilla/5.0" |})
  /\ login "me" "secret" false Scenarios.unclear_start = (true, Scenarios.unclear_located).
Proof.
  assert (Hon : login "me" "secret" true Scenarios.unclear_start
                = (true, snd (save_session Scenarios.unclear_located))).
  { apply (login_unclear_state_accepted "me" "secret" true
             "https://www.instagram.com/accounts/onetap/" WebDriverException
             Scenarios.unclear_start Scenarios.unclear_start Scenarios.unclear_submitted Scenarios.unclear_waited
             Scenarios.unclear_checked Scenarios.unclear_located);
      vm_compute; reflexivity. }
  assert (Hoff : login "me" "secret" false Scenarios.unclear_start = (true, Scenarios.unclear_located)).
  { apply (login_unclear_state_accepted "me" "secret" false
             "https://www.instagram.com/accounts/onetap/" WebDriverException
             Scenarios.unclear_start Scenarios.unclear_start Scenarios.unclear_submitted Scenarios.unclear_waited
             Scenarios.unclear_checked Scenarios.unclear_located);
      vm_compute; reflexivity. }
  split; [|split].
  - rewrite Hon. reflexivity.
  - rewrite Hon. vm_compute. reflexivity.
  - exact Hoff.
Defined.

(** The claim as first stated promises a new session record whenever
    [use_session] is set.  On a site in the same unclear state whose browser
    refuses to hand out its cookies, every condition of the claim holds and
    [login] returns [True], yet there is no session file afterwards:
    [login] does not look at what [save_session] returns. *)
Lemma login_accepted_without_record :
  (if true then load_session else ret false) Scenarios.refused_start
  = (false, Scenarios.refused_start)
  /\ submit_credentials "me" "secret" Scenarios.refused_start
     = (Ok tt, Scenarios.refused_submitted)
  /\ perform (WaitAny (seconds 15) home_indicators) Scenarios.refused_submitted
     = (Raise TimeoutException, Scenarios.refused_waited)
  /\ perform (FindElement (ID, "slfErrorAlert")) Scenarios.refused_waited
     = (Raise WebDriverException, Scenarios.refused_checked)
  /\ perform CurrentUrl Scenarios.refused_checked
     = (Ok "https://www.instagram.com/accounts/onetap/", Scenarios.refused_located)
  /\ str_in "accounts/login" "https://www.instagram.com/accounts/onetap/" = false
  /\ fst (login "me" "secret" true Scenarios.refused_start) = true
  /\ session_file (snd (login "me" "secret" true Scenarios.refused_start)) = None.
Proof. repeat split; vm_compute; reflexivity. Qed.

End SessionFacts.

(* ------------------------------------------------------------------------- *)
(** ** The multi-profile orchestrator *)
(* ------------------------------------------------------------------------- *)

Module OrchestratorFacts.

Import PyStr Browser Scraper Props Effects ScraperEffects.
Local Open Scope scraper_scope.







End OrchestratorFacts.

(* ------------------------------------------------------------------------- *)
(** ** Rounding to hundredths *)
(* ------------------------------------------------------------------------- *)

Module RateFacts.

Import QArith Qround Qabs Lqa Floats Rate.
Local Open Scope Q_scope.
Local Set Warnings "-inexact-float".

Lemma round_half_even_near (q : Q) :
  - (1 # 2) <= q - inject_Z (round_half_even q) <= 1 # 2.
Proof.
  unfold round_half_even.
  pose proof (Qfloor_le q) as Hlo. pose proof (Qlt_floor q) as Hhi.
  rewrite inject_Z_plus in Hhi. change (inject_Z 1) with 1 in Hhi.
  destruct (Qcompare_spec (q - inject_Z (Qfloor q)) (1 # 2)) as [E|E|E].
  - destruct (Z.even (Qfloor q)).
    + lra.
    + rewrite inject_Z_plus. change (inject_Z 1) with 1. lra.
  - lra.
  - rewrite inject_Z_plus. change (inject_Z 1) with 1. lra.
Qed.

Lemma hundredth_as_fraction (k : Z) : k # 100 == inject_Z k * (1 # 100).
Proof. unfold Qeq, Qmult, inject_Z. simpl. lia. Qed.

(** [round2] keeps the hundredth nearest to the value of its argument. *)
Lemma round2_near (x : float) (q : Q) :
  exact_value x = Some q ->
  exists k : Z,
    hundredths x = Some k
    /\ round2 x = PrimFloat.div (float_of_Z k) 100%float
    /\ Qabs (q - (k # 100)) <= 1 # 200.
Proof.
  intros Hq. exists (round_half_even (q * 100)).
  unfold round2, hundredths. rewrite Hq. cbn [option_map].
  split; [reflexivity|]. split; [reflexivity|].
  apply Qabs_Qle_condition. rewrite hundredth_as_fraction.
  pose proof (round_half_even_near (q * 100)) as H.
  change (inject_Z 100) with 100 in *.
  set (k := inject_Z (round_half_even (q * 100))) in *. clearbody k.
  split; lra.
Qed.

Lemma rounds_ratio_table :
  forallb (fun t => forallb (fun s => rounds_ratio s t) (seq 0 (S t))) (seq 1 100)
  = true.
Proof. vm_compute. reflexivity. Qed.

(** For every batch of up to a hundred profiles, the hundredth kept is
    within half a hundredth of the exact ratio successes / total * 100: the
    error of the float division and multiplication never moves it. *)
Lemma rounds_ratio_upto_100 (s t : nat) :
  (1 <= t <= 100)%nat -> (s <= t)%nat ->
  exists k : Z,
    success_rate_of s t = PrimFloat.div (float_of_Z k) 100%float
    /\ nearest_hundredth k s t = true.
Proof.
  intros Ht Hs. pose proof rounds_ratio_table as H.
  rewrite forallb_forall in H. specialize (H t).
  rewrite forallb_forall in H. specialize (H (ltac:(apply in_seq; lia)) s).
  specialize (H (ltac:(apply in_seq; lia))).
  unfold rounds_ratio in H. unfold success_rate_of, round2.
  destruct (hundredths (percentage s t)) as [k|]; [|discriminate].
  now exists k.
Qed.

Lemma success_rate_of_zero_total (s : nat) : success_rate_of s 0 = 0%float.
Proof. vm_compute. reflexivity. Qed.

Lemma success_rate_of_examples :
  success_rate_of 2 5 = 40%float
  /\ success_rate_of 1 3 = 33.33%float
  /\ success_rate_of 2 3 = 66.67%float
  /\ success_rate_of 0 0 = 0%float.
Proof. repeat split; vm_compute; reflexivity. Qed.

(** An exact tie of the ratio, 23 / 160 * 100 = 14.375: the float computed
    lies just below it, and 14.37 is kept. *)
Lemma success_rate_of_tie :
  percentage 23 160 = 14.374999999999998%float
  /\ success_rate_of 23 160 = 14.37%float.
Proof. split; vm_compute; reflexivity. Qed.

End RateFacts.

(* ------------------------------------------------------------------------- *)
(** ** The success rate of a batch *)
(* ------------------------------------------------------------------------- *)

Module SuccessRateFacts.

Import QArith Qabs Floats Browser Scraper Props Rate RateFacts.
Local Set Warnings "-inexact-float".

(** The counters of the loop: one entry per username, and no more successes
    than entries. *)
Lemma profiles_loop_counts (total i : nat) (usernames : list string) (np nr : Z)
      (ct : string) (all_results : Running) (w : World) :
  let out := fst (profiles_loop total i usernames np nr ct all_results w) in
  length (profiles out) = (length (profiles all_results) + length usernames)%nat
  /\ (successful_profiles out
      <= successful_profiles all_results + length usernames)%nat.
Proof.
  cbv zeta. revert i all_results w.
  induction usernames as [|name rest IH]; intros i all_results w.
  - cbn. lia.
  - cbn [profiles_loop]. unfold bind, time.
    destruct (scrape_profile_content name np nr ct w) as [pd w1].
    set (acc := record_profile _ all_results).
    destruct ((if Nat.ltb i total then sleep profile_delay else ret tt) w1)
      as [u w2].
    destruct (IH (i + 1)%nat acc w2) as [Hlen Hsucc].
    rewrite Hlen. split.
    + subst acc. cbn [record_profile profiles length]. rewrite last_length. lia.
    + etransitivity; [exact Hsucc|]. subst acc. cbn [record_profile successful_profiles].
      destruct (success _); cbn [length]; lia.
Qed.

Lemma batch_summary_rate (usernames : list string) (np nr : Z) (ct : string)
      (w : World) :
  let summary := batch_summary (fst (scrape_multiple_profiles usernames np nr ct w)) in
  total_profiles summary = length usernames
  /\ (batch_successful_profiles summary <= total_profiles summary)%nat
  /\ success_rate summary
     = success_rate_of (batch_successful_profiles summary) (total_profiles summary).
Proof.
  cbv zeta. unfold scrape_multiple_profiles, bind, now, ret.
  pose proof (profiles_loop_counts (length usernames) 1 usernames np nr ct
                {| profiles := []; successful_profiles := 0;
                   total_posts := 0; total_reels := 0 |} w) as [_ Hsucc].
  cbv zeta in Hsucc.
  destruct (profiles_loop _ _ _ _ _ _ _ _) as [all_results w'].
  cbn [fst batch_summary total_profiles batch_successful_profiles success_rate] in *.
  split; [reflexivity|]. split; [exact Hsucc | reflexivity].
Qed.

(** **** C9 (as amended)
    The success rate of the batch summary is [0.0] when there is no
    profile, and no division takes place.  Otherwise it is the float
    successes / total * 100 rounded to two decimals by [round]: the float of
    the hundredth nearest to the value computed, which, for every batch of up
    to a hundred profiles, is a hundredth nearest to the exact ratio
    (2 of 5 gives 40.0, 2 of 3 gives 66.67). *)
Theorem success_rate_rounded (usernames : list string) (np nr : Z) (ct : string)
        (w : World) :
  let summary := batch_summary (fst (scrape_multiple_profiles usernames np nr ct w)) in
  let s := batch_successful_profiles summary in
  let t := total_profiles summary in
  t = length usernames
  /\ (s <= t)%nat
  /\ success_rate summary = round2 (percentage s t)
  /\ (t = 0%nat -> success_rate summary = 0%float)
  /\ (forall q,
         exact_value (percentage s t) = Some q ->
         exists k : Z,
           success_rate summary = PrimFloat.div (float_of_Z k) 100%float
           /\ (Qabs (q - (k # 100)) <= 1 # 200)%Q)
  /\ ((1 <= t <= 100)%nat ->
      exists k : Z,
        success_rate summary = PrimFloat.div (float_of_Z k) 100%float
        /\ nearest_hundredth k s t = true).
Proof.
  destruct (batch_summary_rate usernames np nr ct w) as (Htotal & Hle & Hrate).
  cbv zeta in *. split; [exact Htotal|]. split; [exact Hle|].
  rewrite Hrate. split; [reflexivity|]. split; [|split].
  - intros ->. apply success_rate_of_zero_total.
  - intros q Hq. destruct (round2_near _ q Hq) as (k & _ & Hk & Hnear).
    exists k. split; [exact Hk | exact Hnear].
  - intros Ht. now apply rounds_ratio_upto_100.
Qed.

Lemma success_rate_rounded_witness :
  exists k : Z,
    success_rate Scenarios.three_profiles_summary
    = PrimFloat.div (float_of_Z k) 100%float
    /\ nearest_hundredth k
         (batch_successful_profiles Scenarios.three_profiles_summary)
         (total_profiles Scenarios.three_profiles_summary)
       = true.
Proof.
  assert (Hsize : (1 <= total_profiles Scenarios.three_profiles_summary <= 100)%nat)
    by (vm_compute; lia).
  exact (proj2 (proj2 (proj2 (proj2 (proj2
           (success_rate_rounded ["alice"; "bob"; "carol"] 4 2 "both"
                                 Scenarios.three_start))))) Hsize).
Defined.

(** Two profiles of three succeed: the summary holds 66.67, which is
    neither the float 2 / 3 * 100 nor the ratio it stands for. *)
Lemma success_rate_two_of_three :
  batch_successful_profiles Scenarios.three_profiles_summary = 2%nat
  /\ total_profiles Scenarios.three_profiles_summary = 3%nat
  /\ success_rate Scenarios.three_profiles_summary = 66.67%float
  /\ percentage 2 3 = 66.666666666666657%float
  /\ success_rate Scenarios.three_profiles_summary <> percentage 2 3
  /\ hundredths (success_rate Scenarios.three_profiles_summary) = Some 6667%Z
  /\ ~ (6667 # 100 == inject_Z 2 / inject_Z 3 * 100)%Q.
Proof.
  split; [vm_compute; reflexivity|]. split; [vm_compute; reflexivity|].
  split; [vm_compute; reflexivity|]. split; [vm_compute; reflexivity|].
  split; [|split; [vm_compute; reflexivity | vm_compute; discriminate]].
  intros H. apply (f_equal Prim2SF) in H. vm_compute in H. discriminate H.
Qed.

End SuccessRateFacts.

(* ------------------------------------------------------------------------- *)
(** ** Canonical references *)
(* ------------------------------------------------------------------------- *)

Module UrlCanon.

Import PyStr PyStrFacts Url Props UrlFacts Shapes.
Local Open Scope string_scope.
Local Arguments prefix : simpl never.

(** *** Where a marker can begin in [u ++ r] *)

Lemma str_before_app_late (m x y : string) :
  late m x (x ++ y) -> str_before m (x ++ y) = x ++ str_before m y.
Proof.
  unfold late. induction x as [|c x IH]; intros H; [reflexivity|].
  simpl append in *. cbn [str_find str_before] in *.
  destruct (prefix m (String c (x ++ y))); [simpl in H; lia|].
  f_equal. apply IH.
  destruct (str_find m (x ++ y)) as [j|]; [simpl in H; lia | exact I].
Qed.

Lemma has_char_cons (c x : ascii) (s : string) :
  has_char c s = true -> has_char c (String x s) = true.
Proof. intros H. cbn [has_char]. rewrite H. apply orb_true_r. Qed.

(** A marker that begins inside [String x s] and is a prefix of
    [String x s ++ String c r] either ends inside [String x s] or has [c]
    after its first character. *)
Lemma prefix_straddle (c : ascii) (r m : string) :
  forall x s,
    prefix m (String x (s ++ String c r)) = true ->
    prefix m (String x s) = true \/ has_char c (tail_of m) = true.
Proof.
  induction m as [|a m IH]; intros x s H; [left; apply prefix_nil|].
  rewrite prefix_cons in H. destruct (ascii_dec a x) as [->|]; [|discriminate].
  cbn [tail_of]. destruct s as [|y s].
  - simpl append in H. destruct m as [|b m].
    + left. rewrite prefix_cons. destruct (ascii_dec x x); [reflexivity | congruence].
    + right. rewrite prefix_cons in H.
      destruct (ascii_dec b c) as [->|]; [|discriminate].
      cbn [has_char]. now rewrite Ascii.eqb_refl.
  - simpl append in H. destruct (IH y s H) as [Hin|Htail].
    + left. rewrite prefix_cons. destruct (ascii_dec x x); [exact Hin | congruence].
    + right. destruct m as [|b m]; [discriminate Htail|].
      cbn [tail_of] in Htail. now apply has_char_cons.
Qed.

Lemma late_cons (m : string) (x : ascii) (u r : string) :
  prefix m (String x (u ++ r)) = false ->
  late m u (u ++ r) -> late m (String x u) (String x u ++ r).
Proof.
  unfold late. intros Hp H. simpl append. cbn [str_find]. rewrite Hp.
  destruct (str_find m (u ++ r)) as [j|]; simpl in *; [lia | exact I].
Qed.

(** No marker absent from [u] begins inside [u] when what follows is empty
    or begins with a character the marker does not have after its first. *)
Lemma late_of_clean (m u r : string) :
  str_in m u = false ->
  match r with
  | EmptyString => True
  | String c _ => has_char c (tail_of m) = false
  end ->
  late m u (u ++ r).
Proof.
  intros Hu Hr. induction u as [|x u IH].
  - unfold late. destruct (str_find m (EmptyString ++ r)); [simpl; lia | exact I].
  - rewrite str_in_cons in Hu. apply orb_false_iff in Hu as [Hp Hu].
    apply late_cons; [|now apply IH].
    destruct r as [|c r].
    + now rewrite append_nil_r.
    + destruct (prefix m (String x (u ++ String c r))) eqn:E; [|reflexivity].
      destruct (prefix_straddle c r m x u E); congruence.
Qed.

Lemma clash_not_prefix (m s r : string) :
  clash m s = true -> prefix m (s ++ r) = false.
Proof.
  revert s; induction m as [|a m IH]; intros s H; [discriminate H|].
  destruct s as [|b s]; [discriminate H|].
  simpl append. rewrite prefix_cons. cbn [clash] in H.
  destruct (ascii_dec a b) as [->|Hab].
  - rewrite Ascii.eqb_refl in H. now apply IH.
  - reflexivity.
Qed.

Lemma late_of_clash (m u r : string) :
  clash_everywhere m u = true -> late m u (u ++ r).
Proof.
  induction u as [|x u IH]; intros H.
  - unfold late. destruct (str_find m (EmptyString ++ r)); [simpl; lia | exact I].
  - cbn [clash_everywhere] in H. apply andb_true_iff in H as [Hc H].
    apply late_cons; [|now apply IH].
    exact (clash_not_prefix m (String x u) r Hc).
Qed.

(** *** One cutting step *)

Lemma marker_tail_clean (m : string) (c : ascii) :
  In m stripped_markers -> c = "/"%char \/ c = "?"%char ->
  has_char c (tail_of m) = false.
Proof.
  intros [<-|[<-|[<-|[<-|[]]]]] [->| ->]; reflexivity.
Qed.

Lemma str_before_starts (m r : string) :
  starts_a_marker r -> starts_a_marker (str_before m r).
Proof.
  destruct r as [|c r]; intros H.
  - cbn [str_before]. now destruct (prefix m EmptyString).
  - cbn [str_before]. destruct (prefix m (String c r)); [exact I | exact H].
Qed.

(** Cutting at a marker that [u] does not contain leaves [u] alone. *)
Lemma split_head_after_clean (m u r : string) :
  In m stripped_markers -> str_in m u = false -> starts_a_marker r ->
  split_head m (u ++ r) = u ++ str_before m r.
Proof.
  intros Hm Hu Hr. rewrite split_head_before. apply str_before_app_late.
  apply late_of_clean; [exact Hu|].
  destruct r as [|c r]; [exact I|]. now apply marker_tail_clean.
Qed.

Lemma str_before_own (m t : string) : str_before m (m ++ t) = EmptyString.
Proof.
  destruct (m ++ t) as [|c s] eqn:E.
  - cbn [str_before]. now destruct (prefix m EmptyString).
  - cbn [str_before]. rewrite <- E, prefix_app. reflexivity.
Qed.

Lemma str_before_empty (m : string) : str_before m EmptyString = EmptyString.
Proof. cbn [str_before]. now destruct (prefix m EmptyString). Qed.

(** Cutting [m ++ t] at another marker that clashes with [m] keeps [m]. *)
Lemma str_before_other (mk m t : string) :
  clash_everywhere mk m = true -> str_before mk (m ++ t) = m ++ str_before mk t.
Proof. intros H. apply str_before_app_late. now apply late_of_clash. Qed.

(** The four cuts, applied to a marker followed by anything, leave
    nothing. *)
Lemma cuts_remove_marker (m tail : string) :
  In m stripped_markers ->
  str_before "?"
    (str_before "/tagged"
       (str_before "/comments"
          (str_before "/liked_by" (m ++ tail))))
  = EmptyString.
Proof.
  intros [<-|[<-|[<-|[<-|[]]]]].
  - rewrite str_before_own. now rewrite !str_before_empty.
  - rewrite (str_before_other "/liked_by") by reflexivity.
    rewrite str_before_own. now rewrite !str_before_empty.
  - rewrite (str_before_other "/liked_by") by reflexivity.
    rewrite (str_before_other "/comments") by reflexivity.
    rewrite str_before_own. now rewrite !str_before_empty.
  - rewrite (str_before_other "/liked_by") by reflexivity.
    rewrite (str_before_other "/comments") by reflexivity.
    rewrite (str_before_other "/tagged") by reflexivity.
    apply str_before_own.
Qed.

Lemma marker_starts (m tail : string) :
  In m stripped_markers -> starts_a_marker (m ++ tail).
Proof. intros [<-|[<-|[<-|[<-|[]]]]]; simpl; tauto. Qed.

(** The cleaning step on a reference without markers followed by a marker
    and anything else gives the reference back. *)
Lemma cuts_strip_suffix (u m tail : string) :
  marker_free u -> In m stripped_markers ->
  split_head "?"
    (split_head "/tagged"
       (split_head "/comments"
          (split_head "/liked_by" (u ++ m ++ tail))))
  = u.
Proof.
  intros Hfree Hm.
  pose proof (marker_starts m tail Hm) as H0.
  rewrite (split_head_after_clean "/liked_by") by
      (try apply Hfree; simpl; tauto || assumption).
  pose proof (str_before_starts "/liked_by" _ H0) as H1.
  rewrite (split_head_after_clean "/comments") by
      (try apply Hfree; simpl; tauto || assumption).
  pose proof (str_before_starts "/comments" _ H1) as H2.
  rewrite (split_head_after_clean "/tagged") by
      (try apply Hfree; simpl; tauto || assumption).
  pose proof (str_before_starts "/tagged" _ H2) as H3.
  rewrite (split_head_after_clean "?") by
      (try apply Hfree; simpl; tauto || assumption).
  rewrite cuts_remove_marker by assumption. apply append_nil_r.
Qed.

Lemma normalize_url_without_suffix (u : string) :
  marker_free u ->
  normalize_url u = if str_endswith "/" u then u else u ++ "/".
Proof.
  intros Hfree. unfold normalize_url.
  rewrite (split_head_id "/liked_by"), (split_head_id "/comments"),
    (split_head_id "/tagged"), (split_head_id "?")
    by (apply Hfree; simpl; tauto).
  now destruct (str_endswith "/" u).
Qed.

Lemma normalize_url_after_suffix (u m tail : string) :
  marker_free u -> In m stripped_markers ->
  normalize_url (u ++ m ++ tail) = normalize_url u.
Proof.
  intros Hfree Hm. rewrite (normalize_url_without_suffix u Hfree).
  unfold normalize_url. rewrite cuts_strip_suffix by assumption.
  now destruct (str_endswith "/" u).
Qed.

End UrlCanon.

(* ------------------------------------------------------------------------- *)
(** ** Properties of the URL helpers *)
(* ------------------------------------------------------------------------- *)

Module UrlProperties.

Import PyStr PyStrFacts Url Props UrlFacts Shapes UrlCanon.
Local Open Scope string_scope.
Local Arguments prefix : simpl never.

(** **** X1
    A normalized reference ends with a slash and contains none of
    ["/liked_by"], ["/comments"], ["/tagged"], ["?"]. *)
Theorem normalize_url_canonical (u : string) :
  str_endswith "/" (normalize_url u) = true
  /\ str_in "/liked_by" (normalize_url u) = false
  /\ str_in "/comments" (normalize_url u) = false
  /\ str_in "/tagged" (normalize_url u) = false
  /\ str_in "?" (normalize_url u) = false.
Proof.
  pose proof (normalize_url_marker_free u) as H.
  split; [apply normalize_url_endswith_slash|].
  repeat split; apply H; simpl; tauto.
Qed.

(** **** X2
    References that differ only by a stripped suffix have the same normal
    form: for a reference [u] without markers, [u] followed by a marker and
    anything else normalizes to what [u] normalizes to, which is [u] with
    its trailing slash. *)
Theorem normalize_url_strips_suffix (u m tail : string) :
  marker_free u -> In m stripped_markers ->
  normalize_url (u ++ m ++ tail) = normalize_url u
  /\ normalize_url u = if str_endswith "/" u then u else u ++ "/".
Proof.
  intros Hfree Hm. split.
  - now apply normalize_url_after_suffix.
  - now apply normalize_url_without_suffix.
Qed.

Lemma normalize_url_strips_suffix_witness :
  normalize_url "https://www.instagram.com/p/Cabc123/?igsh=MzRlODBiNWFlZA=="
  = normalize_url "https://www.instagram.com/p/Cabc123/"
  /\ normalize_url "https://www.instagram.com/p/Cabc123/liked_by/?hl=en"
     = "https://www.instagram.com/p/Cabc123/".
Proof.
  assert (Hfree : marker_free "https://www.instagram.com/p/Cabc123/")
    by (intros m [<-|[<-|[<-|[<-|[]]]]]; reflexivity).
  assert (Hfree' : marker_free "https://www.instagram.com/p/Cabc123")
    by (intros m [<-|[<-|[<-|[<-|[]]]]]; reflexivity).
  split.
  - exact (proj1 (normalize_url_strips_suffix
                    "https://www.instagram.com/p/Cabc123/" "?"
                    "igsh=MzRlODBiNWFlZA==" Hfree
                    (or_intror (or_intror (or_intror (or_introl eq_refl)))))).
  - destruct (normalize_url_strips_suffix
                "https://www.instagram.com/p/Cabc123" "/liked_by" "/?hl=en"
                Hfree' (or_introl eq_refl)) as [H1 H2].
    simpl append in H1. rewrite H1, H2. reflexivity.
Defined.

(** **** X3
    The short-code returned never contains a slash, whatever the reference;
    and when the reference contains ["/p/"] or ["/reel/"] the index [1] of
    the split exists, so the [except] clause is not what answers. *)
Theorem extract_content_id_no_slash (u : string) :
  str_in "/" (extract_content_id u) = false
  /\ (str_in "/p/" u = true -> code_after "/p/" u <> None)
  /\ (str_in "/reel/" u = true -> code_after "/reel/" u <> None).
Proof.
  assert (Hcode : forall m v, m <> EmptyString ->
             match code_after m v with
             | Some id => str_in "/" id = false
             | None => str_in m v = false
             end).
  { intros m v Hm. unfold code_after.
    destruct (str_in m v) eqn:E.
    - destruct (str_in_exists _ _ E) as (a & b & ->).
      assert (exists pre rest, a ++ m ++ b = pre ++ m ++ rest
                /\ str_find m (pre ++ m ++ rest) = Some (String.length pre))
        as (pre & rest & -> & Hfind).
      { clear E. induction a as [|c a IH].
        - exists EmptyString, b. split; [reflexivity|].
          simpl append. destruct (m ++ b) as [|x s] eqn:Eq.
          + destruct m; [congruence | discriminate].
          + cbn [str_find]. rewrite <- Eq, prefix_app. reflexivity.
        - destruct (prefix m (String c (a ++ m ++ b))) eqn:Ep.
          + destruct (prefix_exists _ _ Ep) as [t Ht].
            exists EmptyString, t. split; [exact Ht|].
            simpl append. rewrite <- Ht. cbn [str_find]. now rewrite Ep.
          + destruct IH as (pre & rest & Heq & Hfind).
            exists (String c pre), rest. simpl append. rewrite <- Heq.
            split; [reflexivity|]. cbn [str_find]. rewrite Ep.
            rewrite Heq, Hfind. reflexivity. }
      rewrite nth_error_split_1 by assumption.
      rewrite nth_error_split_0. apply str_before_clean. discriminate.
    - destruct (nth_error (str_split m v) 1) as [piece|]; [|reflexivity].
      rewrite nth_error_split_0. apply str_before_clean. discriminate. }
  split; [|split].
  - unfold extract_content_id.
    destruct (str_in "/p/" u).
    + pose proof (Hcode "/p/" u ltac:(discriminate)) as H.
      destruct (code_after "/p/" u); [exact H | reflexivity].
    + destruct (str_in "/reel/" u); [|reflexivity].
      pose proof (Hcode "/reel/" u ltac:(discriminate)) as H.
      destruct (code_after "/reel/" u); [exact H | reflexivity].
  - intros Hin Hnone. pose proof (Hcode "/p/" u ltac:(discriminate)) as H.
    rewrite Hnone in H. congruence.
  - intros Hin Hnone. pose proof (Hcode "/reel/" u ltac:(discriminate)) as H.
    rewrite Hnone in H. congruence.
Qed.

Lemma extract_content_id_no_slash_witness :
  code_after "/p/" "https://www.instagram.com/p/" <> None
  /\ extract_content_id "https://www.instagram.com/p/" = EmptyString.
Proof.
  split; [|reflexivity].
  exact (proj1 (proj2 (extract_content_id_no_slash "https://www.instagram.com/p/"))
               eq_refl).
Defined.

End UrlProperties.

(* ------------------------------------------------------------------------- *)
(** ** More on the modal navigation engine *)
(* ------------------------------------------------------------------------- *)

Module ModalProperties.

Import PyStr PyStrFacts Url Props UrlFacts Browser Scraper Effects ScraperEffects
       ModalFacts UrlCanon Reads.
Local Open Scope scraper_scope.

(** *** What the records hold *)

Lemma collect_current_post_derived (posts_data : list ContentRecord) (w : World) :
  Forall derived_post posts_data ->
  Forall derived_post (fst (collect_current_post posts_data w)).
Proof.
  intros Hall.
  destruct (collect_current_post_cases posts_data w)
    as [_ [->|(u & ts & _ & _ & _ & ->)]]; [exact Hall|].
  apply Forall_app. split; [exact Hall|].
  constructor; [|constructor]. split; reflexivity.
Qed.

Lemma navigate_loop_derived (fuel : nat) (n m a : Z)
      (posts_data : list ContentRecord) (w : World) :
  Forall derived_post posts_data ->
  Forall derived_post (fst (navigate_loop fuel n m a posts_data w)).
Proof.
  revert a posts_data w; induction fuel as [|fuel IH]; intros a posts_data w Hall;
    cbn [navigate_loop]; [exact Hall|].
  destruct ((Z.of_nat (length posts_data) <? n)%Z && (a <? m)%Z); [|exact Hall].
  apply (collect_current_post_derived _ w) in Hall.
  rewrite <- (arrows_iteration_posts n) in Hall.
  unfold bind. destruct (arrows_iteration n posts_data w) as [[posts' continue] w1].
  cbn [fst] in Hall. destruct continue; [now apply IH | exact Hall].
Qed.

(** **** X4
    Every record returned by the modal traversal is a post record whose
    [content_id] is the short-code extracted from its own [content_url]. *)
Theorem modal_records_derived (username : string) (n : Z) (w : World) :
  Forall (fun r => content_id r = extract_content_id (content_url r)
                   /\ content_type r = "post")
         (fst (scrape_posts_via_modal_navigation username n w)).
Proof.
  rewrite scrape_posts_unfold.
  destruct (_click_first_post w) as [[|] w1]; [|constructor].
  destruct (sleep (Uniform 2000 3000) w1) as [u w2].
  pose proof (navigate_loop_derived (Z.to_nat (n + 2)) n (n + 2) 0 [] w2
               (Forall_nil _)) as H.
  unfold _navigate_posts_via_arrows.
  destruct (navigate_loop (Z.to_nat (n + 2)) n (n + 2) 0 [] w2) as [posts_data w3].
  destruct (_close_modal w3) as [closed w4]. exact H.
Qed.

(** *** A requested count of zero or less *)

(** **** X5
    For a requested count of zero or less the walk returns the empty list
    without a single call on the driver, and the whole traversal returns the
    empty list. *)
Theorem modal_traversal_nothing_requested (username : string) (n : Z) (w : World) :
  (n <= 0)%Z ->
  _navigate_posts_via_arrows n w = ([], w)
  /\ fst (scrape_posts_via_modal_navigation username n w) = [].
Proof.
  intros Hn.
  assert (Hwalk : forall w0, _navigate_posts_via_arrows n w0 = ([], w0)).
  { intros w0. unfold _navigate_posts_via_arrows.
    destruct (Z.to_nat (n + 2)) as [|fuel]; [reflexivity|].
    cbn [navigate_loop length]. destruct (Z.of_nat 0 <? n)%Z eqn:E; [|reflexivity].
    apply Z.ltb_lt in E. simpl in E. lia. }
  split; [apply Hwalk|].
  rewrite scrape_posts_unfold.
  destruct (_click_first_post w) as [[|] w1]; [|reflexivity].
  destruct (sleep (Uniform 2000 3000) w1) as [u w2].
  rewrite Hwalk. destruct (_close_modal w2) as [closed w4]. reflexivity.
Qed.

Lemma modal_traversal_nothing_requested_witness :
  fst (scrape_posts_via_modal_navigation "natgeo" 0
         (Scenarios.start (Scenarios.viewer Scenarios.three_posts) None)) = [].
Proof.
  exact (proj2 (modal_traversal_nothing_requested "natgeo" 0
                  (Scenarios.start (Scenarios.viewer Scenarios.three_posts) None)
                  (Z.le_refl 0))).
Defined.

(** *** The number of passes *)

Lemma reads_app (h h' : History) : reads (h ++ h') = reads h + reads h'.
Proof. unfold reads. now rewrite filter_app, length_app. Qed.

Lemma reads_none (h : History) : Forall not_reading h -> reads h = 0.
Proof.
  unfold reads. induction 1 as [|ev h Hev _ IH]; [reflexivity|].
  cbn [filter]. now rewrite Hev.
Qed.

Lemma go_to_next_post_not_reading : appends not_reading _go_to_next_post.
Proof.
  unfold _go_to_next_post, next_button_selectors. cbn [click_first_match].
  unfold click_strategy, keyboard_strategy, script_strategy.
  repeat first
    [ apply appends_ret
    | apply appends_perform; intro; reflexivity
    | apply appends_bind_ok; [|intro]
    | apply appends_bind; [|intro]
    | match goal with
      | |- appends _ (match ?x with _ => _ end) => destruct x
      end ].
Qed.

(** One pass reads the address exactly once. *)
Lemma arrows_iteration_reads (n : Z) (posts_data : list ContentRecord) (w : World) :
  exists h,
    history (snd (arrows_iteration n posts_data w)) = history w ++ h
    /\ reads h = 1.
Proof.
  unfold arrows_iteration, bind.
  destruct (collect_current_post_cases posts_data w) as [Hw _].
  destruct (collect_current_post posts_data w) as [posts' w1]. cbn [snd] in Hw.
  subst w1. rewrite perform_eq. cbn [snd].
  set (ev := EDriver CurrentUrl (fst (perform CurrentUrl w))).
  destruct (Z.of_nat (length posts') >=? n)%Z.
  - exists [ev]. split; reflexivity.
  - destruct (go_to_next_post_not_reading (log ev w)) as (h & Hh & Hquiet).
    destruct (_go_to_next_post (log ev w)) as [[|] w2];
      cbn [fst snd negb sleep ret log history] in *.
    + exists (ev :: h ++ [ESleep (Uniform 1500 2500)]). split.
      * rewrite Hh, <- !app_assoc. reflexivity.
      * change (ev :: h ++ [ESleep (Uniform 1500 2500)])
          with ([ev] ++ h ++ [ESleep (Uniform 1500 2500)]).
        rewrite !reads_app, (reads_none h Hquiet). reflexivity.
    + exists (ev :: h). split.
      * rewrite Hh, <- app_assoc. reflexivity.
      * change (ev :: h) with ([ev] ++ h).
        rewrite reads_app, (reads_none h Hquiet). reflexivity.
Qed.

Lemma navigate_loop_reads (fuel : nat) (n m a : Z)
      (posts_data : list ContentRecord) (w : World) :
  exists h,
    history (snd (navigate_loop fuel n m a posts_data w)) = history w ++ h
    /\ reads h <= Z.to_nat (m - a).
Proof.
  revert a posts_data w; induction fuel as [|fuel IH]; intros a posts_data w;
    cbn [navigate_loop].
  - exists []. split; [cbn; now rewrite app_nil_r | cbn; lia].
  - destruct ((Z.of_nat (length posts_data) <? n)%Z && (a <? m)%Z) eqn:E.
    2: { exists []. split; [cbn; now rewrite app_nil_r | cbn; lia]. }
    apply andb_true_iff in E as [_ E]. apply Z.ltb_lt in E.
    unfold bind. destruct (arrows_iteration_reads n posts_data w) as (h1 & Hh1 & Hr1).
    destruct (arrows_iteration n posts_data w) as [[posts' continue] w1].
    cbn [snd] in Hh1. destruct continue.
    + destruct (IH (a + 1)%Z posts' w1) as (h2 & Hh2 & Hr2).
      exists (h1 ++ h2). split.
      * now rewrite Hh2, Hh1, app_assoc.
      * rewrite reads_app. lia.
    + exists h1. split; [exact Hh1 | lia].
Qed.

(** **** X6
    The walk reads the address of the viewer at most [num_posts + 2] times,
    whatever the browser answers: a viewer that is stuck cannot hold it. *)
Theorem navigate_posts_bounded_reads (n : Z) (w : World) :
  exists h,
    history (snd (_navigate_posts_via_arrows n w)) = history w ++ h
    /\ reads h <= Z.to_nat (n + 2).
Proof.
  unfold _navigate_posts_via_arrows.
  destruct (navigate_loop_reads (Z.to_nat (n + 2)) n (n + 2) 0 [] w) as (h & Hh & Hr).
  exists h. split; [exact Hh|]. now rewrite Z.sub_0_r in Hr.
Qed.

(** *** One pass: new and known references *)

Lemma normalize_url_not_empty (u : string) : normalize_url u <> EmptyString.
Proof.
  intros H. pose proof (normalize_url_endswith_slash u) as E.
  rewrite H in E. discriminate E.
Qed.

Lemma is_new_url_spec (v : string) (posts_data : list ContentRecord) :
  v <> EmptyString ->
  is_new_url (Some v) posts_data = true <-> ~ In v (map content_url posts_data).
Proof.
  intros Hv. unfold is_new_url.
  apply String.eqb_neq in Hv. rewrite Hv. cbn [negb andb].
  rewrite negb_true_iff. split.
  - apply existsb_eqb_false.
  - intros Hnot. destruct (existsb (String.eqb v) (map content_url posts_data)) eqn:E;
      [|reflexivity].
    apply existsb_exists in E as (x & Hin & Hx). apply String.eqb_eq in Hx.
    subst x. contradiction.
Qed.

(** **** X7
    One collection step on an address that contains ["/p/"]: when its
    normal form is already the [content_url] of a collected record, the list
    is left as it is; otherwise one record is appended, with that normal
    form, its short-code and the next order.  So a post shown again, also
    with a stripped suffix added to its address, is not recorded twice. *)
Theorem collect_current_post_dedup
        (posts_data : list ContentRecord) (u : string) (w w1 : World) :
  perform CurrentUrl w = (Ok u, w1) ->
  str_in "/p/" u = true ->
  (In (normalize_url u) (map content_url posts_data) ->
   collect_current_post posts_data w = (posts_data, w1))
  /\ (~ In (normalize_url u) (map content_url posts_data) ->
      collect_current_post posts_data w
      = (posts_data
           ++ [post_record (normalize_url u) (datetime_now (env w1) (history w1))
                           (length posts_data + 1)],
         w1))
  /\ (forall u0 m tail,
         marker_free u0 -> In m stripped_markers ->
         u = (u0 ++ m ++ tail)%string ->
         In (normalize_url u0) (map content_url posts_data) ->
         collect_current_post posts_data w = (posts_data, w1)).
Proof.
  intros Hread Hp.
  assert (Hget : _get_current_modal_post_url w = (Some (normalize_url u), w1)).
  { unfold _get_current_modal_post_url, bind. rewrite Hread, Hp. reflexivity. }
  assert (Hknown : In (normalize_url u) (map content_url posts_data) ->
                   collect_current_post posts_data w = (posts_data, w1)).
  { intros Hin. unfold collect_current_post, bind. rewrite Hget.
    destruct (is_new_url (Some (normalize_url u)) posts_data) eqn:E; [|reflexivity].
    apply is_new_url_spec in E; [contradiction | apply normalize_url_not_empty]. }
  split; [exact Hknown|]. split.
  - intros Hnew. unfold collect_current_post, bind. rewrite Hget.
    apply (is_new_url_spec _ _ (normalize_url_not_empty u)) in Hnew.
    rewrite Hnew. reflexivity.
  - intros u0 m tail Hfree Hm -> Hin. apply Hknown.
    rewrite (normalize_url_after_suffix u0 m tail Hfree Hm). exact Hin.
Qed.

(** The second address of the three-post viewer carries [?img_index=1]; its
    post is already in the list, and stays there once. *)
Lemma collect_current_post_dedup_witness :
  let w :=
    snd (perform (Click 1)
           (snd (perform (Click 1)
                   (Scenarios.start (Scenarios.viewer Scenarios.three_posts) None)))) in
  let u := "https://www.instagram.com/p/Cbbb222/?img_index=1"%string in
  let known :=
    [post_record "https://www.instagram.com/p/Cbbb222/" "2024-01-01T00:00:00" 1] in
  perform CurrentUrl w = (Ok u, snd (perform CurrentUrl w))
  /\ str_in "/p/" u = true
  /\ collect_current_post known w = (known, snd (perform CurrentUrl w)).
Proof.
  cbv zeta. split; [vm_compute; reflexivity|]. split; [vm_compute; reflexivity|].
  refine (proj1 (collect_current_post_dedup _
                   "https://www.instagram.com/p/Cbbb222/?img_index=1" _ _ _ _) _).
  - vm_compute; reflexivity.
  - vm_compute; reflexivity.
  - vm_compute. left. reflexivity.
Defined.

End ModalProperties.

(* ------------------------------------------------------------------------- *)
(** ** Reels *)
(* ------------------------------------------------------------------------- *)

Module ReelProperties.

Import PyStr PyStrFacts Url Props Browser Scraper Effects ScraperEffects ModalFacts Outputs.
Local Open Scope scraper_scope.

(** *** The scan of the anchors *)

Lemma is_new_reel_spec (h : string) (ordered : list string) :
  is_new_reel (Some h) ordered = true ->
  reel_reference h /\ ~ In h ordered.
Proof.
  unfold is_new_reel. intros H.
  apply andb_true_iff in H as [H Hnew]. apply andb_true_iff in H as [Hne Hreel].
  apply negb_true_iff in Hne, Hnew. apply String.eqb_neq in Hne.
  apply existsb_eqb_false in Hnew. now repeat split.
Qed.

Lemma scan_anchors_inv (max_reels : Z) (anchors : list element)
      (ordered : list string) (w : World) :
  NoDup ordered -> Forall reel_reference ordered ->
  (Z.of_nat (length ordered) < max_reels)%Z \/ ordered = [] ->
  let out := fst (scan_anchors max_reels anchors ordered w) in
  NoDup out /\ Forall reel_reference out
  /\ (Z.of_nat (length out) <= Z.max 1 max_reels)%Z.
Proof.
  cbv zeta. revert ordered w.
  induction anchors as [|a anchors IH]; intros ordered w Hnd Hall Hlen.
  - cbn. split; [exact Hnd|]. split; [exact Hall|].
    destruct Hlen as [Hlen| ->]; cbn; lia.
  - cbn [scan_anchors]. unfold bind.
    destruct (perform (GetAttribute a "href") w) as [[[h|]|e] w1];
      try (now apply IH).
    destruct (is_new_reel (Some h) ordered) eqn:Hnew; [|now apply IH].
    apply is_new_reel_spec in Hnew as [Hreel Hfresh].
    assert (Hnd' : NoDup (ordered ++ [h])).
    { apply NoDup_app; [exact Hnd | constructor; [intros [] | constructor] |].
      intros x Hx [<-|[]]. contradiction. }
    assert (Hall' : Forall reel_reference (ordered ++ [h])).
    { apply Forall_app. split; [exact Hall | constructor; [exact Hreel | constructor]]. }
    destruct (Z.of_nat (length (ordered ++ [h])) >=? max_reels)%Z eqn:Hstop.
    + cbn [ret fst]. split; [exact Hnd'|]. split; [exact Hall'|].
      rewrite last_length in *. destruct Hlen as [Hlen| ->]; cbn in *; lia.
    + apply IH; [exact Hnd' | exact Hall' |]. left.
      rewrite Z.geb_leb in Hstop. apply Z.leb_gt in Hstop. exact Hstop.
Qed.

Lemma find_reel_urls_inv (max_reels : Z) (w : World) :
  let out := fst (_find_reel_urls max_reels w) in
  NoDup out /\ Forall reel_reference out
  /\ (Z.of_nat (length out) <= Z.max 1 max_reels)%Z.
Proof.
  cbv zeta.
  assert (Hnil : NoDup (@nil string) /\ Forall reel_reference []
                 /\ (Z.of_nat (length (@nil string)) <= Z.max 1 max_reels)%Z)
    by (split; [constructor | split; [constructor | cbn; lia]]).
  unfold _find_reel_urls, bind.
  destruct (perform (WaitAllPresence _ _) w) as [[els|[|]] w1]; cbn [ret fst];
    try exact Hnil;
    (destruct (perform (FindElements (TAG_NAME, "a")) w1) as [[anchors|e] w2];
     cbn [ret fst]; [|exact Hnil];
     apply scan_anchors_inv; [constructor | constructor | now right]).
Qed.

(** *** From references to records *)

Lemma build_reels_shape (urls : list string) :
  forall (i : nat) (reels_data : list ContentRecord) (w : World),
    let out := fst (build_reels i urls reels_data w) in
    map content_url out = map content_url reels_data ++ urls
    /\ map order out = map order reels_data ++ seq (i + 1) (length urls)
    /\ (Forall derived_reel reels_data -> Forall reel_reference urls ->
        Forall derived_reel out).
Proof.
  cbv zeta. induction urls as [|u urls IH]; intros i reels_data w.
  - cbn. rewrite !app_nil_r. now repeat split.
  - cbn [build_reels]. unfold bind, sleep, now.
    match goal with |- context [build_reels _ _ ?acc ?w'] =>
      destruct (IH (i + 1) acc w') as (Hurl & Hord & Hder)
    end.
    rewrite Hurl, Hord, !map_app. cbn [map content_url order length seq].
    rewrite <- !app_assoc. cbn [app].
    replace (i + 1 + 1) with (S (i + 1)) by lia.
    split; [reflexivity|]. split; [reflexivity|].
    intros Hall Hrefs. inversion Hrefs as [|x l Hu Hrest]; subst.
    apply Hder; [|exact Hrest].
    apply Forall_app. split; [exact Hall|].
    constructor; [|constructor]. split; [reflexivity|]. split; [reflexivity|].
    exact (proj1 Hu).
Qed.

Lemma scrape_reels_inv (num_reels : Z) (w : World) :
  let out := fst (scrape_reels_traditional num_reels w) in
  (Z.of_nat (length out) <= Z.max 1 num_reels)%Z
  /\ numbered out
  /\ distinct_urls out
  /\ Forall derived_reel out.
Proof.
  cbv zeta. unfold scrape_reels_traditional, bind.
  pose proof (find_reel_urls_inv num_reels w) as (Hnd & Hall & Hlen).
  cbv zeta in *. destruct (_find_reel_urls num_reels w) as [urls w1]. cbn [fst] in *.
  destruct (build_reels_shape urls 0 [] w1) as (Hurl & Hord & Hder).
  cbv zeta in *. cbn [map app] in *.
  assert (Hsize : length (fst (build_reels 0 urls [] w1)) = length urls)
    by (rewrite <- (length_map content_url), Hurl; reflexivity).
  split; [rewrite Hsize; exact Hlen|]. split; [|split].
  - unfold numbered. rewrite Hord, Hsize. reflexivity.
  - unfold distinct_urls. rewrite Hurl. exact Hnd.
  - apply Hder; [constructor | exact Hall].
Qed.

(** **** X8
    The reel records returned are numbered 1, 2, ... in order, have
    distinct references that all contain ["/reel/"], carry the short-code of
    their own reference, and are at most [max(1, num_reels)]: the scan stops
    only after it has appended a reference, so a requested count of zero or
    less still yields one reel when the page shows one. *)
Theorem scrape_reels_shape (num_reels : Z) (w : World) :
  let out := fst (scrape_reels_traditional num_reels w) in
  (Z.of_nat (length out) <= Z.max 1 num_reels)%Z
  /\ numbered out
  /\ distinct_urls out
  /\ Forall derived_reel out.
Proof. exact (scrape_reels_inv num_reels w). Qed.

(** A page with one reel, and zero reels requested: one record. *)
Lemma scrape_reels_zero_requested :
  length (fst (scrape_reels_traditional 0
                 (snd (open_profile "alice" Scenarios.three_start)))) = 1.
Proof. vm_compute. reflexivity. Qed.

(** *** The scanner only looks *)

Lemma scan_anchors_looks (n : Z) (anchors : list element) (ordered : list string) :
  appends looks (scan_anchors n anchors ordered).
Proof.
  revert ordered; induction anchors as [|a anchors IH]; intros ordered;
    cbn [scan_anchors];
    repeat first
      [ apply appends_ret
      | apply IH
      | apply appends_perform; intro; reflexivity
      | apply appends_bind; [|intro]
      | match goal with
        | |- appends _ (match ?x with _ => _ end) => destruct x
        end ].
Qed.

Lemma build_reels_looks (i : nat) (urls : list string) (acc : list ContentRecord) :
  appends looks (build_reels i urls acc).
Proof.
  revert i acc; induction urls as [|u urls IH]; intros i acc; cbn [build_reels];
    repeat first
      [ apply appends_ret
      | apply appends_now
      | apply IH
      | apply appends_sleep; reflexivity
      | apply appends_bind; [|intro] ].
Qed.

(** **** X9
    Reel discovery never clicks, types, navigates or runs a script: all it
    adds to the history are waits for the anchors, listings of them, reads of
    their [href] and pauses. *)
Theorem scrape_reels_only_looks (num_reels : Z) (w : World) :
  exists h,
    history (snd (scrape_reels_traditional num_reels w)) = history w ++ h
    /\ Forall (fun ev => passive ev = true) h.
Proof.
  assert (H : appends looks (scrape_reels_traditional num_reels)).
  { unfold scrape_reels_traditional, _find_reel_urls.
    repeat first
      [ apply appends_ret
      | apply scan_anchors_looks
      | apply build_reels_looks
      | apply appends_perform; intro; reflexivity
      | apply appends_bind; [|intro]
      | match goal with
        | |- appends _ (match ?x with _ => _ end) => destruct x
        end ]. }
  exact (H w).
Qed.

End ReelProperties.

(* ------------------------------------------------------------------------- *)
(** ** Profiles and batches *)
(* ------------------------------------------------------------------------- *)

Module BatchProperties.

Import PyStr Url Props Browser Scraper Effects ScraperEffects ModalFacts
       SessionFacts ReelProperties Outputs Batch.
Local Open Scope scraper_scope.

(** *** One profile *)

Lemma wants_asks_for (kind ct : string) : wants kind ct = true -> asks_for kind ct.
Proof.
  unfold wants, asks_for. cbn [existsb]. rewrite orb_false_r.
  intros H. apply orb_true_iff in H as [H|H]; apply String.eqb_eq in H; auto.
Qed.

Lemma ordered_unique_nil (n : Z) : (0 <= n)%Z -> ordered_unique_upto n [].
Proof. intros Hn. split; [cbn; lia | split; [reflexivity | constructor]]. Qed.

Lemma scrape_posts_ordered_unique (name : string) (n : Z) (w : World) :
  (0 <= n)%Z ->
  ordered_unique_upto n (fst (scrape_posts_via_modal_navigation name n w)).
Proof.
  intros Hn. rewrite scrape_posts_unfold.
  destruct (_click_first_post w) as [[|] w1].
  - destruct (sleep (Uniform 2000 3000) w1) as [u w2].
    pose proof (navigate_posts_via_arrows_ok n w2 Hn) as H.
    destruct (_navigate_posts_via_arrows n w2) as [posts_data w3].
    destruct (_close_modal w3) as [closed w4]. exact H.
  - now apply ordered_unique_nil.
Qed.

Lemma scrape_reels_ordered_unique (n : Z) (w : World) :
  (0 < n)%Z -> ordered_unique_upto n (fst (scrape_reels_traditional n w)).
Proof.
  intros Hn. destruct (scrape_reels_inv n w) as (Hlen & Hnum & Hdis & _).
  split; [lia | split; assumption].
Qed.

Ltac shape_done :=
  unfold profile_shape;
  cbn [fst set_posts set_reels username profile_url posts reels] in *;
  repeat match goal with H : _ = [] |- _ => rewrite H end;
  try rewrite (Z.max_r 0 _) by lia;
  try rewrite (Z.max_r 0 _) by lia;
  repeat match goal with
         | H : ordered_unique_upto _ _ |- _ => destruct H as (? & ? & ?)
         end;
  repeat split; try assumption; try congruence;
  try (cbn [length]; lia); try reflexivity; try apply NoDup_nil.

Lemma collect_content_shape (name : string) (np nr : Z) (ct : string)
      (pd : ProfileData) (w : World) :
  username pd = name -> profile_url pd = profile_url_of name ->
  posts pd = [] -> reels pd = [] ->
  profile_shape name np nr ct (fst (collect_content name np nr ct pd w)).
Proof.
  intros Hname Hurl Hposts Hreels. unfold collect_content, bind, ret.
  destruct (wants CONTENT_POSTS ct && (np >? 0)%Z) eqn:Ep;
    destruct (wants CONTENT_REELS ct && (nr >? 0)%Z) eqn:Er;
    try (apply andb_true_iff in Ep as [Ep Hp]; apply wants_asks_for in Ep;
         apply Z.gtb_lt in Hp);
    try (apply andb_true_iff in Er as [Er Hr]; apply wants_asks_for in Er;
         apply Z.gtb_lt in Hr).
  - pose proof (scrape_posts_ordered_unique name np w ltac:(lia)) as HP.
    destruct (scrape_posts_via_modal_navigation name np w) as [posts_data w1].
    pose proof (scrape_reels_ordered_unique nr w1 Hr) as HR.
    destruct (scrape_reels_traditional nr w1) as [reels_data w2]. shape_done.
  - pose proof (scrape_posts_ordered_unique name np w ltac:(lia)) as HP.
    destruct (scrape_posts_via_modal_navigation name np w) as [posts_data w1].
    shape_done.
  - pose proof (scrape_reels_ordered_unique nr w Hr) as HR.
    destruct (scrape_reels_traditional nr w) as [reels_data w2]. shape_done.
  - shape_done.
Qed.

Lemma empty_profile_shape (name scraped_at : string) (np nr : Z) (ct : string) :
  profile_shape name np nr ct
    {| username := name; profile_url := profile_url_of name;
       profile_scraped_at := scraped_at; posts := []; reels := [] |}.
Proof. shape_done. Qed.

Lemma scrape_profile_content_shape (name : string) (np nr : Z) (ct : string)
      (w : World) :
  profile_shape name np nr ct (fst (scrape_profile_content name np nr ct w)).
Proof.
  unfold scrape_profile_content, bind, now, ret.
  destruct (open_profile name w) as [[[|]|e] w1]; cbn [negb fst];
    try apply empty_profile_shape.
  destruct (perform CurrentUrl w1) as [[u|e] w2]; cbn [fst];
    try apply empty_profile_shape.
  destruct (str_in "accounts/login" u || str_in "challenge" u); cbn [fst];
    try apply empty_profile_shape.
  now apply collect_content_shape.
Qed.

(** **** X10
    Whatever the browser does, the profile data returned for a username
    carries that username and its profile address; it holds posts only if
    the content type is ["posts"] or ["both"] and a positive number was
    asked for, reels only if it is ["reels"] or ["both"] and a positive
    number was asked for; and each list is numbered from 1, without a
    repeated address, and no longer than the number requested. *)
Theorem profile_content_within_request (name : string) (np nr : Z) (ct : string)
        (w : World) :
  let pd := fst (scrape_profile_content name np nr ct w) in
  username pd = name
  /\ profile_url pd = ("https://www.instagram.com/" ++ name ++ "/")%string
  /\ (posts pd <> [] -> (ct = "posts" \/ ct = "both") /\ (0 < np)%Z)
  /\ (reels pd <> [] -> (ct = "reels" \/ ct = "both") /\ (0 < nr)%Z)
  /\ ordered_unique_upto (Z.max 0 np) (posts pd)
  /\ ordered_unique_upto (Z.max 0 nr) (reels pd).
Proof. exact (scrape_profile_content_shape name np nr ct w). Qed.

(** *** The loop over the profiles *)

Lemma success_iff (pd : ProfileData) :
  Nat.ltb 0 (length (posts pd)) || Nat.ltb 0 (length (reels pd)) = true
  <-> posts pd <> [] \/ reels pd <> [].
Proof.
  rewrite orb_true_iff, !Nat.ltb_lt.
  destruct (posts pd), (reels pd); cbn; split; intros [H|H];
    try lia; try congruence; try (left; congruence); try (right; congruence);
    try (left; lia); try (right; lia).
Qed.

Lemma profile_result_entry (name : string) (pd : ProfileData) (elapsed : Z) :
  username pd = name -> entry_of name (profile_result_of name pd elapsed).
Proof.
  intros Hname. unfold entry_of, profile_result_of. cbn.
  repeat split; try assumption; apply success_iff.
Qed.

Lemma successes_cons (e : ProfileResult) (l : list ProfileResult) :
  successes (e :: l) = (if success (summary e) then 1 else 0) + successes l.
Proof. unfold successes. cbn [filter]. destruct (success (summary e)); reflexivity. Qed.

Lemma posts_in_cons (e : ProfileResult) (l : list ProfileResult) :
  posts_in (e :: l) = length (posts (profile e)) + posts_in l.
Proof. reflexivity. Qed.

Lemma reels_in_cons (e : ProfileResult) (l : list ProfileResult) :
  reels_in (e :: l) = length (reels (profile e)) + reels_in l.
Proof. reflexivity. Qed.

Lemma profiles_loop_entries (total : nat) (usernames : list string) (np nr : Z)
      (ct : string) :
  forall (i : nat) (all_results : Running) (w : World),
    let out := fst (profiles_loop total i usernames np nr ct all_results w) in
    exists new,
      profiles out = profiles all_results ++ new
      /\ Forall2 (fun name e => entry_of name e
                                /\ profile_shape name np nr ct (profile e))
                 usernames new
      /\ successful_profiles out = successful_profiles all_results + successes new
      /\ total_posts out = total_posts all_results + posts_in new
      /\ total_reels out = total_reels all_results + reels_in new.
Proof.
  cbv zeta. induction usernames as [|name rest IH]; intros i all_results w.
  - exists []. cbn. rewrite app_nil_r. repeat split; try constructor; lia.
  - cbn [profiles_loop]. unfold bind, time.
    pose proof (scrape_profile_content_shape name np nr ct w) as Hshape.
    destruct (scrape_profile_content name np nr ct w) as [pd w1]. cbn [fst] in Hshape.
    set (e := profile_result_of name pd _).
    destruct ((if Nat.ltb i total then sleep profile_delay else ret tt) w1)
      as [u w2].
    destruct (IH (i + 1) (record_profile e all_results) w2)
      as (new & Hp & HF & Hs & Htp & Htr).
    assert (He : entry_of name e) by (apply profile_result_entry, Hshape).
    exists (e :: new). rewrite Hp, Hs, Htp, Htr.
    cbn [record_profile profiles successful_profiles total_posts total_reels].
    rewrite successes_cons, posts_in_cons, reels_in_cons.
    split; [rewrite <- app_assoc; reflexivity|].
    split; [constructor; [split; [exact He | exact Hshape] | exact HF]|].
    destruct He as (_ & _ & Hpc & Hrc & Hsucc).
    destruct (success (summary e)) eqn:Es.
    + rewrite Hpc, Hrc. lia.
    + assert (Hnone : posts pd = [] /\ reels pd = []).
      { subst e. cbn [profile profile_result_of] in Hsucc.
        destruct (posts pd), (reels pd); try (split; reflexivity);
          exfalso; (assert (false = true) by (apply Hsucc; (left; congruence) || (right; congruence)));
          discriminate. }
      destruct Hnone as [Hnp Hnr]. subst e. cbn [profile profile_result_of].
      rewrite Hnp, Hnr. cbn [length]. lia.
Qed.

Lemma batch_entries (usernames : list string) (np nr : Z) (ct : string) (w : World) :
  let out := fst (scrape_multiple_profiles usernames np nr ct w) in
  Forall2 (fun name e => entry_of name e /\ profile_shape name np nr ct (profile e))
          usernames (batch_profiles out)
  /\ total_profiles (batch_summary out) = length usernames
  /\ batch_successful_profiles (batch_summary out) = successes (batch_profiles out)
  /\ batch_total_posts (batch_summary out) = posts_in (batch_profiles out)
  /\ batch_total_reels (batch_summary out) = reels_in (batch_profiles out).
Proof.
  cbv zeta. unfold scrape_multiple_profiles, bind, now, ret.
  destruct (profiles_loop_entries (length usernames) usernames np nr ct 1
              {| profiles := []; successful_profiles := 0;
                 total_posts := 0; total_reels := 0 |} w)
    as (new & Hp & HF & Hs & Htp & Htr).
  destruct (profiles_loop _ _ _ _ _ _ _ _) as [all_results w'].
  cbn [fst profiles successful_profiles total_posts total_reels app] in *.
  cbn [batch_profiles batch_summary total_profiles batch_successful_profiles
       batch_total_posts batch_total_reels].
  rewrite Hp, Hs, Htp, Htr. repeat split; try reflexivity. exact HF.
Qed.

Lemma entries_names (Q : string -> ProfileResult -> Prop) (names : list string)
      (es : list ProfileResult) :
  Forall2 (fun name e => entry_of name e /\ Q name e) names es ->
  map (fun e => username (profile e)) es = names /\ Forall2 entry_of names es.
Proof.
  induction 1 as [|name e names es [He _] _ [IHm IHf]].
  - split; [reflexivity | constructor].
  - split; [cbn [map]; rewrite IHm, (proj1 He); reflexivity | now constructor].
Qed.

(** **** X11
    The batch has exactly one entry per requested username, in the order
    given: the entry holds the profile data of that username and a summary
    with the same username, the lengths of its two lists as counts, and
    [success] set exactly when one of the lists is not empty. *)
Theorem batch_entries_in_order (usernames : list string) (np nr : Z) (ct : string)
        (w : World) :
  let out := fst (scrape_multiple_profiles usernames np nr ct w) in
  total_profiles (batch_summary out) = length usernames
  /\ map (fun e => username (profile e)) (batch_profiles out) = usernames
  /\ Forall2 entry_of usernames (batch_profiles out).
Proof.
  cbv zeta. destruct (batch_entries usernames np nr ct w) as (HF & Htot & _).
  cbv zeta in HF. split; [exact Htot|]. exact (entries_names _ _ _ HF).
Qed.

(** **** X12
    The totals of the batch summary agree with its entries: the posts and
    the reels are the sums of the lengths of the entries' lists, and the
    number of successful profiles is the number of entries whose summary
    says [success]. *)
Theorem batch_totals_consistent (usernames : list string) (np nr : Z) (ct : string)
        (w : World) :
  let out := fst (scrape_multiple_profiles usernames np nr ct w) in
  batch_total_posts (batch_summary out) = posts_in (batch_profiles out)
  /\ batch_total_reels (batch_summary out) = reels_in (batch_profiles out)
  /\ batch_successful_profiles (batch_summary out) = successes (batch_profiles out).
Proof.
  cbv zeta. destruct (batch_entries usernames np nr ct w) as (_ & _ & Hs & Hp & Hr).
  cbv zeta in *. split; [exact Hp | split; [exact Hr | exact Hs]].
Qed.

Lemma sum_bounded (f : ProfileResult -> nat) (k : nat) (l : list ProfileResult) :
  Forall (fun e => f e <= k) l -> list_sum (map f l) <= length l * k.
Proof.
  induction 1 as [|e l He _ IH]; [cbn; lia|].
  change (list_sum (map f (e :: l))) with (f e + list_sum (map f l)).
  change (length (e :: l) * k) with (k + length l * k). lia.
Qed.

Lemma sum_zero (f : ProfileResult -> nat) (l : list ProfileResult) :
  Forall (fun e => f e = 0) l -> list_sum (map f l) = 0.
Proof.
  induction 1 as [|e l He _ IH]; [reflexivity|].
  change (list_sum (map f (e :: l))) with (f e + list_sum (map f l)). lia.
Qed.

Lemma Forall2_right {A B : Type} (R : A -> B -> Prop) (Q : B -> Prop)
      (l : list A) (l' : list B) :
  (forall a b, R a b -> Q b) -> Forall2 R l l' -> Forall Q l'.
Proof. intros H HF. induction HF; constructor; eauto. Qed.

(** **** X13
    A batch never holds more than was asked for: the total of posts is at
    most the number of profiles times the posts per profile, and it is zero
    when that number is not positive or the content type is neither
    ["posts"] nor ["both"]; the same for reels with ["reels"]. *)
Theorem batch_within_request (usernames : list string) (np nr : Z) (ct : string)
        (w : World) :
  let s := batch_summary (fst (scrape_multiple_profiles usernames np nr ct w)) in
  batch_total_posts s <= length usernames * Z.to_nat np
  /\ batch_total_reels s <= length usernames * Z.to_nat nr
  /\ (~ ((ct = "posts" \/ ct = "both") /\ (0 < np)%Z) -> batch_total_posts s = 0)
  /\ (~ ((ct = "reels" \/ ct = "both") /\ (0 < nr)%Z) -> batch_total_reels s = 0).
Proof.
  cbv zeta.
  destruct (batch_entries usernames np nr ct w) as (HF & _ & _ & Hp & Hr).
  cbv zeta in *. rewrite Hp, Hr.
  rewrite (Forall2_length HF).
  assert (Hall : Forall (fun e => exists name, profile_shape name np nr ct (profile e))
                        (batch_profiles
                           (fst (scrape_multiple_profiles usernames np nr ct w)))).
  { refine (Forall2_right _ _ _ _ _ HF). intros name e [_ H]. now exists name. }
  unfold posts_in, reels_in. split; [|split; [|split]].
  - apply sum_bounded. refine (Forall_impl _ _ Hall).
    intros e (name & _ & _ & _ & _ & (Hlen & _) & _). lia.
  - apply sum_bounded. refine (Forall_impl _ _ Hall).
    intros e (name & _ & _ & _ & _ & _ & (Hlen & _)). lia.
  - intros Hno. apply sum_zero. refine (Forall_impl _ _ Hall).
    intros e (name & _ & _ & Hposts & _).
    destruct (posts (profile e)) as [|r l]; [reflexivity|].
    exfalso. apply Hno, Hposts. discriminate.
  - intros Hno. apply sum_zero. refine (Forall_impl _ _ Hall).
    intros e (name & _ & _ & _ & Hreels & _).
    destruct (reels (profile e)) as [|r l]; [reflexivity|].
    exfalso. apply Hno, Hreels. discriminate.
Qed.

(** *** Pauses between the profiles *)

Lemma pacing_quiet (ev : Event) : quiet ev -> pacing ev = false.
Proof.
  destruct ev as [A c r|d]; [reflexivity|]. intros Hq.
  destruct d as [ms|lo hi|lo hi]; try reflexivity.
  cbn [pacing]. destruct ((lo =? 10000)%Z && (hi =? 15000)%Z) eqn:E; [|reflexivity].
  apply andb_true_iff in E as [E1 E2]. apply Z.eqb_eq in E1, E2. subst.
  exfalso. apply Hq. reflexivity.
Qed.

Lemma filter_pacing_quiet (h : History) : Forall quiet h -> filter pacing h = [].
Proof.
  induction 1 as [|ev h Hev _ IH]; [reflexivity|].
  cbn [filter]. rewrite (pacing_quiet ev Hev). exact IH.
Qed.

Lemma paced_pauses (hs : list History) :
  Forall (Forall quiet) hs -> length (filter pacing (paced hs)) = length hs - 1.
Proof.
  induction 1 as [|h rest Hh Hrest IH]; [reflexivity|].
  destruct rest as [|h' rest'].
  - cbn [paced]. rewrite (filter_pacing_quiet h Hh). reflexivity.
  - change (paced (h :: h' :: rest'))
      with (h ++ ESleep profile_delay :: paced (h' :: rest')).
    rewrite filter_app, (filter_pacing_quiet h Hh).
    cbn [app filter]. change (pacing (ESleep profile_delay)) with true.
    cbn [length] in *. lia.
Qed.

Lemma scrape_profile_content_opens (name : string) (np nr : Z) (ct : string)
      (w : World) :
  exists h,
    history (snd (scrape_profile_content name np nr ct w)) = history w ++ h
    /\ opens_profile name h
    /\ Forall quiet h.
Proof.
  unfold scrape_profile_content, open_profile, bind_ok.
  unfold bind at 1. unfold now. rewrite bind_assoc.
  match goal with
  | |- context [bind (perform (Get ?url)) ?k w] =>
      destruct (appends_after_perform quiet (Get url) k) with (w := w)
        as (r & t & Hh & Hq)
  end.
  - intros r. unfold _wait_for_profile_load, collect_content. quiet_auto.
  - exists (EDriver (Get (profile_url_of name)) r :: t).
    split; [exact Hh|]. split; [now exists r, t|].
    constructor; [apply quiet_driver | exact Hq].
Qed.

Lemma profiles_loop_paced (total : nat) (np nr : Z) (ct : string)
      (usernames : list string) :
  forall (i : nat) (all_results : Running) (w : World),
    i + length usernames = total + 1 ->
    exists hs,
      scraped_in_turn np nr ct usernames w hs
      /\ Forall2 opens_profile usernames hs
      /\ Forall (Forall quiet) hs
      /\ history (snd (profiles_loop total i usernames np nr ct all_results w))
         = history w ++ paced hs.
Proof.
  induction usernames as [|name rest IH]; intros i all_results w Hi.
  - exists []. cbn. rewrite app_nil_r.
    split; [constructor|]. split; [constructor|]. split; [constructor | reflexivity].
  - cbn [profiles_loop]. unfold bind, time.
    destruct (scrape_profile_content_opens name np nr ct w) as (h & Hh & Ho & Hq).
    destruct (scrape_profile_content name np nr ct w) as [pd w1] eqn:Escrape.
    cbn [snd] in Hh.
    set (acc := record_profile _ all_results).
    destruct rest as [|next rest'].
    + cbn [length] in Hi. replace i with total by lia.
      rewrite Nat.ltb_irrefl. cbn [ret profiles_loop snd].
      exists [h]. split.
      { constructor. rewrite Escrape. exact Hh. }
      split; [constructor; [exact Ho | constructor]|].
      split; [constructor; [exact Hq | constructor] | exact Hh].
    + assert (Hlt : Nat.ltb i total = true)
        by (apply Nat.ltb_lt; cbn [length] in Hi; lia).
      rewrite Hlt. unfold sleep at 1.
      destruct (IH (i + 1) acc (log (ESleep profile_delay) w1))
        as (hs & Hturn & Hopen & Hall & Hhist); [cbn [length] in *; lia|].
      destruct hs as [|h' hs']; [inversion Hopen|].
      exists (h :: h' :: hs'). split.
      { constructor; rewrite Escrape; [exact Hh | exact Hturn]. }
      split; [constructor; assumption|].
      split; [constructor; assumption|].
      rewrite Hhist. cbn [log history]. rewrite Hh.
      change (paced (h :: h' :: hs'))
        with (h ++ ESleep profile_delay :: paced (h' :: hs')).
      rewrite <- !app_assoc. reflexivity.
Qed.

(** **** X14
    For any list of usernames, what the batch adds to the history is, in
    this order: what [scrape_profile_content] adds for the first username,
    then for each further username one pause of [PROFILE_DELAY_MIN] to
    [PROFILE_DELAY_MAX] seconds followed by what [scrape_profile_content]
    adds for it, started in the world left by that pause.  Each of these
    scrapes begins with the [driver.get] of its profile page and contains no
    such pause.  So the pauses stand between consecutive profiles only, none
    before the first scrape and none after the last: as many as usernames,
    less one. *)
Theorem batch_pauses_between_profiles (usernames : list string) (np nr : Z)
        (ct : string) (w : World) :
  exists hs,
    scraped_in_turn np nr ct usernames w hs
    /\ history (snd (scrape_multiple_profiles usernames np nr ct w))
       = history w ++ paced hs
    /\ Forall2 opens_profile usernames hs
    /\ Forall (Forall quiet) hs
    /\ length (filter pacing (paced hs)) = length usernames - 1.
Proof.
  unfold scrape_multiple_profiles, bind, now, ret.
  destruct (profiles_loop_paced (length usernames) np nr ct usernames 1
              {| profiles := []; successful_profiles := 0;
                 total_posts := 0; total_reels := 0 |} w)
    as (hs & Hturn & Hopen & Hall & Hhist); [lia|].
  destruct (profiles_loop _ _ _ _ _ _ _ _) as [all_results w']. cbn [snd] in *.
  exists hs. split; [exact Hturn|]. split; [exact Hhist|].
  split; [exact Hopen|]. split; [exact Hall|].
  rewrite (Forall2_length Hopen). now apply paced_pauses.
Qed.

(** *** The session file *)

Lemma keeps_now : keeps_session now.
Proof. intros w. reflexivity. Qed.

Lemma keeps_time : keeps_session time.
Proof. intros w. reflexivity. Qed.

Create HintDb keeps_db.

Ltac keeps_step :=
  first
    [ apply keeps_ret
    | apply keeps_now
    | apply keeps_time
    | apply keeps_perform
    | apply keeps_sleep
    | assumption
    | solve [auto with keeps_db]
    | apply keeps_lift
    | apply keeps_bind_ok; [|intro]
    | apply keeps_bind; [|intro]
    | match goal with
      | |- keeps_session (match ?x with _ => _ end) => destruct x
      end ].

Ltac keeps_all := repeat keeps_step.

Lemma keeps_click_strategy (t : Duration) (sel : string) :
  keeps_session (click_strategy t sel).
Proof. unfold click_strategy. keeps_all. Qed.
#[export] Hint Resolve keeps_click_strategy : keeps_db.

Lemma keeps_click_first_match (t : Duration) (l : list string) :
  keeps_session (click_first_match t l).
Proof. induction l as [|sel l IH]; cbn [click_first_match]; keeps_all. Qed.
#[export] Hint Resolve keeps_click_first_match : keeps_db.

Lemma keeps_keyboard_strategy (k : Keys) : keeps_session (keyboard_strategy k).
Proof. unfold keyboard_strategy. keeps_all. Qed.
#[export] Hint Resolve keeps_keyboard_strategy : keeps_db.

Lemma keeps_go_to_next_post : keeps_session _go_to_next_post.
Proof. unfold _go_to_next_post, script_strategy. keeps_all. Qed.
#[export] Hint Resolve keeps_go_to_next_post : keeps_db.

Lemma keeps_close_modal : keeps_session _close_modal.
Proof. unfold _close_modal. keeps_all. Qed.
#[export] Hint Resolve keeps_close_modal : keeps_db.

Lemma keeps_click_first_post : keeps_session _click_first_post.
Proof. unfold _click_first_post. keeps_all. Qed.
#[export] Hint Resolve keeps_click_first_post : keeps_db.

Lemma keeps_collect_current_post (posts_data : list ContentRecord) :
  keeps_session (collect_current_post posts_data).
Proof. unfold collect_current_post, _get_current_modal_post_url. keeps_all. Qed.
#[export] Hint Resolve keeps_collect_current_post : keeps_db.

Lemma keeps_arrows_iteration (n : Z) (posts_data : list ContentRecord) :
  keeps_session (arrows_iteration n posts_data).
Proof. unfold arrows_iteration. keeps_all. Qed.
#[export] Hint Resolve keeps_arrows_iteration : keeps_db.

Lemma keeps_navigate_loop (fuel : nat) (n m a : Z) (posts_data : list ContentRecord) :
  keeps_session (navigate_loop fuel n m a posts_data).
Proof.
  revert a posts_data; induction fuel as [|fuel IH]; intros a posts_data;
    cbn [navigate_loop]; keeps_all.
Qed.
#[export] Hint Resolve keeps_navigate_loop : keeps_db.

Lemma keeps_scrape_posts (username : string) (n : Z) :
  keeps_session (scrape_posts_via_modal_navigation username n).
Proof.
  unfold scrape_posts_via_modal_navigation, scrape_posts_with, modal_try_block,
    _navigate_posts_via_arrows.
  keeps_all.
Qed.
#[export] Hint Resolve keeps_scrape_posts : keeps_db.

Lemma keeps_scan_anchors (n : Z) (anchors : list element) (ordered : list string) :
  keeps_session (scan_anchors n anchors ordered).
Proof.
  revert ordered; induction anchors as [|a anchors IH]; intros ordered;
    cbn [scan_anchors]; keeps_all.
Qed.
#[export] Hint Resolve keeps_scan_anchors : keeps_db.

Lemma keeps_build_reels (i : nat) (urls : list string) (acc : list ContentRecord) :
  keeps_session (build_reels i urls acc).
Proof.
  revert i acc; induction urls as [|u urls IH]; intros i acc;
    cbn [build_reels]; keeps_all.
Qed.
#[export] Hint Resolve keeps_build_reels : keeps_db.

Lemma keeps_scrape_reels (n : Z) : keeps_session (scrape_reels_traditional n).
Proof. unfold scrape_reels_traditional, _find_reel_urls. keeps_all. Qed.
#[export] Hint Resolve keeps_scrape_reels : keeps_db.

Lemma keeps_scrape_profile_content (username : string) (np nr : Z) (ct : string) :
  keeps_session (scrape_profile_content username np nr ct).
Proof.
  unfold scrape_profile_content, open_profile, _wait_for_profile_load,
    collect_content.
  keeps_all.
Qed.
#[export] Hint Resolve keeps_scrape_profile_content : keeps_db.

Lemma keeps_profiles_loop (total : nat) (np nr : Z) (ct : string)
      (usernames : list string) :
  forall (i : nat) (all_results : Running),
    keeps_session (profiles_loop total i usernames np nr ct all_results).
Proof.
  induction usernames as [|name rest IH]; intros i all_results;
    cbn [profiles_loop]; keeps_all.
Qed.
#[export] Hint Resolve keeps_profiles_loop : keeps_db.

Lemma keeps_scrape_multiple_profiles (usernames : list string) (np nr : Z)
      (ct : string) :
  keeps_session (scrape_multiple_profiles usernames np nr ct).
Proof. unfold scrape_multiple_profiles. keeps_all. Qed.

(** **** X15
    Scraping never creates, overwrites or removes the session file: after a
    batch over any usernames, and after the scrape of any single profile,
    the file is what it was before. *)
Theorem scraping_keeps_session_file (usernames : list string) (name : string)
        (np nr : Z) (ct : string) (w : World) :
  session_file (snd (scrape_multiple_profiles usernames np nr ct w)) = session_file w
  /\ session_file (snd (scrape_profile_content name np nr ct w)) = session_file w.
Proof.
  split.
  - apply keeps_scrape_multiple_profiles.
  - apply keeps_scrape_profile_content.
Qed.

End BatchProperties.

(* ------------------------------------------------------------------------- *)
(** ** The session file and the login *)
(* ------------------------------------------------------------------------- *)

Module SessionProperties.

Import PyStr Props Browser Scraper Effects SessionFacts BatchProperties Sites.
Local Open Scope scraper_scope.

(** *** Restoring *)

Lemma probe_indicators_found (l : list string) (w w' : World) :
  probe_indicators l w = (Ok true, w') ->
  exists indicator el h,
    In indicator l
    /\ history w'
       = h ++ [EDriver (WaitPresence (seconds 5) (XPATH, indicator)) (Ok el)].
Proof.
  revert w; induction l as [|i l IH]; intros w H.
  - discriminate H.
  - cbn [probe_indicators] in H. unfold bind in H. rewrite perform_eq in H.
    destruct (fst (perform (WaitPresence (seconds 5) (XPATH, i)) w))
      as [el|[|]] eqn:E; try discriminate H.
    + injection H as <-. exists i, el, (history w). split; [now left | reflexivity].
    + apply IH in H as (indicator & el & h & Hin & Hh).
      exists indicator, el, h. split; [now right | exact Hh].
Qed.

Lemma check_login_status_true (w : World) :
  fst (_check_login_status w) = true ->
  probe_indicators login_indicators w = (Ok true, snd (_check_login_status w)).
Proof.
  unfold _check_login_status, bind.
  destruct (probe_indicators login_indicators w) as [[[|]|e] w1];
    cbn [ret fst snd]; try discriminate; [reflexivity|].
  destruct (perform CurrentUrl w1) as [[u|e] w2]; cbn [ret fst]; try discriminate.
  destruct (str_in "accounts/login" u || str_in "login" u); cbn [ret fst];
    try discriminate.
  destruct (perform (FindElements _) w2) as [[[|x l]|e] w3]; discriminate.
Qed.

Lemma keeps_check_login_status : keeps_session _check_login_status.
Proof.
  unfold _check_login_status. pose proof (keeps_probe_indicators login_indicators).
  keeps_all.
Qed.

(** The file after [load_session]: the handler tries to remove it when it
    cannot be unpickled or the restore raises; nothing else touches it. *)
Lemma load_session_file_after (w : World) :
  session_file (snd (load_session w))
  = match session_file w with
    | None => None
    | Some None => if file_ok (env w) (history w) Remove then None else Some None
    | Some (Some d) =>
        match fst (restore_cookies d w) with
        | Ok _ => Some (Some d)
        | Raise _ =>
            if file_ok (env (snd (restore_cookies d w)))
                       (history (snd (restore_cookies d w))) Remove
            then None else Some (Some d)
        end
    end.
Proof.
  unfold load_session, read_session_file, bind.
  destruct (session_file w) as [[d|]|] eqn:Hfile.
  - unfold bind_ok, bind.
    pose proof (keeps_restore_cookies d w) as Hkeep. rewrite Hfile in Hkeep.
    destruct (restore_cookies d w) as [[[]|e] w1]; cbn [fst snd] in *.
    + unfold lift, bind. pose proof (keeps_check_login_status w1) as Hcheck.
      destruct (_check_login_status w1) as [b w2]. cbn [ret snd] in *.
      congruence.
    + cbn [ret]. unfold remove_session_file.
      destruct (file_ok (env w1) (history w1) Remove); cbn [snd];
        [reflexivity | exact Hkeep].
  - cbn [ret]. unfold remove_session_file.
    destruct (file_ok (env w) (history w) Remove); cbn [snd];
      [reflexivity | exact Hfile].
  - cbn. exact Hfile.
Qed.

Lemma load_session_file_cases (w : World) :
  session_file (snd (load_session w)) = session_file w
  \/ session_file (snd (load_session w)) = None.
Proof.
  rewrite load_session_file_after.
  destruct (session_file w) as [[d|]|]; auto.
  - destruct (fst (restore_cookies d w)); auto.
    destruct (file_ok _ _ Remove); auto.
  - destruct (file_ok _ _ Remove); auto.
Qed.

Lemma load_session_true (w : World) :
  fst (load_session w) = true ->
  exists d w1,
    session_file w = Some (Some d)
    /\ restore_cookies d w = (Ok tt, w1)
    /\ load_session w = (true, snd (_check_login_status w1))
    /\ fst (_check_login_status w1) = true.
Proof.
  unfold load_session, read_session_file, bind.
  destruct (session_file w) as [[d|]|]; try discriminate.
  2: { cbn [ret]. unfold remove_session_file.
       destruct (file_ok _ _ Remove); discriminate. }
  unfold bind_ok, bind.
  destruct (restore_cookies d w) as [[[]|e] w1] eqn:Er.
  2: { cbn [ret]. unfold remove_session_file.
       destruct (file_ok _ _ Remove); discriminate. }
  unfold lift, bind.
  destruct (_check_login_status w1) as [[|] w2] eqn:E; try discriminate.
  intros _. exists d, w1. rewrite E. cbn [ret fst snd].
  split; [reflexivity|]. split; [exact Er|]. split; reflexivity.
Qed.

(** **** X16
    [load_session] is never optimistic: when it returns [True] there was a
    readable session record, the last thing the browser did was a wait that
    found one of the logged-in indicators, and the record is still in the
    file; [login] with [use_session] then returns [True] in that very state,
    without sending any credentials. *)
Theorem restored_session_saw_indicator (username password : string) (w : World) :
  fst (load_session w) = true ->
  exists d indicator el h,
    session_file w = Some (Some d)
    /\ In indicator login_indicators
    /\ history (snd (load_session w))
       = h ++ [EDriver (WaitPresence (seconds 5) (XPATH, indicator)) (Ok el)]
    /\ session_file (snd (load_session w)) = Some (Some d)
    /\ login username password true w = (true, snd (load_session w)).
Proof.
  intros Htrue.
  destruct (load_session_true w Htrue) as (d & w1 & Hfile & Hrestore & Hload & Hcheck).
  apply check_login_status_true in Hcheck.
  destruct (probe_indicators_found _ _ _ Hcheck) as (indicator & el & h & Hin & Hh).
  exists d, indicator, el, h.
  split; [exact Hfile|]. split; [exact Hin|].
  split; [rewrite Hload; exact Hh|]. split.
  - rewrite load_session_file_after, Hfile, Hrestore. reflexivity.
  - unfold login, bind. rewrite Hload. reflexivity.
Qed.

Lemma restored_session_saw_indicator_witness :
  fst (load_session
         (Scenarios.start returning (Some (Some Scenarios.stored_session)))) = true
  /\ exists d indicator el h,
      session_file (Scenarios.start returning (Some (Some Scenarios.stored_session)))
      = Some (Some d)
      /\ In indicator login_indicators
      /\ history (snd (load_session
                         (Scenarios.start returning
                            (Some (Some Scenarios.stored_session)))))
         = h ++ [EDriver (WaitPresence (seconds 5) (XPATH, indicator)) (Ok el)]
      /\ session_file (snd (load_session
                              (Scenarios.start returning
                                 (Some (Some Scenarios.stored_session)))))
         = Some (Some d)
      /\ login "me" "secret" true
           (Scenarios.start returning (Some (Some Scenarios.stored_session)))
         = (true,
            snd (load_session
                   (Scenarios.start returning
                      (Some (Some Scenarios.stored_session))))).
Proof.
  assert (H : fst (load_session
                     (Scenarios.start returning
                        (Some (Some Scenarios.stored_session)))) = true)
    by (vm_compute; reflexivity).
  split; [exact H|].
  exact (restored_session_saw_indicator "me" "secret" _ H).
Defined.

Lemma keyless_restore_raises (d : SessionData) (w : World) :
  cookies d = None -> exists e, fst (restore_cookies d w) = Raise e.
Proof.
  intros Hnone. unfold restore_cookies, stored_cookies, bind_ok, lift, bind.
  rewrite Hnone.
  destruct (perform (Get instagram_root) w) as [[[]|e] w1]; [|now exists e].
  cbv beta iota delta [sleep ret].
  destruct (perform DeleteAllCookies _) as [[[]|e] w2]; [|now exists e].
  now exists WebDriverException.
Qed.

(** **** X17
    What [load_session] does to the session file.  It never writes it: the
    file afterwards is the file before, or there is none.  The file changes
    only when it could not be unpickled or restoring the cookies raised, for
    instance because the stored object has no cookies, and then
    [load_session] returns [False].  In those two cases the handler tries to
    remove the file: it is gone when the removal goes through and stays as
    it was when the removal fails.  In every other case, in particular when
    the restored session fails the login check, the file is left as it is. *)
Theorem load_session_removes_only_on_error (w : World) :
  (session_file (snd (load_session w)) = session_file w
   \/ session_file (snd (load_session w)) = None)
  /\ (session_file (snd (load_session w)) <> session_file w ->
      fst (load_session w) = false
      /\ (session_file w = Some None
          \/ exists d e,
              session_file w = Some (Some d)
              /\ fst (restore_cookies d w) = Raise e))
  /\ (session_file w = Some None ->
      session_file (snd (load_session w))
      = if file_ok (env w) (history w) Remove then None else Some None)
  /\ (forall d e,
         session_file w = Some (Some d) ->
         fst (restore_cookies d w) = Raise e ->
         session_file (snd (load_session w))
         = if file_ok (env (snd (restore_cookies d w)))
                      (history (snd (restore_cookies d w))) Remove
           then None else Some (Some d))
  /\ (forall d x,
         session_file w = Some (Some d) ->
         fst (restore_cookies d w) = Ok x ->
         session_file (snd (load_session w)) = Some (Some d))
  /\ (forall d,
         session_file w = Some (Some d) ->
         cookies d = None ->
         exists e, fst (restore_cookies d w) = Raise e).
Proof.
  split; [apply load_session_file_cases|]. split; [|split; [|split; [|split]]].
  - intros Hchanged.
    assert (Hfalse : fst (load_session w) = false).
    { destruct (fst (load_session w)) eqn:Htrue; [|reflexivity].
      exfalso. apply Hchanged.
      destruct (load_session_true w Htrue) as (d & w1 & Hfile & Hrestore & _).
      rewrite load_session_file_after, Hfile, Hrestore. reflexivity. }
    split; [exact Hfalse|].
    rewrite load_session_file_after in Hchanged.
    destruct (session_file w) as [[d|]|]; [| now left | congruence].
    right. destruct (fst (restore_cookies d w)) as [x|e] eqn:E; [congruence|].
    now exists d, e.
  - intros Hfile. rewrite load_session_file_after, Hfile. reflexivity.
  - intros d e Hfile Hraise. rewrite load_session_file_after, Hfile, Hraise.
    reflexivity.
  - intros d x Hfile Hok. rewrite load_session_file_after, Hfile, Hok. reflexivity.
  - intros d _ Hnone. now apply keyless_restore_raises.
Qed.

(** *** The cookies *)

Lemma add_cookies_attempts (cs : list cookie) (w : World) :
  exists h,
    history (snd (add_cookies cs w)) = history w ++ h /\ Forall2 attempted cs h.
Proof.
  revert w; induction cs as [|c cs IH]; intros w.
  - exists []. cbn. rewrite app_nil_r. split; [reflexivity | constructor].
  - cbn [add_cookies]. unfold bind. rewrite perform_eq.
    destruct (IH (log (EDriver (AddCookie c) (fst (perform (AddCookie c) w))) w))
      as (h & Hh & Hall).
    exists (EDriver (AddCookie c) (fst (perform (AddCookie c) w)) :: h).
    rewrite Hh. cbn [log history]. rewrite <- app_assoc. split; [reflexivity|].
    constructor; [eexists; reflexivity | exact Hall].
Qed.

(** **** X18
    A restore that does not raise went through exactly these steps: open
    the site, pause two seconds, clear the cookies, read the stored cookies,
    call [add_cookie] once for every stored cookie in the stored order,
    whatever each call returned or raised, refresh, pause three seconds. *)
Theorem restore_cookies_protocol (d : SessionData) (w w' : World) :
  restore_cookies d w = (Ok tt, w') ->
  exists cs h,
    cookies d = Some cs
    /\ Forall2 attempted cs h
    /\ history w'
       = history w
           ++ [EDriver (Get "https://www.instagram.com/") (Ok tt);
               ESleep (Fixed 2000);
               EDriver DeleteAllCookies (Ok tt)]
           ++ h
           ++ [EDriver Refresh (Ok tt); ESleep (Fixed 3000)].
Proof.
  unfold restore_cookies, stored_cookies, bind_ok, lift, bind.
  rewrite (perform_eq (Get instagram_root)).
  destruct (fst (perform (Get instagram_root) w)) as [[]|e]; [|discriminate].
  cbv beta iota delta [sleep ret].
  match goal with |- context [perform DeleteAllCookies ?w1] =>
    rewrite (perform_eq DeleteAllCookies w1);
    destruct (fst (perform DeleteAllCookies w1)) as [[]|e]; [|discriminate]
  end.
  destruct (cookies d) as [cs|]; [|discriminate].
  match goal with |- context [add_cookies _ ?w2] =>
    destruct (add_cookies_attempts cs w2) as (h & Hh & Hall);
    destruct (add_cookies cs w2) as [[] w3]
  end.
  cbn [snd] in Hh.
  rewrite (perform_eq Refresh w3).
  destruct (fst (perform Refresh w3)) as [[]|e]; [|discriminate].
  intros H. injection H as <-. exists cs, h.
  split; [reflexivity|]. split; [exact Hall|].
  cbn [log history] in *. rewrite Hh. cbn [log history].
  rewrite <- !app_assoc. reflexivity.
Qed.

Lemma restore_cookies_protocol_witness :
  restore_cookies Scenarios.stored_session (Scenarios.start Scenarios.expired None)
  = (Ok tt,
     snd (restore_cookies Scenarios.stored_session
            (Scenarios.start Scenarios.expired None)))
  /\ exists cs h,
      cookies Scenarios.stored_session = Some cs
      /\ Forall2 attempted cs h
      /\ history (snd (restore_cookies Scenarios.stored_session
                         (Scenarios.start Scenarios.expired None)))
         = history (Scenarios.start Scenarios.expired None)
             ++ [EDriver (Get "https://www.instagram.com/") (Ok tt);
                 ESleep (Fixed 2000);
                 EDriver DeleteAllCookies (Ok tt)]
             ++ h
             ++ [EDriver Refresh (Ok tt); ESleep (Fixed 3000)].
Proof.
  assert (H : restore_cookies Scenarios.stored_session
                (Scenarios.start Scenarios.expired None)
              = (Ok tt,
                 snd (restore_cookies Scenarios.stored_session
                        (Scenarios.start Scenarios.expired None))))
    by (vm_compute; reflexivity).
  split; [exact H|].
  exact (restore_cookies_protocol _ _ _ H).
Defined.

(** *** Saving *)

(** **** X19
    [save_session] returns [True] only when the file holds a new record with
    the cookies and the user agent the browser has just returned.  When it
    returns [False] no record has been written: the file is what it was
    before, unless every call on the browser succeeded, the file could be
    opened for writing and the dump then failed, which leaves a file that
    cannot be unpickled. *)
Theorem save_session_record_or_failure (w : World) :
  (fst (save_session w) = true ->
   exists d cs,
     session_file (snd (save_session w)) = Some (Some d)
     /\ cookies d = Some cs
     /\ In (EDriver GetCookies (Ok cs)) (history (snd (save_session w)))
     /\ In (EDriver (ExecuteScript "return navigator.userAgent;")
                    (Ok (user_agent d)))
           (history (snd (save_session w))))
  /\ (fst (save_session w) = false ->
      session_file (snd (save_session w)) = session_file w
      \/ (session_file (snd (save_session w)) = Some None
          /\ file_ok (env w) (history (snd (save_session w))) OpenForWriting = true
          /\ file_ok (env w) (history (snd (save_session w))) Dump = false)).
Proof.
  split; [apply save_session_persists | apply save_session_failure].
Qed.

(** *** Logging in *)

Lemma keeps_submit_credentials (username password : string) :
  keeps_session (submit_credentials username password).
Proof.
  unfold submit_credentials. keeps_all.
Qed.

Lemma login_fresh_failure_keeps (username password : string) (use_session : bool)
      (w : World) :
  fst (login_fresh username password use_session w) <> Ok true ->
  session_file (snd (login_fresh username password use_session w)) = session_file w.
Proof.
  unfold login_fresh, bind_ok, bind.
  pose proof (keeps_submit_credentials username password w) as Hsub.
  destruct (submit_credentials username password w) as [[[]|e] w1];
    cbn [snd ret] in *; [|intros _; exact Hsub].
  rewrite perform_eq.
  destruct (fst (perform (WaitAny (seconds 15) home_indicators) w1)) as [x|[|]].
  - destruct (save_if use_session _) as [u w3]. cbn [ret fst]. congruence.
  - unfold login_after_timeout, bind_ok, bind. rewrite perform_eq.
    destruct (fst (perform (FindElement (ID, "slfErrorAlert")) _)) as [el|e].
    + intros _. exact Hsub.
    + rewrite perform_eq.
      destruct (fst (perform CurrentUrl _)) as [u|e']; [|intros _; exact Hsub].
      destruct (str_in "accounts/login" u); [intros _; exact Hsub|].
      destruct (save_if use_session _) as [u' w3]. cbn [ret fst]. congruence.
  - intros _. exact Hsub.
Qed.

Lemma keeps_login_fresh_without_session (username password : string) :
  keeps_session (login_fresh username password false).
Proof.
  pose proof (keeps_submit_credentials username password).
  unfold login_fresh, login_after_timeout, save_if. keeps_all.
Qed.

Lemma keeps_login_without_session (username password : string) :
  keeps_session (login username password false).
Proof.
  pose proof (keeps_login_fresh_without_session username password) as H.
  unfold login. keeps_all.
Qed.

(** **** X20
    With [use_session] off, [login] neither writes nor removes the session
    file, whether it succeeds or not. *)
Theorem login_without_session_keeps_file (username password : string) (w : World) :
  session_file (snd (login username password false w)) = session_file w.
Proof. exact (keeps_login_without_session username password w). Qed.

(** **** X21
    A login that fails never writes a session record: afterwards the file
    is what it was, or, with [use_session] on, it has been removed by the
    failed restore. *)
Theorem failed_login_writes_no_session (username password : string)
        (use_session : bool) (w : World) :
  fst (login username password use_session w) = false ->
  session_file (snd (login username password use_session w)) = session_file w
  \/ (use_session = true
      /\ session_file (snd (login username password use_session w)) = None).
Proof.
  unfold login, bind. destruct use_session.
  - pose proof (load_session_file_cases w) as Hload.
    destruct (load_session w) as [[|] w1]; cbn [snd] in Hload; [discriminate|].
    pose proof (login_fresh_failure_keeps username password true w1) as Hfresh.
    destruct (login_fresh username password true w1) as [[b|e] w2];
      cbn [fst snd ret] in *; intros Hb.
    + subst b. rewrite Hfresh by discriminate. destruct Hload; auto.
    + rewrite Hfresh by discriminate. destruct Hload; auto.
  - cbn [ret]. intros _. left.
    pose proof (keeps_login_fresh_without_session username password w) as H.
    destruct (login_fresh username password false w) as [[b|e] w2]; exact H.
Qed.

Lemma failed_login_writes_no_session_witness :
  fst (login "me" "secret" true
         (Scenarios.start Scenarios.expired (Some (Some Scenarios.stored_session))))
  = false
  /\ session_file
       (snd (login "me" "secret" true
               (Scenarios.start Scenarios.expired
                  (Some (Some Scenarios.stored_session)))))
     = Some (Some Scenarios.stored_session).
Proof.
  assert (H : fst (login "me" "secret" true
                     (Scenarios.start Scenarios.expired
                        (Some (Some Scenarios.stored_session)))) = false)
    by (vm_compute; reflexivity).
  split; [exact H|].
  destruct (failed_login_writes_no_session "me" "secret" true _ H) as [Hkeep|[_ Hgone]].
  - exact Hkeep.
  - vm_compute in Hgone. discriminate Hgone.
Defined.

End SessionProperties.

(* ------------------------------------------------------------------------- *)
(** ** The footprint of a batch *)
(* ------------------------------------------------------------------------- *)

Module FootprintProperties.

Import PyStr Props Browser Scraper Effects Footprint.
Local Open Scope scraper_scope.

Create HintDb page_db.

Ltac page_step :=
  first
    [ apply appends_ret
    | apply appends_now
    | apply appends_time
    | assumption
    | solve [auto with page_db]
    | apply appends_perform; intro; reflexivity
    | apply appends_sleep; reflexivity
    | apply appends_lift
    | apply appends_bind_ok; [|intro]
    | apply appends_bind; [|intro]
    | match goal with
      | |- appends _ (match ?x with _ => _ end) => destruct x
      end ].

Ltac page_all := repeat page_step.

Lemma page_click_first_match (t : Duration) (l : list string) :
  appends page_only (click_first_match t l).
Proof.
  induction l as [|sel l IH]; cbn [click_first_match]; unfold click_strategy;
    page_all.
Qed.
#[export] Hint Resolve page_click_first_match : page_db.

Lemma page_go_to_next_post : appends page_only _go_to_next_post.
Proof. unfold _go_to_next_post, keyboard_strategy, script_strategy. page_all. Qed.
#[export] Hint Resolve page_go_to_next_post : page_db.

Lemma page_close_modal : appends page_only _close_modal.
Proof. unfold _close_modal, keyboard_strategy. page_all. Qed.
#[export] Hint Resolve page_close_modal : page_db.

Lemma page_click_first_post : appends page_only _click_first_post.
Proof. unfold _click_first_post. page_all. Qed.
#[export] Hint Resolve page_click_first_post : page_db.

Lemma page_navigate_loop (fuel : nat) (n m a : Z) (posts_data : list ContentRecord) :
  appends page_only (navigate_loop fuel n m a posts_data).
Proof.
  revert a posts_data; induction fuel as [|fuel IH]; intros a posts_data;
    cbn [navigate_loop];
    unfold arrows_iteration, collect_current_post, _get_current_modal_post_url;
    page_all.
Qed.
#[export] Hint Resolve page_navigate_loop : page_db.

Lemma page_scrape_posts (username : string) (n : Z) :
  appends page_only (scrape_posts_via_modal_navigation username n).
Proof.
  unfold scrape_posts_via_modal_navigation, scrape_posts_with, modal_try_block,
    _navigate_posts_via_arrows.
  page_all.
Qed.
#[export] Hint Resolve page_scrape_posts : page_db.

Lemma page_scan_anchors (n : Z) (anchors : list element) (ordered : list string) :
  appends page_only (scan_anchors n anchors ordered).
Proof.
  revert ordered; induction anchors as [|a anchors IH]; intros ordered;
    cbn [scan_anchors]; page_all.
Qed.
#[export] Hint Resolve page_scan_anchors : page_db.

Lemma page_build_reels (i : nat) (urls : list string) (acc : list ContentRecord) :
  appends page_only (build_reels i urls acc).
Proof.
  revert i acc; induction urls as [|u urls IH]; intros i acc;
    cbn [build_reels]; page_all.
Qed.
#[export] Hint Resolve page_build_reels : page_db.

Lemma page_collect_content (username : string) (np nr : Z) (ct : string)
      (pd : ProfileData) :
  appends page_only (collect_content username np nr ct pd).
Proof.
  unfold collect_content, scrape_reels_traditional, _find_reel_urls. page_all.
Qed.

Lemma page_only_scrape_event (usernames : list string) (ev : Event) :
  page_only ev -> scrape_event usernames ev.
Proof.
  unfold scrape_event, page_only. destruct ev as [A c r|d]; [|trivial].
  destruct c; cbn; trivial; discriminate.
Qed.

Lemma footprint_scrape_profile_content (usernames : list string) (name : string)
      (np nr : Z) (ct : string) :
  In name usernames ->
  appends (scrape_event usernames) (scrape_profile_content name np nr ct).
Proof.
  intros Hin.
  unfold scrape_profile_content, open_profile, _wait_for_profile_load.
  apply appends_bind; [apply appends_now|]. intros scraped_at.
  apply appends_bind.
  - apply appends_bind_ok.
    + apply appends_perform. intros r. apply (in_map profile_url_of), Hin.
    + intros _. apply appends_bind.
      * apply appends_perform. intros r. reflexivity.
      * intros [x|[|]]; apply appends_ret.
  - intros [[|]|e]; cbn [negb]; try apply appends_ret.
    apply appends_bind; [apply appends_perform; intros r; reflexivity|].
    intros [u|e]; [|apply appends_ret].
    destruct (str_in "accounts/login" u || str_in "challenge" u);
      [apply appends_ret|].
    apply (appends_weaken _ _ _ (page_only_scrape_event usernames)).
    apply page_collect_content.
Qed.

Lemma footprint_profiles_loop (all : list string) (total : nat) (np nr : Z)
      (ct : string) (usernames : list string) :
  forall (i : nat) (all_results : Running),
    incl usernames all ->
    appends (scrape_event all)
            (profiles_loop total i usernames np nr ct all_results).
Proof.
  induction usernames as [|name rest IH]; intros i all_results Hincl;
    cbn [profiles_loop].
  - apply appends_ret.
  - apply appends_bind; [apply appends_time|]. intros start_time.
    apply appends_bind.
    { apply footprint_scrape_profile_content, Hincl. now left. }
    intros pd. apply appends_bind; [apply appends_time|]. intros end_time.
    apply appends_bind.
    { destruct (Nat.ltb i total); [apply appends_sleep; reflexivity | apply appends_ret]. }
    intros _. apply IH. intros x Hx. apply Hincl. now right.
Qed.

(** **** X22
    All a batch does to the browser is open the profile pages of the
    requested usernames and act on the page shown: it opens no other
    address, never refreshes, never reads, adds or deletes a cookie, never
    clears a field and never types text (the only keys it sends are
    [ARROW_RIGHT] and [ESCAPE]). *)
Theorem batch_footprint (usernames : list string) (np nr : Z) (ct : string)
        (w : World) :
  exists h,
    history (snd (scrape_multiple_profiles usernames np nr ct w)) = history w ++ h
    /\ Forall (fun ev =>
                 match opens ev with
                 | Some url => In url (map profile_url_of usernames)
                 | None => stays_on_page ev = true
                 end) h.
Proof.
  assert (H : appends (scrape_event usernames)
                      (scrape_multiple_profiles usernames np nr ct)).
  { unfold scrape_multiple_profiles.
    apply appends_bind; [apply appends_now|]. intros scraped_at.
    apply appends_bind; [|intros all_results; apply appends_ret].
    apply footprint_profiles_loop. apply incl_refl. }
  exact (H w).
Qed.

End FootprintProperties.

(* ------------------------------------------------------------------------- *)
(** ** The process *)
(* ------------------------------------------------------------------------- *)

Module ProcessProperties.

Import PyStr Props Browser Scraper Effects SessionFacts Batch BatchProperties
       SessionProperties Process.
Local Open Scope scraper_scope.

Lemma main_cases (args : Args) (host : Host) :
  (truthy (IG_USERNAME host) && truthy (IG_PASSWORD host) = false
   /\ main (Parsed args) host
      = {| exit_code := 1; written := None; closed := false; final := None |})
  \/ (truthy (IG_USERNAME host) && truthy (IG_PASSWORD host) = true
      /\ exists e, started host = Raise e
      /\ main (Parsed args) host
         = {| exit_code := 1; written := None; closed := false; final := None |})
  \/ (truthy (IG_USERNAME host) && truthy (IG_PASSWORD host) = true
      /\ exists w0, started host = Ok w0
      /\ let logged :=
           login (text (IG_USERNAME host)) (text (IG_PASSWORD host))
                 (negb (args_no_session args)) w0 in
         (fst logged = false
          /\ main (Parsed args) host
             = {| exit_code := 1; written := None; closed := true;
                  final := Some (snd logged) |})
         \/ (fst logged = true
             /\ let batch :=
                  scrape_multiple_profiles (args_users args) (args_posts args)
                    (args_reels args) (args_type args)
                    (log (ESleep (Uniform 2400 4000)) (snd logged)) in
                main (Parsed args) host
                = {| exit_code := if stdout_ok host then 0 else 1;
                     written := Some (fst batch);
                     closed := true;
                     final := Some (snd batch) |})).
Proof.
  unfold main.
  destruct (truthy (IG_USERNAME host)), (truthy (IG_PASSWORD host));
    cbn [negb orb andb]; try (left; split; reflexivity).
  right. destruct (started host) as [w0|e].
  - right. split; [reflexivity|]. exists w0. split; [reflexivity|]. cbv zeta.
    destruct (login _ _ _ w0) as [[|] w1]; cbn [negb fst snd].
    + right. split; [reflexivity|]. unfold sleep.
      destruct (scrape_multiple_profiles _ _ _ _ _) as [results w3]. reflexivity.
    + left. split; reflexivity.
  - left. split; [reflexivity|]. exists e. split; reflexivity.
Qed.

Lemma ready_iff (host : Host) :
  truthy (IG_USERNAME host) && truthy (IG_PASSWORD host) = true
  <-> truthy (IG_USERNAME host) = true /\ truthy (IG_PASSWORD host) = true.
Proof. apply andb_true_iff. Qed.

Lemma batch_names (usernames : list string) (np nr : Z) (ct : string) (w : World) :
  map (fun e => username (profile e))
      (batch_profiles (fst (scrape_multiple_profiles usernames np nr ct w)))
  = usernames.
Proof.
  destruct (batch_entries usernames np nr ct w) as (HF & _).
  exact (proj1 (entries_names _ _ _ HF)).
Qed.

Lemma parsed_outcome (args : Args) (host : Host) :
  let o := main (Parsed args) host in
  (exit_code o = 0%Z
   <-> truthy (IG_USERNAME host) = true
       /\ truthy (IG_PASSWORD host) = true
       /\ stdout_ok host = true
       /\ exists w0,
           started host = Ok w0
           /\ fst (login (text (IG_USERNAME host)) (text (IG_PASSWORD host))
                         (negb (args_no_session args)) w0) = true)
  /\ (exit_code o = 0%Z \/ exit_code o = 1%Z)
  /\ (exit_code o = 0%Z ->
      exists results,
        written o = Some results
        /\ map (fun e => username (profile e)) (batch_profiles results)
           = args_users args)
  /\ (closed o = true
      <-> truthy (IG_USERNAME host) = true
          /\ truthy (IG_PASSWORD host) = true
          /\ exists w0, started host = Ok w0)
  /\ (written o <> None -> closed o = true).
Proof.
  cbv zeta.
  destruct (main_cases args host)
    as [[Hc ->]|[(Hc & e & Hs & ->)|(Hc & w0 & Hs & Hrun)]];
    cbn [exit_code written closed final].
  - assert (Hno : ~ (truthy (IG_USERNAME host) = true
                     /\ truthy (IG_PASSWORD host) = true))
      by (rewrite <- ready_iff, Hc; discriminate).
    split; [|split; [|split; [|split]]].
    + split; [discriminate|]. intros (Hu & Hp & _). exfalso. now apply Hno.
    + now right.
    + discriminate.
    + split; [discriminate|]. intros (Hu & Hp & _). exfalso. now apply Hno.
    + congruence.
  - split; [|split; [|split; [|split]]].
    + split; [discriminate|]. intros (_ & _ & _ & w0 & Hw & _). congruence.
    + now right.
    + discriminate.
    + split; [discriminate|]. intros (_ & _ & w0 & Hw). congruence.
    + congruence.
  - apply ready_iff in Hc as [Hu Hp]. cbv zeta in Hrun.
    destruct Hrun as [[Hfail ->]|[Hok ->]]; cbn [exit_code written closed final].
    + split; [|split; [|split; [|split]]].
      * split; [discriminate|]. intros (_ & _ & _ & w0' & Hw & Hl).
        rewrite Hs in Hw. injection Hw as <-. congruence.
      * now right.
      * discriminate.
      * split; [|reflexivity]. intros _. split; [exact Hu|]. split; [exact Hp|].
        now exists w0.
      * reflexivity.
    + split; [|split; [|split; [|split]]].
      * destruct (stdout_ok host).
        -- split; [|reflexivity].
           intros _. split; [exact Hu|]. split; [exact Hp|]. split; [reflexivity|].
           now exists w0.
        -- split; [discriminate|]. intros (_ & _ & Hout & _). discriminate.
      * destruct (stdout_ok host); [now left | now right].
      * intros _. eexists. split; [reflexivity|]. apply batch_names.
      * split; [|reflexivity]. intros _. split; [exact Hu|]. split; [exact Hp|].
        now exists w0.
      * reflexivity.
Qed.

(** **** X23
    [main] ends with status 2 exactly when the command line is rejected by
    [parse_arguments], and with status 0 exactly when the help was asked
    for, or the arguments were parsed, both credentials are set and not
    empty, the scraper could be built, the login succeeded and the results
    were written; in every other case with status 1.  Results are handed to
    [json.dump] only after the arguments were parsed, and then the document
    has one entry per requested user, in the order given; with status 0 and
    parsed arguments there is such a document.  The scraper is closed
    exactly when it was built, also after a failed login or a failed
    write. *)
Theorem main_outcome (cmdline : CommandLine) (host : Host) :
  let o := main cmdline host in
  (exit_code o = 2%Z <-> cmdline = UsageError)
  /\ (exit_code o = 0%Z
      <-> cmdline = HelpRequested
          \/ exists args,
              cmdline = Parsed args
              /\ truthy (IG_USERNAME host) = true
              /\ truthy (IG_PASSWORD host) = true
              /\ stdout_ok host = true
              /\ exists w0,
                  started host = Ok w0
                  /\ fst (login (text (IG_USERNAME host)) (text (IG_PASSWORD host))
                                (negb (args_no_session args)) w0) = true)
  /\ (exit_code o = 0%Z \/ exit_code o = 1%Z \/ exit_code o = 2%Z)
  /\ (forall results,
         written o = Some results ->
         exists args,
           cmdline = Parsed args
           /\ map (fun e => username (profile e)) (batch_profiles results)
              = args_users args)
  /\ (forall args,
         cmdline = Parsed args -> exit_code o = 0%Z -> written o <> None)
  /\ (closed o = true
      <-> exists args w0,
            cmdline = Parsed args
            /\ truthy (IG_USERNAME host) = true
            /\ truthy (IG_PASSWORD host) = true
            /\ started host = Ok w0)
  /\ (written o <> None -> closed o = true).
Proof.
  cbv zeta. destruct cmdline as [| |args].
  - cbn [main exit_code written closed].
    split; [split; reflexivity|].
    split; [split; [discriminate | intros [H|(args & H & _)]; discriminate]|].
    split; [now right; right|].
    split; [discriminate|]. split; [discriminate|].
    split; [split; [discriminate | intros (args & w0 & H & _); discriminate]|].
    congruence.
  - cbn [main exit_code written closed].
    split; [split; discriminate|].
    split; [split; [now left | reflexivity]|].
    split; [now left|].
    split; [discriminate|]. split; [discriminate|].
    split; [split; [discriminate | intros (args & w0 & H & _); discriminate]|].
    congruence.
  - destruct (parsed_outcome args host) as (Hzero & Hcode & Hdoc & Hclosed & Hwritten).
    cbv zeta in *.
    split; [|split; [|split; [|split; [|split; [|split]]]]].
    + split; [|discriminate]. intros H2. destruct Hcode as [H|H]; congruence.
    + split.
      * intros H0. right. exists args. split; [reflexivity|]. now apply Hzero.
      * intros [H|(args' & H & Hrest)]; [discriminate|].
        injection H as <-. now apply Hzero.
    + destruct Hcode; auto.
    + intros results Hres. exists args. split; [reflexivity|].
      destruct (main_cases args host)
        as [[_ E]|[(_ & e & _ & E)|(_ & w0 & _ & Hrun)]];
        try (rewrite E in Hres; discriminate).
      cbv zeta in Hrun. destruct Hrun as [[_ E]|[_ E]]; rewrite E in Hres;
        cbn [written] in Hres; [discriminate|].
      injection Hres as <-. apply batch_names.
    + intros args' _ H0. destruct (Hdoc H0) as (results & -> & _). discriminate.
    + split.
      * intros Hc. apply Hclosed in Hc as (Hu & Hp & w0 & Hs).
        now exists args, w0.
      * intros (args' & w0 & _ & Hu & Hp & Hs). apply Hclosed.
        split; [exact Hu|]. split; [exact Hp|]. now exists w0.
    + exact Hwritten.
Qed.

(** **** X24
    Run with [--no-session], [main] leaves the session file as it found it,
    whatever the login and the scrape do. *)
Theorem main_no_session_keeps_file (args : Args) (host : Host) (w0 : World) :
  args_no_session args = true ->
  truthy (IG_USERNAME host) = true ->
  truthy (IG_PASSWORD host) = true ->
  started host = Ok w0 ->
  exists w',
    final (main (Parsed args) host) = Some w'
    /\ session_file w' = session_file w0.
Proof.
  intros Hno Hu Hp Hs.
  destruct (main_cases args host)
    as [[Hc _]|[(_ & e & He & _)|(_ & w1 & Hw & Hrun)]].
  - rewrite Hu, Hp in Hc. discriminate.
  - congruence.
  - rewrite Hs in Hw. injection Hw as <-. rewrite Hno in Hrun. cbn [negb] in Hrun.
    cbv zeta in Hrun.
    pose proof (keeps_login_without_session (text (IG_USERNAME host))
                  (text (IG_PASSWORD host)) w0) as Hlogin.
    destruct Hrun as [[_ ->]|[_ ->]]; cbn [final]; eexists; (split; [reflexivity|]).
    + exact Hlogin.
    + rewrite keeps_scrape_multiple_profiles. cbn [log session_file]. exact Hlogin.
Qed.

Lemma main_no_session_keeps_file_witness :
  let args :=
    {| args_users := ["alice"]; args_posts := 4; args_reels := 2;
       args_type := "both"; args_no_session := true; args_quiet := true |} in
  let w0 :=
    Scenarios.start Scenarios.unclear (Some (Some Scenarios.stored_session)) in
  let host :=
    {| IG_USERNAME := Some "me"; IG_PASSWORD := Some "secret";
       started := Ok w0; stdout_ok := true |} in
  exit_code (main (Parsed args) host) = 0%Z
  /\ exists w',
      final (main (Parsed args) host) = Some w'
      /\ session_file w' = Some (Some Scenarios.stored_session).
Proof.
  cbv zeta. split; [vm_compute; reflexivity|].
  exact (main_no_session_keeps_file
           {| args_users := ["alice"]; args_posts := 4; args_reels := 2;
              args_type := "both"; args_no_session := true; args_quiet := true |}
           {| IG_USERNAME := Some "me"; IG_PASSWORD := Some "secret";
              started := Ok (Scenarios.start Scenarios.unclear
                               (Some (Some Scenarios.stored_session)));
              stdout_ok := true |}
           _ eq_refl eq_refl eq_refl eq_refl).
Defined.

End ProcessProperties.
